(** * fasthttp: the static file handler (fshandler.go)

    A shallow embedding of [FSHandler] and of the functions it is built
    from: path normalisation ([stripPathSlashes]), extension lookup
    ([fileExtension]), file resolution ([openFSFile]), directory listings
    ([createDirIndex]), the pooled readers ([fsFileReader]) and the handle
    cache with its sweep ([cleanCache]).

    Go values are modelled as follows.
    - [[]byte] is [list byte]; a Go [string] is a [string]; [string(b)] is
      [string_of_list_byte b] and [[]byte(s)] is [list_byte_of_string s].
    - [int], [int64] and [time.Duration] are [Z]; conversions that can
      truncate are written out ([toInt], [satInt64]).
    - pointers ([*os.File], [*fsFileReader]) are indices into tables kept
      in the [World]; a nil pointer is [None].
    - a function with effects is a function [World -> outcome (A * World)];
      a Go panic is [Panics].
    - what the runtime decides and the program cannot see, namely which of
      its objects a [sync.Pool] hands out, is read from the [World], so
      that a property of every world holds whatever the runtime does. *)

From Stdlib Require Import ZArith Lia.
From Stdlib Require Import Strings.Byte Strings.Ascii.
From stdpp Require Import prelude strings gmap sorting.

Local Open Scope Z_scope.

(** ** Bytes and strings *)

#[global] Instance byte_eq_dec : EqDecision byte := Byte.byte_eq_dec.

Definition slash : byte := "/"%byte.
Definition NUL : byte := "000"%byte.

Definition isSlash (c : byte) : bool := Byte.eqb c slash.

(** [len(b)] for a byte slice and for a string. *)
Definition len {A} (b : list A) : Z := Z.of_nat (length b).
Definition slen (s : string) : Z := Z.of_nat (String.length s).

(** [bytes.IndexByte(b, c)]: index of the first [c] in [b], or [-1]. *)
Fixpoint IndexByte (b : list byte) (c : byte) : Z :=
  match b with
  | [] => -1
  | x :: b' =>
      if Byte.eqb x c then 0
      else let n := IndexByte b' c in
           if n <? 0 then -1 else n + 1
  end.

(** [strings.LastIndexByte(s, c)]: index of the last [c] in [s], or [-1]. *)
Fixpoint LastIndexByte (s : string) (c : Ascii.ascii) : Z :=
  match s with
  | EmptyString => -1
  | String x s' =>
      let n := LastIndexByte s' c in
      if 0 <=? n then n + 1
      else if Ascii.eqb x c then 0 else -1
  end.

(** [s[n:]] on a string. *)
Fixpoint sdrop (n : nat) (s : string) : string :=
  match n, s with
  | O, _ => s
  | S n', String _ s' => sdrop n' s'
  | S _, EmptyString => EmptyString
  end.

(** ** Outcomes: a value, a panic, or recursion cut short *)

Inductive outcome (A : Type) : Type :=
| Returns (a : A)
| Panics (msg : string)
| OutOfFuel.
Arguments Returns {A} a.
Arguments Panics {A} msg.
Arguments OutOfFuel {A}.

Definition obind {A B} (x : outcome A) (k : A -> outcome B) : outcome B :=
  match x with
  | Returns a => k a
  | Panics msg => Panics msg
  | OutOfFuel => OutOfFuel
  end.

(** ** stripPathSlashes *)

(** The first loop. Each iteration consumes one unit of [stripSlashes], so
    the loop is structural in that counter. *)
Fixpoint stripLeadingSlashes (stripSlashes : nat) (path : list byte)
  : outcome (list byte) :=
  match stripSlashes with
  | O => Returns path
  | S stripSlashes' =>
      match path with
      | [] => Returns path
      | c :: rest =>
          if negb (isSlash c) then Panics "BUG: path must start with slash"
          else
            let n := IndexByte rest slash in
            if n <? 0 then Returns []
            else stripLeadingSlashes stripSlashes' (drop (Z.to_nat (n + 1)) path)
      end
  end.

(** The second loop. It removes one byte per iteration, so [length path]
    iterations always suffice; [k] counts them. *)
Fixpoint stripTrailingSlashes (k : nat) (path : list byte) : list byte :=
  match k with
  | O => path
  | S k' =>
      if (0 <? len path) && bool_decide (path !! (length path - 1)%nat = Some slash)
      then stripTrailingSlashes k' (take (length path - 1)%nat path)
      else path
  end.

Definition stripPathSlashes (path : list byte) (stripSlashes : Z)
  : outcome (list byte) :=
  obind (stripLeadingSlashes (Z.to_nat stripSlashes) path)
        (fun path => Returns (stripTrailingSlashes (length path) path)).

(** ** fileExtension *)

Definition fileExtension (path : string) : string :=
  let n := LastIndexByte path "."%char in
  if n <? 0 then "" else sdrop (Z.to_nat n) path.

(** [[]byte(s)], for literals. *)
Definition B (s : string) : list byte := String.list_byte_of_string s.

(** ** Integers *)

(** Conversion of an [int64] to a signed integer of [bits] bits (Go keeps
    the low bits), and [time.Duration] arithmetic, which saturates. *)
Definition wrapSigned (bits : Z) (n : Z) : Z :=
  (n + 2 ^ (bits - 1)) mod 2 ^ bits - 2 ^ (bits - 1).

Definition maxInt64 : Z := 2 ^ 63 - 1.
Definition minInt64 : Z := - 2 ^ 63.

Definition wrapInt64 (n : Z) : Z := wrapSigned 64 n.

Definition satInt64 (n : Z) : Z :=
  if maxInt64 <? n then maxInt64
  else if n <? minInt64 then minInt64 else n.

(** ** Time *)

(** A [time.Time] is the number of nanoseconds since January 1, year 1,
    00:00:00 UTC, which is the zero value of the type. [Sub] returns a
    [Duration] (an [int64] of nanoseconds) and saturates as package time
    documents. *)
Definition time_Time : Type := Z.
Definition time_Duration : Type := Z.

Definition zeroTime : time_Time := 0.
Definition Second : time_Duration := 1000000000.
Definition time_Sub (t u : time_Time) : time_Duration := satInt64 (t - u).

Definition FSHandlerCacheDuration : time_Duration := 10 * Second.

(** ** Errors *)

Inductive errno : Set :=
| ENOENT | EACCES | ENOTDIR | ENAMETOOLONG | EMFILE | EIO | EBADF | EINVAL.

Inductive error : Set :=
| PathError (e : errno)
| EOF
| errDirIndexRequired
| errTooBigFile (n : Z).

(** [os.IsNotExist] *)
Definition IsNotExist (err : error) : bool :=
  match err with
  | PathError ENOENT => true
  | _ => false
  end.

(** [err == errDirIndexRequired] *)
Definition isDirIndexRequired (err : error) : bool :=
  match err with
  | errDirIndexRequired => true
  | _ => false
  end.

(** ** What the handler takes from its surroundings *)

(** Modelled from the spec: the request URI (uri.go), the MIME lookup and
    the width of [int] are not part of fshandler.go. The URI gives the
    requested path and resolves a reference against itself ([Update]);
    the MIME collaborator maps an extension to a content type, possibly
    empty; [int] has 32 or 64 bits. *)
Class Platform : Type := {
  intBits : Z;
  intBits_spec : intBits = 32 \/ intBits = 64;
  TypeByExtension : string -> string;
  URI : Type;
  URI_Path : URI -> list byte;
  URI_Update : URI -> string -> URI
}.

Definition toInt `{Platform} (n : Z) : Z := wrapSigned intBits n.

(** ** The operating system *)

(** Package os as far as the handler uses it: [os.Open] and the methods
    [Stat], [Readdirnames], [ReadAt] and [Close] of [os.File]. *)

Record FileInfo : Type := { Size : Z; IsDir : bool }.

(** What is behind a path: the answer of [Stat], the answer of
    [Readdirnames(0)] and the bytes of the file. *)
Record inode : Type := {
  i_stat : error + FileInfo;
  i_names : error + list string;
  i_data : Z -> byte
}.

Record fsFileReader : Type := {
  r_f : option nat;
  r_dirIndex : list byte;
  r_offset : Z;
  r_v : option nat
}.

(** What the scheduler and the collector make of one call of [Get] on a
    [sync.Pool]: the pool hands out one of the objects it holds, whichever
    the calling goroutine finds first; or it finds none, although some are
    held elsewhere; or the collector has emptied it since the last call. *)
Inductive poolChoice : Set :=
| TakeAt (i : nat)
| Miss
| Drained.

(** [files] is the table of [os.File] objects ever opened, with a flag that
    tells whether the object is still open; a [*os.File] is an index into
    it. [closeLog] records every effective [Close]. [readers] is the heap
    of [fsFileReader] objects. [pool] holds the objects that are in
    [fsFileReaderPool], an object put twice being held twice, and
    [poolChoices] is what the coming calls of [Get] on it will meet, one
    choice for each call. Paths longer than [pathMax] are refused by the
    system. *)
Record World : Type := {
  pathMax : nat;
  fs : string -> error + inode;
  files : list (inode * bool);
  closeLog : list nat;
  readers : list fsFileReader;
  pool : list nat;
  poolChoices : list poolChoice
}.

Definition setFiles (fl : list (inode * bool)) (cl : list nat) (w : World) : World :=
  {| pathMax := pathMax w; fs := fs w; files := fl; closeLog := cl;
     readers := readers w; pool := pool w; poolChoices := poolChoices w |}.

Definition setReaders (rs : list fsFileReader) (w : World) : World :=
  {| pathMax := pathMax w; fs := fs w; files := files w; closeLog := closeLog w;
     readers := rs; pool := pool w; poolChoices := poolChoices w |}.

Definition setPool (p : list nat) (w : World) : World :=
  {| pathMax := pathMax w; fs := fs w; files := files w; closeLog := closeLog w;
     readers := readers w; pool := p; poolChoices := poolChoices w |}.

Definition setPoolChoices (cs : list poolChoice) (w : World) : World :=
  {| pathMax := pathMax w; fs := fs w; files := files w; closeLog := closeLog w;
     readers := readers w; pool := pool w; poolChoices := cs |}.

(** Computations that read and change the world. *)
Definition M (A : Type) : Type := World -> outcome (A * World).

#[global] Instance M_ret : MRet M := fun A a w => Returns (a, w).
#[global] Instance M_bind : MBind M := fun A B k m w =>
  match m w with
  | Returns (a, w') => k a w'
  | Panics msg => Panics msg
  | OutOfFuel => OutOfFuel
  end.

Definition panic {A} (msg : string) : M A := fun _ => Panics msg.
Definition lift {A} (x : outcome A) : M A := fun w =>
  match x with
  | Returns a => Returns (a, w)
  | Panics msg => Panics msg
  | OutOfFuel => OutOfFuel
  end.

(** [os.Open] *)
Definition os_Open (name : string) : M (error + nat) := fun w =>
  if (pathMax w <? String.length name)%nat
  then Returns (inl (PathError ENAMETOOLONG), w)
  else match fs w name with
       | inl err => Returns (inl err, w)
       | inr ino =>
           Returns (inr (length (files w)),
                    setFiles (files w ++ [(ino, true)]) (closeLog w) w)
       end.

(** [f.Stat()] *)
Definition File_Stat (f : nat) : M (error + FileInfo) := fun w =>
  match files w !! f with
  | Some (ino, true) => Returns (i_stat ino, w)
  | Some (_, false) => Returns (inl (PathError EBADF), w)
  | None => Returns (inl (PathError EINVAL), w)
  end.

(** [f.Readdirnames(0)] *)
Definition File_Readdirnames (f : nat) : M (error + list string) := fun w =>
  match files w !! f with
  | Some (ino, true) => Returns (i_names ino, w)
  | Some (_, false) => Returns (inl (PathError EBADF), w)
  | None => Returns (inl (PathError EINVAL), w)
  end.

(** [f.Close()]; every caller drops the error it returns. *)
Definition File_Close (f : nat) : M unit := fun w =>
  match files w !! f with
  | Some (ino, true) =>
      Returns (tt, setFiles (<[f := (ino, false)]> (files w)) (f :: closeLog w) w)
  | _ => Returns (tt, w)
  end.

(** [copy(dst, src)]: the new [dst] and the number of bytes copied. *)
Definition copy (dst src : list byte) : list byte * Z :=
  let n := Nat.min (length dst) (length src) in
  (take n src ++ drop n dst, Z.of_nat n).

(** The bytes of a file from offset [off], at most [n] of them. *)
Definition fileBytes (ino : inode) (size off : Z) (n : nat) : list byte :=
  (fun i : nat => i_data ino (off + Z.of_nat i))
    <$> seq 0 (Nat.min n (Z.to_nat (size - off))).

(** [f.ReadAt(p, off)]: the new [p], the count and the error. A negative
    offset is refused. The system is then asked for bytes as long as the
    buffer has room, [for len(b) > 0], so that nothing is asked and nothing
    goes wrong when [p] is empty, whatever the state of [f]. A short read
    comes with an error, [io.EOF] at the end of the file. *)
Definition File_ReadAt (f : nat) (p : list byte) (off : Z)
  : M (list byte * Z * option error) := fun w =>
  if off <? 0 then Returns ((p, 0, Some (PathError EINVAL)), w)
  else
    match p with
    | [] => Returns ((p, 0, None), w)
    | _ :: _ =>
        match files w !! f with
        | Some (ino, true) =>
            match i_stat ino with
            | inr st =>
                if IsDir st then Returns ((p, 0, Some (PathError EINVAL)), w)
                else
                  let '(p', n) := copy p (fileBytes ino (Size st) off (length p)) in
                  Returns ((p', n, if n <? len p then Some EOF else None), w)
            | inl err => Returns ((p, 0, Some err), w)
            end
        | Some (_, false) => Returns ((p, 0, Some (PathError EBADF)), w)
        | None => Returns ((p, 0, Some (PathError EINVAL)), w)
        end
    end.

(** ** fsFile and the pooled readers *)

Record fsFile : Type := {
  ff_f : option nat;
  ff_dirIndex : list byte;
  ff_contentType : string;
  ff_contentLength : Z;
  ff_t : time_Time
}.

(** [fsFileReaderPool.Get()] and [fsFileReaderPool.Put(v)]. [Get] takes
    any one of the objects held and removes it, or returns nil: a
    [sync.Pool] promises no order, may find nothing while objects are held,
    and is emptied by the collector. Which of these happens is the next of
    the world's [poolChoices]; a position outside the pool is a miss, and
    an object that the pool has dropped is one that no choice takes. When
    no choice is left, the goroutine is alone and undisturbed, and gets the
    object put last. [Put(nil)] does nothing. *)
Definition Pool_Get : M (option nat) := fun w =>
  match poolChoices w with
  | [] =>
      match pool w with
      | [] => Returns (None, w)
      | v :: rest => Returns (Some v, setPool rest w)
      end
  | c :: cs =>
      let w := setPoolChoices cs w in
      match c with
      | TakeAt i =>
          match pool w !! i with
          | Some v => Returns (Some v, setPool (delete i (pool w)) w)
          | None => Returns (None, w)
          end
      | Miss => Returns (None, w)
      | Drained => Returns (None, setPool [] w)
      end
  end.

Definition Pool_Put (v : option nat) : M unit := fun w =>
  match v with
  | None => Returns (tt, w)
  | Some x => Returns (tt, setPool (x :: pool w) w)
  end.

(** Reading and writing through a [*fsFileReader]. *)
Definition getReader (r : nat) : M fsFileReader := fun w =>
  match readers w !! r with
  | Some rd => Returns (rd, w)
  | None => Panics "invalid memory address or nil pointer dereference"
  end.

Definition putReader (r : nat) (rd : fsFileReader) : M unit := fun w =>
  Returns (tt, setReaders (<[r := rd]> (readers w)) w).

Definition newReader (mk : nat -> fsFileReader) : M nat := fun w =>
  let r := length (readers w) in
  Returns (r, setReaders (readers w ++ [mk r]) w).

Definition Reader (ff : fsFile) : M nat :=
  v ← Pool_Get;
  match v with
  | None =>
      newReader (fun r => {| r_f := ff_f ff; r_dirIndex := ff_dirIndex ff;
                             r_offset := 0; r_v := Some r |})
  | Some r =>
      rd ← getReader r;
      putReader r {| r_f := ff_f ff; r_dirIndex := ff_dirIndex ff;
                     r_offset := r_offset rd; r_v := r_v rd |};;
      if 0 <? r_offset rd
      then panic "BUG: fsFileReader with non-nil offset found in the pool"
      else mret r
  end.

Definition Close (r : nat) : M (option error) :=
  rd ← getReader r;
  putReader r {| r_f := None; r_dirIndex := []; r_offset := 0; r_v := r_v rd |};;
  Pool_Put (r_v rd);;
  mret None.

(** [Read] returns the buffer as it is after the call, the count and the
    error. *)
Definition Read (r : nat) (p : list byte) : M (list byte * Z * option error) :=
  rd ← getReader r;
  match r_f rd with
  | Some f =>
      '(p', n, err) ← File_ReadAt f p (r_offset rd);
      putReader r {| r_f := r_f rd; r_dirIndex := r_dirIndex rd;
                     r_offset := wrapInt64 (r_offset rd + n); r_v := r_v rd |};;
      mret (p', n, err)
  | None =>
      if r_offset rd =? len (r_dirIndex rd) then mret (p, 0, Some EOF)
      else if (r_offset rd <? 0) || (len (r_dirIndex rd) <? r_offset rd)
      then panic "slice bounds out of range"
      else
        let '(p', n) := copy p (drop (Z.to_nat (r_offset rd)) (r_dirIndex rd)) in
        putReader r {| r_f := r_f rd; r_dirIndex := r_dirIndex rd;
                       r_offset := wrapInt64 (r_offset rd + n); r_v := r_v rd |};;
        mret (p', n, None)
  end.

(** ** html.EscapeString *)

Definition dquote : Ascii.ascii := "034"%char.

Definition escapeChar (c : Ascii.ascii) : string :=
  if Ascii.eqb c "&"%char then "&amp;"
  else if Ascii.eqb c "'"%char then "&#39;"
  else if Ascii.eqb c "<"%char then "&lt;"
  else if Ascii.eqb c ">"%char then "&gt;"
  else if Ascii.eqb c dquote then "&#34;"
  else String c "".

Fixpoint EscapeString (s : string) : string :=
  match s with
  | EmptyString => ""
  | String c s' => escapeChar c +:+ EscapeString s'
  end.

(** ** createDirIndex *)

Definition Q : string := String dquote "".

Definition htmlHead (basePathEscaped : string) : string :=
  "<html><head><title>" +:+ basePathEscaped +:+ "</title></head><body>"
  +:+ "<h1>" +:+ basePathEscaped +:+ "</h1>"
  +:+ "<ul>".

Definition parentLink : string :=
  "<li><a href=" +:+ Q +:+ ".." +:+ Q +:+ ">..</a></li>".

Definition listItem (pathEscaped nameEscaped : string) : string :=
  "<li><a href=" +:+ Q +:+ pathEscaped +:+ Q +:+ ">" +:+ nameEscaped +:+ "</a></li>".

Definition htmlFoot : string := "</ul></body></html>".

(** [sort.Sort(sort.StringSlice(filenames))]: the names in increasing
    order of Go's [<] on strings, which compares byte by byte. *)
Definition sortStrings (filenames : list string) : list string :=
  merge_sort String.le filenames.

Section WithPlatform.
Context `{Platform}.

(** The loop over the sorted names: [u] is updated in place by every
    iteration, and each item is appended to the buffer. *)
Fixpoint writeItems (u : URI) (buf : string) (filenames : list string) : string :=
  match filenames with
  | [] => buf
  | name :: rest =>
      let u := URI_Update u name in
      let pathEscaped := EscapeString (String.string_of_list_byte (URI_Path u)) in
      writeItems u (buf +:+ listItem pathEscaped (EscapeString name)) rest
  end.

Definition createDirIndex (base : URI) (filePath : string) : M (error + fsFile) :=
  let basePathEscaped := EscapeString (String.string_of_list_byte (URI_Path base)) in
  let buf := htmlHead basePathEscaped in
  let buf := if 1 <? slen basePathEscaped then buf +:+ parentLink else buf in
  r ← os_Open filePath;
  match r with
  | inl err => mret (inl err)
  | inr f =>
      r ← File_Readdirnames f;
      File_Close f;;
      match r with
      | inl err => mret (inl err)
      | inr filenames =>
          let u := base in
          let filenames := sortStrings filenames in
          let buf := writeItems u buf filenames in
          let buf := buf +:+ htmlFoot in
          let dirIndex := String.list_byte_of_string buf in
          mret (inr {| ff_f := None;
                       ff_dirIndex := dirIndex;
                       ff_contentType := "text/html";
                       ff_contentLength := len dirIndex;
                       ff_t := zeroTime |})
      end
  end.

(** ** openFSFile *)

Fixpoint openFSFile_rec (fuel : nat) (filePath : string) : M (error + fsFile) :=
  match fuel with
  | O => fun _ => OutOfFuel
  | S fuel' =>
      r ← os_Open filePath;
      match r with
      | inl err => mret (inl err)
      | inr f =>
          st ← File_Stat f;
          match st with
          | inl err => File_Close f;; mret (inl err)
          | inr stat =>
              if IsDir stat then
                File_Close f;;
                let indexPath := filePath +:+ "/index.html" in
                r ← openFSFile_rec fuel' indexPath;
                match r with
                | inr ff => mret (inr ff)
                | inl err =>
                    if negb (IsNotExist err) then mret (inl err)
                    else mret (inl errDirIndexRequired)
                end
              else
                let n := Size stat in
                let contentLength := toInt n in
                if negb (n =? contentLength)
                then File_Close f;; mret (inl (errTooBigFile n))
                else
                  let ext := fileExtension filePath in
                  let contentType := TypeByExtension ext in
                  mret (inr {| ff_f := Some f;
                               ff_dirIndex := [];
                               ff_contentType := contentType;
                               ff_contentLength := contentLength;
                               ff_t := zeroTime |})
          end
      end
  end.

(** Every nested call opens a path eleven bytes longer than the one before,
    and the system refuses paths longer than [pathMax]: [pathMax + 2] levels
    are more than the recursion can use (see [openFSFile_returns]). *)
Definition openFSFile (filePath : string) : M (error + fsFile) := fun w =>
  openFSFile_rec (pathMax w + 2) filePath w.

(** ** The handler *)

Record fsHandler : Type := {
  root : string;
  stripSlashes : Z;
  cache : gmap string fsFile
}.

Definition setCache (c : gmap string fsFile) (h : fsHandler) : fsHandler :=
  {| root := root h; stripSlashes := stripSlashes h; cache := c |}.

(** The body of the loop of [cleanCache], for the entry [(k, v)]. *)
Definition cleanEntry (t : time_Time) (st : gmap string fsFile * World)
    (kv : string * fsFile) : gmap string fsFile * World :=
  let '(c, w) := st in
  let '(k, v) := kv in
  if FSHandlerCacheDuration <? time_Sub t (ff_t v) then
    let w :=
      match ff_f v with
      | Some f => match File_Close f w with
                  | Returns (_, w') => w'
                  | _ => w
                  end
      | None => w
      end in
    (delete k c, w)
  else (c, w).

(** [cleanCache]; [t] is what [time.Now()] returns. The loop visits every
    entry of the map once, in the order of [map_to_list]. *)
Definition cleanCache (t : time_Time) (h : fsHandler) : M fsHandler := fun w =>
  let '(c, w') := foldl (cleanEntry t) (cache h, w) (map_to_list (cache h)) in
  Returns (setCache c h, w').

(** Modelled from the spec: the request context (RequestCtx, not part of
    fshandler.go) exposes the raw request path and the request URI, and
    takes a body stream with its length, a content type, an error with a
    status code, and log messages. What a request does to its context is
    recorded as the list of these calls, in order. *)
Record RequestCtx : Type := {
  ctx_Path : list byte;
  ctx_URI : URI
}.

Inductive logMessage : Type :=
| LogNilByte (n : Z) (path : list byte)
| LogCannotCreateIndex (filePath : string) (err : error)
| LogCannotOpen (filePath : string) (err : error).

Inductive ctxCall : Type :=
| Printf (m : logMessage)
| Error (msg : string) (statusCode : Z)
| SetBodyStream (r : nat) (bodySize : Z)
| SetContentType (contentType : string).

Definition StatusBadRequest : Z := 400.
Definition StatusNotFound : Z := 404.

(** The last two statements of [handleRequest]. *)
Definition serve (ff : fsFile) : M (list ctxCall) :=
  r ← Reader ff;
  mret [SetBodyStream r (ff_contentLength ff); SetContentType (ff_contentType ff)].

(** The end of [handleRequest] after a miss: the descriptor is stored under
    the key and served. *)
Definition insertAndServe (h : fsHandler) (key : string) (ff : fsFile)
  : M (fsHandler * list ctxCall) :=
  let h := setCache (<[key := ff]> (cache h)) h in
  calls ← serve ff; mret (h, calls).

Definition handleRequest (h : fsHandler) (ctx : RequestCtx)
  : M (fsHandler * list ctxCall) :=
  path ← lift (stripPathSlashes (ctx_Path ctx) (stripSlashes h));
  let n := IndexByte path NUL in
  if 0 <=? n then
    mret (h, [Printf (LogNilByte n path); Error "Are you a hacker?" StatusBadRequest])
  else
    let key := String.string_of_list_byte path in
    match cache h !! key with
    | Some ff => calls ← serve ff; mret (h, calls)
    | None =>
        let filePath := root h +:+ key in
        r ← openFSFile filePath;
        match r with
        | inl err =>
            if isDirIndexRequired err then
              r ← createDirIndex (ctx_URI ctx) filePath;
              match r with
              | inl err =>
                  mret (h, [Printf (LogCannotCreateIndex filePath err);
                            Error "Cannot create directory index" StatusNotFound])
              | inr ff => insertAndServe h key ff
              end
            else
              mret (h, [Printf (LogCannotOpen filePath err);
                        Error "Cannot open requested path" StatusNotFound])
        | inr ff => insertAndServe h key ff
        end
    end.

(** [FSHandler]: the handler value behind the returned closure. The
    goroutine it starts calls [cleanCache] every [FSHandlerCacheDuration / 2]. *)
Fixpoint trimRoot (k : nat) (root : string) : string :=
  match k with
  | O => root
  | S k' =>
      if (0 <? slen root)
         && bool_decide (String.get (String.length root - 1) root = Some "/"%char)
      then trimRoot k' (String.substring 0 (String.length root - 1) root)
      else root
  end.

Definition FSHandler (root : string) (stripSlashes : Z) : fsHandler :=
  let root := trimRoot (String.length root) root in
  let root := if slen root =? 0 then "." else root in
  let stripSlashes := if stripSlashes <? 0 then 0 else stripSlashes in
  {| root := root; stripSlashes := stripSlashes; cache := ∅ |}.

Definition sweepPeriod : time_Duration := FSHandlerCacheDuration / 2.

End WithPlatform.

(** ** Slash-delimited segments (the vocabulary of the specification) *)

(** [splitSlash p] cuts [p] at every ['/']: the bytes before the first
    slash, and then the segment that follows each slash. *)
Fixpoint splitSlash (p : list byte) : list byte * list (list byte) :=
  match p with
  | [] => ([], [])
  | c :: rest =>
      let '(pre, segs) := splitSlash rest in
      if isSlash c then ([], pre :: segs) else (c :: pre, segs)
  end.

Definition segments (p : list byte) : list (list byte) := (splitSlash p).2.

(** The path made of the given segments, each with its leading slash. *)
Definition joinSegments (segs : list (list byte)) : list byte :=
  concat ((fun seg => slash :: seg) <$> segs).

(** [c] occurs in [s]. *)
Fixpoint occurs (c : Ascii.ascii) (s : string) : Prop :=
  match s with
  | EmptyString => False
  | String x s' => x = c \/ occurs c s'
  end.

(** The world after [os.Open] has returned a new handle on [ino], and the
    world after that handle has been closed again. *)
Definition opened (ino : inode) (w : World) : World :=
  setFiles (files w ++ [(ino, true)]) (closeLog w) w.

Definition openedClosed (ino : inode) (w : World) : World :=
  setFiles (files w ++ [(ino, false)]) (length (files w) :: closeLog w) w.

(** An [int64] that [int] can hold. *)
Definition fitsInt `{Platform} (n : Z) : Prop :=
  - 2 ^ (intBits - 1) <= n < 2 ^ (intBits - 1).

(** What [openFSFile] makes of the result for [path/index.html]. *)
Definition indexResult (r : error + fsFile) : error + fsFile :=
  match r with
  | inr ff => inr ff
  | inl err => if IsNotExist err then inl errDirIndexRequired else inl err
  end.

(** [w'] is [w] after some files were opened and some of those closed:
    objects that exist in [w] are as they were. *)
Definition extends (w w' : World) : Prop :=
  pathMax w' = pathMax w
  /\ fs w' = fs w
  /\ (exists l, files w' = files w ++ l)
  /\ (exists cl, closeLog w' = cl ++ closeLog w)
  /\ readers w' = readers w
  /\ pool w' = pool w
  /\ poolChoices w' = poolChoices w.

(** The runs of [openFSFile] as a relation: one rule for each way through
    the function. *)
Inductive resolves `{Platform} : string -> World -> error + fsFile -> World -> Prop :=
| resolves_open_error p w err :
    os_Open p w = Returns (inl err, w) ->
    resolves p w (inl err) w
| resolves_stat_error p w ino err :
    (String.length p <= pathMax w)%nat ->
    fs w p = inr ino ->
    i_stat ino = inl err ->
    resolves p w (inl err) (openedClosed ino w)
| resolves_directory p w ino st r w' :
    (String.length p <= pathMax w)%nat ->
    fs w p = inr ino ->
    i_stat ino = inr st ->
    IsDir st = true ->
    resolves (p +:+ "/index.html") (openedClosed ino w) r w' ->
    resolves p w (indexResult r) w'
| resolves_regular p w ino st :
    (String.length p <= pathMax w)%nat ->
    fs w p = inr ino ->
    i_stat ino = inr st ->
    IsDir st = false ->
    toInt (Size st) = Size st ->
    resolves p w
      (inr {| ff_f := Some (length (files w));
              ff_dirIndex := [];
              ff_contentType := TypeByExtension (fileExtension p);
              ff_contentLength := Size st;
              ff_t := zeroTime |})
      (opened ino w)
| resolves_too_big p w ino st :
    (String.length p <= pathMax w)%nat ->
    fs w p = inr ino ->
    i_stat ino = inr st ->
    IsDir st = false ->
    toInt (Size st) <> Size st ->
    resolves p w (inl (errTooBigFile (Size st))) (openedClosed ino w).

(** ** The listing, as the specification describes it *)

Fixpoint sconcat (l : list string) : string :=
  match l with
  | [] => ""
  | x :: l' => x +:+ sconcat l'
  end.

(** The paths that the links of a listing point to: each name is resolved
    against the URI the name before it has left. *)
Fixpoint hrefs `{Platform} (u : URI) (names : list string) : list (list byte) :=
  match names with
  | [] => []
  | name :: rest => URI_Path (URI_Update u name) :: hrefs (URI_Update u name) rest
  end.

Definition listItems `{Platform} (base : URI) (names : list string) : list string :=
  zip_with (fun href name =>
              listItem (EscapeString (String.string_of_list_byte href))
                       (EscapeString name))
           (hrefs base names) names.

(** The characters that end text or an attribute value in HTML. *)
Definition htmlSpecial (c : Ascii.ascii) : Prop :=
  c = "<"%char \/ c = ">"%char \/ c = "034"%char \/ c = "'"%char.

(** What it is to escape HTML: the ampersand, the apostrophe, the two angle
    brackets and the double quote are replaced by their entities, one
    character after the other, and every other character stays. *)
Definition escapesHTML (esc : string -> string) : Prop :=
  (forall s t, esc (s +:+ t) = esc s +:+ esc t)
  /\ esc "&" = "&amp;"
  /\ esc "'" = "&#39;"
  /\ esc "<" = "&lt;"
  /\ esc ">" = "&gt;"
  /\ esc (String "034"%char "") = "&#34;"
  /\ (forall c, c <> "&"%char -> c <> "'"%char -> c <> "<"%char -> c <> ">"%char ->
                c <> "034"%char -> esc (String c "") = String c "").

(** ** Vocabulary for the cache *)

(** The test of [cleanCache] on an entry, at time [t]. *)
Definition expired (t : time_Time) (v : fsFile) : bool :=
  FSHandlerCacheDuration <? time_Sub t (ff_t v).

(** Exactly one of the handle and the generated content is populated. *)
Definition exactlyOne (ff : fsFile) : Prop :=
  (is_Some (ff_f ff) /\ ff_dirIndex ff = [])
  \/ (ff_f ff = None /\ ff_dirIndex ff <> []).

(** ** Consumers of a reader *)

Definition setOffset (rd : fsFileReader) (offset : Z) : fsFileReader :=
  {| r_f := r_f rd; r_dirIndex := r_dirIndex rd; r_offset := offset; r_v := r_v rd |}.

(** A consumer that calls [Read] with the given buffers, one call per
    buffer, until a call returns an error; it collects the bytes that the
    calls deliver. *)
Fixpoint readAll (r : nat) (bufs : list (list byte)) : M (list byte * option error) :=
  match bufs with
  | [] => mret ([], None)
  | p :: bufs' =>
      '(p', n, err) ← Read r p;
      match err with
      | Some e => mret (take (Z.to_nat n) p', Some e)
      | None =>
          '(out, e) ← readAll r bufs';
          mret (take (Z.to_nat n) p' ++ out, e)
      end
  end.

(** ** A small installation, for examples *)

Module Demo.

(** A URI that is only its path; a reference replaces what follows the
    last slash of the path. *)
Definition update (u : list byte) (name : string) : list byte :=
  let n := LastIndexByte (String.string_of_list_byte u) "/"%char in
  take (Z.to_nat (n + 1)) u ++ String.list_byte_of_string name.

Definition mimeTypes (ext : string) : string :=
  if String.eqb ext ".html" then "text/html; charset=utf-8"
  else if String.eqb ext ".txt" then "text/plain; charset=utf-8"
  else "".

Definition P64 : Platform :=
  {| intBits := 64; intBits_spec := or_intror eq_refl;
     TypeByExtension := mimeTypes;
     URI := list byte; URI_Path := fun u => u; URI_Update := update |}.

Definition P32 : Platform :=
  {| intBits := 32; intBits_spec := or_introl eq_refl;
     TypeByExtension := mimeTypes;
     URI := list byte; URI_Path := fun u => u; URI_Update := update |}.

Definition file (size : Z) (data : list byte) : inode :=
  {| i_stat := inr {| Size := size; IsDir := false |};
     i_names := inl (PathError ENOTDIR);
     i_data := fun i => default "000"%byte (data !! Z.to_nat i) |}.

Definition dir (names : list string) : inode :=
  {| i_stat := inr {| Size := 4096; IsDir := true |};
     i_names := inr names;
     i_data := fun _ => "000"%byte |}.

Definition tree (p : string) : error + inode :=
  if String.eqb p "/srv" then inr (dir ["docs"; "b.txt"; "a.txt"; "index.htm"; "big.iso"])
  else if String.eqb p "/srv/a.txt" then inr (file 5 (B "hello"))
  else if String.eqb p "/srv/b.txt" then inr (file 0 [])
  else if String.eqb p "/srv/big.iso" then inr (file (2 ^ 32 + 5) [])
  else if String.eqb p "/srv/docs" then inr (dir ["index.html"])
  else if String.eqb p "/srv/docs/index.html" then inr (file 7 (B "<p></p>"))
  else if String.eqb p "/srv/a.b" then inr (dir ["c"])
  else if String.eqb p "/srv/a.b/c" then inr (file 1 (B "c"))
  else inl (PathError ENOENT).

Definition world : World :=
  {| pathMax := 4096; fs := tree; files := []; closeLog := [];
     readers := []; pool := []; poolChoices := [] |}.

(** The world with one reader in it: a cursor on the generated content
    [content], at the given offset. *)
Definition cursorOn (content : string) (offset : Z) : World :=
  setReaders [ {| r_f := None; r_dirIndex := B content;
                  r_offset := offset; r_v := Some 0%nat |} ] world.

Definition listing (content : string) : fsFile :=
  {| ff_f := None; ff_dirIndex := B content; ff_contentType := "text/html";
     ff_contentLength := len (B content); ff_t := zeroTime |}.

Definition request (path : string) : @RequestCtx P64 :=
  @Build_RequestCtx P64 (B path) (B path).

(** A raw path with a NUL byte in its first segment: ['/'], NUL, and then
    ["/a.txt"]. *)
Definition nilInFirstSegment : list byte := slash :: NUL :: B "/a.txt".

(** A raw path with a NUL byte in its last segment. *)
Definition nilInLastSegment : list byte := B "/a.txt" ++ [NUL].

(** 2015-10-01 00:00:00 UTC, in nanoseconds since year 1. *)
Definition someday : time_Time := 63579254400 * Second.

(** Two cursors on the same generated content. *)
Definition twoCursors : World :=
  setReaders [ {| r_f := None; r_dirIndex := B "hello";
                  r_offset := 0; r_v := Some 0%nat |};
               {| r_f := None; r_dirIndex := B "hello";
                  r_offset := 0; r_v := Some 1%nat |} ] world.

(** A handler that has [/srv/a.txt] in its cache, and the world in which
    the file is open and a cursor is bound to it, two bytes read. *)
Definition cachedFile : fsFile :=
  {| ff_f := Some 0%nat; ff_dirIndex := []; ff_contentType := "text/plain";
     ff_contentLength := 5; ff_t := zeroTime |}.

Definition handlerWithFile : fsHandler :=
  {| root := "/srv"; stripSlashes := 0; cache := {[ "/a.txt" := cachedFile ]} |}.

Definition cursorOnFile : fsFileReader :=
  {| r_f := Some 0%nat; r_dirIndex := []; r_offset := 2; r_v := Some 0%nat |}.

Definition worldWithFile : World :=
  setReaders [cursorOnFile] (opened (file 5 (B "hello")) world).

End Demo.

(** ** Vocabulary for the further properties *)

(** The string of [j] slashes. *)
Fixpoint slashes (j : nat) : string :=
  match j with
  | O => ""
  | S j' => String "/"%char (slashes j')
  end.

(** The file [f] is open in [w]. *)
Definition isOpen (w : World) (f : nat) : bool :=
  match files w !! f with
  | Some (_, true) => true
  | _ => false
  end.

(** A sweep at time [t] over the entries [l] closes the file [f]: one of
    the entries is expired and holds [f]. *)
Definition sweeps (t : time_Time) (l : list (string * fsFile)) (f : nat) : bool :=
  existsb (fun kv => expired t kv.2 && bool_decide (ff_f kv.2 = Some f)) l.

(** An entry of the table of files, closed when [b] says so. *)
Definition closeIf (b : bool) (x : inode * bool) : inode * bool :=
  (x.1, x.2 && negb b).

(** The next cursor that the pool hands out, if any, exists and does not
    have a positive offset: [Reader] will not panic. *)
Definition poolReady (w : World) : Prop :=
  forall r w', Pool_Get w = Returns (Some r, w') ->
    exists rd, readers w !! r = Some rd /\ r_offset rd <= 0.

(** The calls of a request that has been served. *)
Definition served (calls : list ctxCall) : Prop :=
  exists r n ct, calls = [SetBodyStream r n; SetContentType ct].

(** Every reader holds a pointer to itself in [v], as [Reader] sets it. *)
Definition selfRef (w : World) : Prop :=
  forall r rd, readers w !! r = Some rd -> r_v rd = Some r.

(** No reader has a negative offset. *)
Definition offsetsOk (w : World) : Prop :=
  forall r rd, readers w !! r = Some rd -> 0 <= r_offset rd.

(** Two worlds that a cursor cannot tell apart: the cursor is the same in
    both, and so are the files. *)
Definition agree (r : nat) (w1 w2 : World) : Prop :=
  readers w1 !! r = readers w2 !! r /\ files w1 = files w2.

(** Two runs with the same result, whatever the worlds they end in. *)
Definition sameResult {A} (x y : outcome (A * World)) : Prop :=
  match x, y with
  | Returns (a, _), Returns (b, _) => a = b
  | Panics m, Panics m' => m = m'
  | OutOfFuel, OutOfFuel => True
  | _, _ => False
  end.

(** The sizes that [Stat] reports are sizes: not negative, and within
    [int64]. *)
Definition sizesOk (w : World) : Prop :=
  forall p ino st, fs w p = inr ino -> i_stat ino = inr st ->
                   0 <= Size st <= maxInt64.

(** The handles of the cache are open, and no two entries share one. *)
Definition cacheOk (h : fsHandler) (w : World) : Prop :=
  (forall k v f, cache h !! k = Some v -> ff_f v = Some f -> isOpen w f = true)
  /\ (forall k1 k2 v1 v2 f,
        cache h !! k1 = Some v1 -> cache h !! k2 = Some v2 ->
        ff_f v1 = Some f -> ff_f v2 = Some f -> k1 = k2).

(** [s] ends with the character [c]. *)
Definition endsWith (c : Ascii.ascii) (s : string) : Prop :=
  exists s', s = s' +:+ String c "".

(** * Properties *)

(** ** Path normalisation *)

Lemma isSlash_true c : isSlash c = true <-> c = slash.
Proof.
  unfold isSlash; split; intros Hc.
  - by apply Byte.byte_dec_bl.
  - by apply Byte.byte_dec_lb.
Qed.

Lemma isSlash_false c : isSlash c = false <-> c <> slash.
Proof.
  rewrite <- isSlash_true. destruct (isSlash c); naive_solver.
Qed.

Lemma byte_eqb_refl c : Byte.eqb c c = true.
Proof. by apply Byte.byte_dec_lb. Qed.

Lemma byte_eqb_neq c d : c <> d -> Byte.eqb c d = false.
Proof.
  intros Hne. destruct (Byte.eqb c d) eqn:E; [|done].
  by apply Byte.byte_dec_bl in E.
Qed.

Lemma IndexByte_absent b c : (c ∉ b) -> IndexByte b c = -1.
Proof.
  induction b as [|x b IH]; [done|]. intros Hnin.
  apply not_elem_of_cons in Hnin as [Hne Hnin]. simpl.
  rewrite byte_eqb_neq by done. rewrite (IH Hnin). done.
Qed.

Lemma IndexByte_first pre c post :
  (c ∉ pre) -> IndexByte (pre ++ c :: post) c = len pre.
Proof.
  unfold len. induction pre as [|x pre IH]; intros Hnin; simpl.
  - by rewrite byte_eqb_refl.
  - apply not_elem_of_cons in Hnin as [Hne Hnin].
    rewrite byte_eqb_neq by done. rewrite (IH Hnin).
    destruct (Z.ltb_spec (Z.of_nat (length pre)) 0); lia.
Qed.

Lemma IndexByte_range b c : IndexByte b c = -1 \/ 0 <= IndexByte b c < len b.
Proof.
  unfold len. induction b as [|x b IH]; simpl; [by left|].
  destruct (Byte.eqb x c); [right; lia|].
  destruct (Z.ltb_spec (IndexByte b c) 0); [by left|right; lia].
Qed.

Lemma IndexByte_present b c : (c ∈ b) -> 0 <= IndexByte b c.
Proof.
  intros Hin. apply list_elem_of_split_l in Hin as (pre & post & -> & Hnin).
  rewrite IndexByte_first by done. unfold len; lia.
Qed.

Lemma joinSegments_cons seg segs :
  joinSegments (seg :: segs) = slash :: seg ++ joinSegments segs.
Proof. done. Qed.

Lemma splitSlash_spec p :
  p = (splitSlash p).1 ++ joinSegments (splitSlash p).2
  /\ (slash ∉ (splitSlash p).1)
  /\ Forall (fun seg => slash ∉ seg) (splitSlash p).2.
Proof.
  induction p as [|c p (IH1 & IH2 & IH3)]; simpl.
  - repeat split; [apply not_elem_of_nil|constructor].
  - destruct (splitSlash p) as [pre segs]; simpl in *.
    destruct (isSlash c) eqn:Ec; simpl.
    + apply isSlash_true in Ec as ->.
      rewrite joinSegments_cons, <- IH1.
      repeat split; [apply not_elem_of_nil|by constructor].
    + apply isSlash_false in Ec.
      repeat split; [by f_equal| |done].
      apply not_elem_of_cons; split; [done..|]. done.
Qed.

Lemma segments_join rest :
  joinSegments (segments (slash :: rest)) = slash :: rest
  /\ Forall (fun seg => slash ∉ seg) (segments (slash :: rest)).
Proof.
  destruct (splitSlash_spec (slash :: rest)) as (H1 & _ & H3).
  split; [|done]. unfold segments.
  simpl in *. destruct (splitSlash rest) as [pre segs]; simpl in *.
  done.
Qed.

Lemma stripLeadingSlashes_join k segs :
  Forall (fun seg => slash ∉ seg) segs ->
  stripLeadingSlashes k (joinSegments segs) = Returns (joinSegments (drop k segs)).
Proof.
  revert segs. induction k as [|k IH]; intros segs Hsegs; [done|].
  destruct segs as [|seg rest]; [done|].
  apply Forall_cons in Hsegs as [Hseg Hrest].
  rewrite joinSegments_cons. simpl.
  destruct rest as [|seg2 rest2].
  - unfold joinSegments at 1. simpl. rewrite app_nil_r.
    rewrite IndexByte_absent by done. simpl. by rewrite drop_nil.
  - rewrite joinSegments_cons.
    rewrite IndexByte_first by done.
    destruct (Z.ltb_spec (len seg) 0) as [Hneg|_]; [unfold len in Hneg; lia|].
    replace (Z.to_nat (len seg + 1)) with (S (length seg)) by (unfold len; lia).
    simpl. rewrite drop_app_length.
    rewrite <- joinSegments_cons. by apply IH.
Qed.

Lemma stripTrailingSlashes_spec k path :
  (length path <= k)%nat ->
  exists j, path = stripTrailingSlashes k path ++ replicate j slash
            /\ last (stripTrailingSlashes k path) <> Some slash.
Proof.
  revert path. induction k as [|k IH]; intros path Hk.
  - destruct path; [|simpl in Hk; lia]. exists 0%nat. by split.
  - simpl. unfold len.
    destruct (Z.ltb_spec 0 (Z.of_nat (length path))) as [Hpos|Hzero]; simpl.
    + case_bool_decide as Hlast.
      * assert (path = take (length path - 1) path ++ [slash]) as Hsplit.
        { rewrite <- (take_drop (length path - 1) path) at 1. f_equal.
          apply list_eq. intros i. rewrite lookup_drop.
          destruct i as [|i]; simpl.
          - by rewrite Nat.add_0_r.
          - rewrite lookup_ge_None_2; [done|]. lia. }
        destruct (IH (take (length path - 1) path)) as (j & Hj1 & Hj2).
        { rewrite length_take. lia. }
        exists (S j). split; [|done].
        rewrite Hsplit at 1. rewrite Hj1 at 1.
        rewrite <- app_assoc. f_equal.
        change [slash] with (replicate 1 slash).
        rewrite <- replicate_add. f_equal. lia.
      * exists 0%nat. simpl. rewrite app_nil_r. split; [done|].
        rewrite last_lookup. by replace (pred (length path)) with (length path - 1)%nat by lia.
    + exists 0%nat. simpl. rewrite app_nil_r. split; [done|].
      destruct path; [done|simpl in Hzero; lia].
Qed.

Example stripPathSlashes_doc_0 :
  stripPathSlashes (B "/foo/bar") 0 = Returns (B "/foo/bar").
Proof. reflexivity. Qed.

Example stripPathSlashes_doc_2 :
  stripPathSlashes (B "/foo/bar") 2 = Returns (B "").
Proof. reflexivity. Qed.

Example stripPathSlashes_trailing :
  stripPathSlashes (B "/foo/bar///") 1 = Returns (B "/bar").
Proof. reflexivity. Qed.

Example stripPathSlashes_panics :
  stripPathSlashes (B "foo/bar") 1 = Panics "BUG: path must start with slash".
Proof. reflexivity. Qed.

(** C2, as the code has it: for every strip count [s >= 0] and every path
    [p] that starts with ['/'], [stripPathSlashes] does not panic and
    returns [p] without its first [s] segments (a segment is a ['/'] and
    the bytes up to the next ['/'], so what remains keeps its leading
    ['/']) and without its trailing slashes. The result never ends with
    ['/'], it is empty or starts with ['/'], and it is empty when [p] has
    no more than [s] segments. *)
Theorem stripPathSlashes_segments (rest : list byte) (s : Z) :
  0 <= s ->
  let p := slash :: rest in
  exists r j,
    stripPathSlashes p s = Returns r
    /\ joinSegments (segments p) = p
    /\ Forall (fun seg => slash ∉ seg) (segments p)
    /\ joinSegments (drop (Z.to_nat s) (segments p)) = r ++ replicate j slash
    /\ last r <> Some slash
    /\ (r = [] \/ head r = Some slash)
    /\ ((length (segments p) <= Z.to_nat s)%nat -> r = []).
Proof.
  intros Hs p.
  destruct (segments_join rest) as [Hjoin Hfree]. fold p in Hjoin, Hfree.
  set (q := joinSegments (drop (Z.to_nat s) (segments p))).
  destruct (stripTrailingSlashes_spec (length q) q) as (j & Hj & Hlast); [done|].
  exists (stripTrailingSlashes (length q) q), j.
  assert (stripPathSlashes p s = Returns (stripTrailingSlashes (length q) q)) as Hrun.
  { unfold stripPathSlashes. rewrite <- Hjoin at 1.
    by rewrite stripLeadingSlashes_join. }
  repeat split; try done.
  - destruct (stripTrailingSlashes (length q) q) as [|c r'] eqn:Er; [by left|right].
    unfold q in Hj. destruct (drop (Z.to_nat s) (segments p)) as [|seg segs].
    + discriminate Hj.
    + rewrite joinSegments_cons in Hj. simpl in Hj. by injection Hj as <- _.
  - intros Hle. unfold q in *. rewrite drop_ge in * by done.
    destruct (stripTrailingSlashes _ _); [done|discriminate Hj].
Qed.

Lemma stripPathSlashes_segments_witness :
  exists r j,
    stripPathSlashes (B "/foo/bar") 2 = Returns r
    /\ joinSegments (segments (B "/foo/bar")) = B "/foo/bar"
    /\ Forall (fun seg => slash ∉ seg) (segments (B "/foo/bar"))
    /\ joinSegments (drop (Z.to_nat 2) (segments (B "/foo/bar"))) = r ++ replicate j slash
    /\ last r <> Some slash
    /\ (r = [] \/ head r = Some slash)
    /\ ((length (segments (B "/foo/bar")) <= Z.to_nat 2)%nat -> r = []).
Proof. apply (stripPathSlashes_segments (B "foo/bar") 2). lia. Defined.

(** C2, as the specification words it, fails on the documented example:
    one strip on ["/foo/bar"] gives ["/bar"], which starts with ['/'], and
    not ["bar"]. *)
Lemma stripPathSlashes_keeps_leading_slash :
  stripPathSlashes (B "/foo/bar") 1 = Returns (B "/bar")
  /\ stripPathSlashes (B "/foo/bar") 1 <> Returns (B "bar")
  /\ head (B "/bar") = Some slash.
Proof. repeat split. discriminate. Qed.

(** ** Strings *)

Lemma sapp_cons x s t : String x s +:+ t = String x (s +:+ t).
Proof. done. Qed.

Lemma sapp_nil_l t : "" +:+ t = t.
Proof. done. Qed.

Lemma sapp_nil_r s : s +:+ "" = s.
Proof. induction s as [|x s IH]; [done|]. by rewrite sapp_cons, IH. Qed.

Lemma sapp_assoc s t u : (s +:+ t) +:+ u = s +:+ t +:+ u.
Proof. induction s as [|x s IH]; [done|]. by rewrite !sapp_cons, IH. Qed.

Lemma slength_app s t :
  String.length (s +:+ t) = (String.length s + String.length t)%nat.
Proof. induction s as [|x s IH]; [done|]. rewrite sapp_cons. simpl. by rewrite IH. Qed.

(** ** fileExtension *)

Lemma LastIndexByte_range s c : -1 <= LastIndexByte s c < slen s.
Proof.
  unfold slen. induction s as [|x s IH]; simpl; [lia|].
  destruct (Z.leb_spec 0 (LastIndexByte s c)); [lia|].
  destruct (Ascii.eqb x c); lia.
Qed.

Lemma LastIndexByte_absent s c : ~ occurs c s -> LastIndexByte s c = -1.
Proof.
  induction s as [|x s IH]; simpl; [done|]. intros Hno.
  rewrite IH by tauto. simpl.
  destruct (Ascii.eqb_spec x c); [tauto|done].
Qed.

Lemma LastIndexByte_last pre c suf :
  ~ occurs c suf -> LastIndexByte (pre +:+ String c suf) c = slen pre.
Proof.
  intros Hno. unfold slen. induction pre as [|x pre IH]; simpl.
  - rewrite LastIndexByte_absent by done. simpl. by rewrite Ascii.eqb_refl.
  - rewrite IH. destruct (Z.leb_spec 0 (Z.of_nat (String.length pre))); lia.
Qed.

Lemma sdrop_app pre s : sdrop (String.length pre) (pre +:+ s) = s.
Proof. induction pre as [|x pre IH]; simpl; [by destruct s|done]. Qed.

Lemma fileExtension_no_dot path : ~ occurs "."%char path -> fileExtension path = "".
Proof. intros Hno. unfold fileExtension. by rewrite LastIndexByte_absent. Qed.

Lemma fileExtension_app pre suf :
  ~ occurs "."%char suf ->
  fileExtension (pre +:+ String "."%char suf) = String "."%char suf.
Proof.
  intros Hno. unfold fileExtension. rewrite LastIndexByte_last by done.
  unfold slen. destruct (Z.ltb_spec (Z.of_nat (String.length pre)) 0); [lia|].
  rewrite Nat2Z.id. apply sdrop_app.
Qed.


(** ** Integers *)

Lemma wrapSigned_fixed bits n :
  0 < bits ->
  wrapSigned bits n = n <-> - 2 ^ (bits - 1) <= n < 2 ^ (bits - 1).
Proof.
  intros Hbits. unfold wrapSigned.
  assert (2 ^ bits = 2 * 2 ^ (bits - 1)) as Hpow.
  { rewrite <- Z.pow_succ_r by lia. f_equal. lia. }
  assert (0 < 2 ^ (bits - 1)) by (apply Z.pow_pos_nonneg; lia).
  split.
  - intros Heq.
    pose proof (Z.mod_pos_bound (n + 2 ^ (bits - 1)) (2 ^ bits)). lia.
  - intros Hrange. rewrite Z.mod_small by lia. lia.
Qed.

Lemma wrapInt64_small n : minInt64 <= n <= maxInt64 -> wrapInt64 n = n.
Proof.
  intros Hn. apply wrapSigned_fixed; [lia|].
  unfold minInt64, maxInt64 in Hn. simpl. lia.
Qed.

(** ** The operating system *)

Lemma bind_Returns {A C} (m : M A) (k : A -> M C) w a w' :
  m w = Returns (a, w') -> (m ≫= k) w = k a w'.
Proof. intros Hm. unfold mbind, M_bind. by rewrite Hm. Qed.

Lemma os_Open_opened name w ino :
  (String.length name <= pathMax w)%nat ->
  fs w name = inr ino ->
  os_Open name w = Returns (inr (length (files w)), opened ino w).
Proof.
  intros Hlen Hfs. unfold os_Open.
  destruct (Nat.ltb_spec (pathMax w) (String.length name)); [lia|].
  by rewrite Hfs.
Qed.

Lemma os_Open_error name w :
  (pathMax w < String.length name)%nat \/ (exists err, fs w name = inl err) ->
  exists err, os_Open name w = Returns (inl err, w).
Proof.
  unfold os_Open. intros [Hlong|[err Herr]].
  - destruct (Nat.ltb_spec (pathMax w) (String.length name)); [eauto|lia].
  - destruct (Nat.ltb_spec (pathMax w) (String.length name)); [eauto|].
    rewrite Herr. eauto.
Qed.

Lemma lookup_opened ino w :
  files (opened ino w) !! length (files w) = Some (ino, true).
Proof. simpl. rewrite lookup_app_r by done. by rewrite Nat.sub_diag. Qed.

Lemma File_Stat_opened ino w :
  File_Stat (length (files w)) (opened ino w) = Returns (i_stat ino, opened ino w).
Proof. unfold File_Stat. by rewrite lookup_opened. Qed.

Lemma File_Readdirnames_opened ino w :
  File_Readdirnames (length (files w)) (opened ino w)
  = Returns (i_names ino, opened ino w).
Proof. unfold File_Readdirnames. by rewrite lookup_opened. Qed.

Lemma File_Close_opened ino w :
  File_Close (length (files w)) (opened ino w) = Returns (tt, openedClosed ino w).
Proof.
  unfold File_Close. rewrite lookup_opened. do 2 f_equal.
  unfold openedClosed, opened, setFiles. simpl. f_equal.
  rewrite insert_app_r_alt by done. by rewrite Nat.sub_diag.
Qed.

(** ** Resolution of a path: openFSFile *)

Section Resolver.
Context `{Platform}.

Lemma toInt_fits n : toInt n = n <-> fitsInt n.
Proof.
  unfold toInt, fitsInt. apply wrapSigned_fixed.
  destruct intBits_spec as [-> | ->]; lia.
Qed.

Lemma openFSFile_rec_open_error n p w err :
  os_Open p w = Returns (inl err, w) ->
  openFSFile_rec (S n) p w = Returns (inl err, w).
Proof. intros Hopen. simpl. by rewrite (bind_Returns _ _ _ _ _ Hopen). Qed.

Lemma openFSFile_rec_stat_error n p w ino err :
  (String.length p <= pathMax w)%nat ->
  fs w p = inr ino ->
  i_stat ino = inl err ->
  openFSFile_rec (S n) p w = Returns (inl err, openedClosed ino w).
Proof.
  intros Hlen Hfs Hstat. simpl.
  rewrite (bind_Returns _ _ _ _ _ (os_Open_opened _ _ _ Hlen Hfs)).
  rewrite (bind_Returns _ _ _ _ _ (File_Stat_opened _ _)). rewrite Hstat.
  by rewrite (bind_Returns _ _ _ _ _ (File_Close_opened _ _)).
Qed.

Lemma openFSFile_rec_directory n p w ino st :
  (String.length p <= pathMax w)%nat ->
  fs w p = inr ino ->
  i_stat ino = inr st ->
  IsDir st = true ->
  openFSFile_rec (S n) p w
  = match openFSFile_rec n (p +:+ "/index.html") (openedClosed ino w) with
    | Returns (r, w') => Returns (indexResult r, w')
    | Panics msg => Panics msg
    | OutOfFuel => OutOfFuel
    end.
Proof.
  intros Hlen Hfs Hstat Hdir. simpl.
  rewrite (bind_Returns _ _ _ _ _ (os_Open_opened _ _ _ Hlen Hfs)).
  rewrite (bind_Returns _ _ _ _ _ (File_Stat_opened _ _)). rewrite Hstat, Hdir.
  rewrite (bind_Returns _ _ _ _ _ (File_Close_opened _ _)).
  unfold mbind, M_bind.
  destruct (openFSFile_rec n _ _) as [[[err|ff] w']| |]; try done.
  unfold indexResult. by destruct (IsNotExist err).
Qed.

Lemma openFSFile_rec_regular n p w ino st :
  (String.length p <= pathMax w)%nat ->
  fs w p = inr ino ->
  i_stat ino = inr st ->
  IsDir st = false ->
  openFSFile_rec (S n) p w
  = if bool_decide (toInt (Size st) = Size st)
    then Returns (inr {| ff_f := Some (length (files w));
                         ff_dirIndex := [];
                         ff_contentType := TypeByExtension (fileExtension p);
                         ff_contentLength := Size st;
                         ff_t := zeroTime |}, opened ino w)
    else Returns (inl (errTooBigFile (Size st)), openedClosed ino w).
Proof.
  intros Hlen Hfs Hstat Hdir. simpl.
  rewrite (bind_Returns _ _ _ _ _ (os_Open_opened _ _ _ Hlen Hfs)).
  rewrite (bind_Returns _ _ _ _ _ (File_Stat_opened _ _)). rewrite Hstat, Hdir.
  case_bool_decide as Hfit.
  - rewrite Hfit. rewrite Z.eqb_refl. done.
  - destruct (Z.eqb_spec (Size st) (toInt (Size st))) as [Heq|_]; [by rewrite <- Heq in Hfit|].
    simpl. by rewrite (bind_Returns _ _ _ _ _ (File_Close_opened _ _)).
Qed.

(** The recursion ends: with fuel for every path length the system still
    accepts, [openFSFile_rec] returns, and more fuel changes nothing. *)
Lemma openFSFile_rec_enough n p w :
  (pathMax w + 2 <= n + String.length p)%nat ->
  (1 <= n)%nat ->
  exists r w',
    openFSFile_rec n p w = Returns (r, w')
    /\ pathMax w' = pathMax w
    /\ forall m, (n <= m)%nat -> openFSFile_rec m p w = Returns (r, w').
Proof.
  revert p w. induction n as [|n IH]; intros p w Hfuel Hn; [lia|].
  destruct (Nat.ltb_spec (pathMax w) (String.length p)) as [Hlong|Hshort].
  { destruct (os_Open_error p w) as [err Herr]; [by left|].
    exists (inl err), w. split; [by apply openFSFile_rec_open_error|].
    split; [done|]. intros [|m] Hm; [lia|]. by apply openFSFile_rec_open_error. }
  destruct (fs w p) as [err|ino] eqn:Hfs.
  { destruct (os_Open_error p w) as [err' Herr]; [right; eauto|].
    exists (inl err'), w. split; [by apply openFSFile_rec_open_error|].
    split; [done|]. intros [|m] Hm; [lia|]. by apply openFSFile_rec_open_error. }
  destruct (i_stat ino) as [err|st] eqn:Hstat.
  { exists (inl err), (openedClosed ino w).
    split; [by apply openFSFile_rec_stat_error|].
    split; [done|]. intros [|m] Hm; [lia|]. by apply openFSFile_rec_stat_error. }
  destruct (IsDir st) eqn:Hdir.
  - destruct (IH (p +:+ "/index.html") (openedClosed ino w)) as (r & w' & Hr & Hpm & Hmore).
    { rewrite slength_app. simpl. lia. }
    { simpl. lia. }
    exists (indexResult r), w'.
    split; [by rewrite (openFSFile_rec_directory _ _ _ _ _ Hshort Hfs Hstat Hdir), Hr|].
    split; [done|]. intros [|m] Hm; [lia|].
    rewrite (openFSFile_rec_directory _ _ _ _ _ Hshort Hfs Hstat Hdir).
    rewrite Hmore by lia. done.
  - rewrite (openFSFile_rec_regular _ _ _ _ _ Hshort Hfs Hstat Hdir).
    case_bool_decide.
    + eexists _, _. split; [done|]. split; [done|].
      intros [|m] Hm; [lia|].
      rewrite (openFSFile_rec_regular _ _ _ _ _ Hshort Hfs Hstat Hdir).
      by rewrite bool_decide_true.
    + eexists _, _. split; [done|]. split; [done|].
      intros [|m] Hm; [lia|].
      rewrite (openFSFile_rec_regular _ _ _ _ _ Hshort Hfs Hstat Hdir).
      by rewrite bool_decide_false.
Qed.

(** [openFSFile] always returns: it neither panics nor runs out of fuel. *)
Lemma openFSFile_returns p w :
  exists r w', openFSFile p w = Returns (r, w') /\ pathMax w' = pathMax w.
Proof.
  unfold openFSFile.
  destruct (openFSFile_rec_enough (pathMax w + 2) p w) as (r & w' & Hr & Hpm & _);
    [lia..|]. eauto.
Qed.


Lemma openFSFile_regular p w ino st :
  (String.length p <= pathMax w)%nat ->
  fs w p = inr ino ->
  i_stat ino = inr st ->
  IsDir st = false ->
  openFSFile p w
  = if bool_decide (toInt (Size st) = Size st)
    then Returns (inr {| ff_f := Some (length (files w));
                         ff_dirIndex := [];
                         ff_contentType := TypeByExtension (fileExtension p);
                         ff_contentLength := Size st;
                         ff_t := zeroTime |}, opened ino w)
    else Returns (inl (errTooBigFile (Size st)), openedClosed ino w).
Proof.
  intros. unfold openFSFile.
  replace (pathMax w + 2)%nat with (S (pathMax w + 1)) by lia.
  by apply openFSFile_rec_regular.
Qed.

Lemma openFSFile_rec_resolves n p w r w' :
  openFSFile_rec n p w = Returns (r, w') -> resolves p w r w'.
Proof.
  revert p w r w'. induction n as [|n IH]; intros p w r w' Hrun; [done|].
  destruct (Nat.ltb_spec (pathMax w) (String.length p)) as [Hlong|Hshort].
  { destruct (os_Open_error p w) as [err Herr]; [by left|].
    rewrite (openFSFile_rec_open_error _ _ _ _ Herr) in Hrun.
    injection Hrun as <- <-. by constructor. }
  destruct (fs w p) as [err|ino] eqn:Hfs.
  { destruct (os_Open_error p w) as [err' Herr]; [right; eauto|].
    rewrite (openFSFile_rec_open_error _ _ _ _ Herr) in Hrun.
    injection Hrun as <- <-. by constructor. }
  destruct (i_stat ino) as [err|st] eqn:Hstat.
  { rewrite (openFSFile_rec_stat_error _ _ _ _ _ Hshort Hfs Hstat) in Hrun.
    injection Hrun as <- <-. by eapply resolves_stat_error. }
  destruct (IsDir st) eqn:Hdir.
  - rewrite (openFSFile_rec_directory _ _ _ _ _ Hshort Hfs Hstat Hdir) in Hrun.
    destruct (openFSFile_rec n _ _) as [[r0 w0]| |] eqn:Hrec; try done.
    injection Hrun as <- <-. eapply resolves_directory; eauto.
  - rewrite (openFSFile_rec_regular _ _ _ _ _ Hshort Hfs Hstat Hdir) in Hrun.
    case_bool_decide; injection Hrun as <- <-.
    + by eapply resolves_regular.
    + by eapply resolves_too_big.
Qed.

Lemma openFSFile_resolves p w r w' :
  openFSFile p w = Returns (r, w') -> resolves p w r w'.
Proof. apply openFSFile_rec_resolves. Qed.

Lemma extends_refl w : extends w w.
Proof.
  repeat split; try done; [by exists []; rewrite app_nil_r|by exists []].
Qed.

Lemma extends_trans w1 w2 w3 : extends w1 w2 -> extends w2 w3 -> extends w1 w3.
Proof.
  intros (Hp1 & Hf1 & [l1 Hl1] & [c1 Hc1] & Hr1 & Ho1 & Hs1)
         (Hp2 & Hf2 & [l2 Hl2] & [c2 Hc2] & Hr2 & Ho2 & Hs2).
  repeat split; try congruence.
  - exists (l1 ++ l2). by rewrite Hl2, Hl1, app_assoc.
  - exists (c2 ++ c1). by rewrite Hc2, Hc1, app_assoc.
Qed.

Lemma extends_opened ino w : extends w (opened ino w).
Proof. repeat split; try done; [by eexists|by exists []]. Qed.

Lemma extends_openedClosed ino w : extends w (openedClosed ino w).
Proof.
  repeat split; try done; [by eexists|by exists [length (files w)]].
Qed.

Lemma extends_lookup w w' i x :
  extends w w' -> files w !! i = Some x -> files w' !! i = Some x.
Proof.
  intros (_ & _ & [l ->] & _) Hi. by apply lookup_app_l_Some.
Qed.


Lemma resolves_extends p w r w' : resolves p w r w' -> extends w w'.
Proof.
  induction 1; eauto using extends_refl, extends_trans, extends_opened,
    extends_openedClosed.
Qed.

(** A descriptor that [openFSFile] returns holds a handle and no generated
    content; the handle is an open file of the world it returns. *)
Lemma resolves_descriptor p w ff w' :
  resolves p w (inr ff) w' ->
  ff_dirIndex ff = [] /\ ff_t ff = zeroTime
  /\ exists f ino, ff_f ff = Some f /\ files w' !! f = Some (ino, true).
Proof.
  intros Hres. remember (inr ff) as r eqn:Hr. revert ff Hr.
  induction Hres as [| |p w ino st r w' Hlen Hfs Hstat Hdir Hres IH| |];
    intros ff Hr; try done.
  - destruct r as [err|ff']; simpl in Hr.
    + by destruct (IsNotExist err).
    + injection Hr as ->. by apply IH.
  - injection Hr as <-. simpl. repeat split.
    exists (length (files w)), ino. split; [done|]. apply lookup_opened.
Qed.


End Resolver.



(** On a 32-bit platform a file of 4 GiB and five bytes is refused, and its
    handle is closed. *)
Example openFSFile_too_big :
  @openFSFile Demo.P32 "/srv/big.iso" Demo.world
  = Returns (inl (errTooBigFile 4294967301),
             openedClosed (Demo.file 4294967301 []) Demo.world).
Proof. reflexivity. Qed.

Example openFSFile_big_64 :
  match @openFSFile Demo.P64 "/srv/big.iso" Demo.world with
  | Returns (inr ff, _) => ff_contentLength ff = 4294967301
  | _ => False
  end.
Proof. vm_compute. reflexivity. Qed.

(** ** Directory listings: createDirIndex *)

Lemma escapeChar_length c : (1 <= String.length (escapeChar c))%nat.
Proof.
  unfold escapeChar.
  repeat match goal with |- context [Ascii.eqb ?a ?b] => destruct (Ascii.eqb a b) end;
    simpl; lia.
Qed.

Lemma EscapeString_length s :
  (String.length s <= String.length (EscapeString s))%nat.
Proof.
  induction s as [|c s IH]; simpl; [done|].
  rewrite slength_app. pose proof (escapeChar_length c). lia.
Qed.

Lemma occurs_app c s t : occurs c (s +:+ t) <-> occurs c s \/ occurs c t.
Proof.
  induction s as [|x s IH].
  - rewrite sapp_nil_l. simpl. tauto.
  - rewrite sapp_cons. simpl. rewrite IH. tauto.
Qed.

(** Escaped text holds none of the characters that could end the text or
    the attribute it is written in. *)
Lemma EscapeString_safe s c : htmlSpecial c -> ~ occurs c (EscapeString s).
Proof.
  intros Hc. induction s as [|x s IH]; simpl; [tauto|].
  rewrite occurs_app. intros [Hx|Hs]; [|tauto].
  unfold escapeChar in Hx.
  repeat match type of Hx with
         | context [Ascii.eqb ?a ?b] => destruct (Ascii.eqb_spec a b)
         end;
    simpl in Hx; unfold htmlSpecial, dquote in *;
    intuition (subst; try discriminate; try congruence).
Qed.

Lemma sortStrings_sorted names : Sorted String.le (sortStrings names).
Proof. apply (Sorted_merge_sort String.le). Qed.

Lemma sortStrings_perm names : sortStrings names ≡ₚ names.
Proof. apply (merge_sort_Permutation String.le). Qed.

Lemma sortStrings_unique names sorted :
  Sorted String.le sorted -> sorted ≡ₚ names -> sortStrings names = sorted.
Proof.
  intros Hsorted Hperm. apply (Sorted_unique String.le).
  - apply sortStrings_sorted.
  - done.
  - by rewrite sortStrings_perm.
Qed.

Example sortStrings_example :
  sortStrings ["b.txt"; "a.txt"; "index.htm"] = ["a.txt"; "b.txt"; "index.htm"].
Proof. reflexivity. Qed.

Section Listing.
Context `{Platform}.

Lemma writeItems_listItems u buf names :
  writeItems u buf names = buf +:+ sconcat (listItems u names).
Proof.
  revert u buf. induction names as [|name rest IH]; intros u buf.
  - simpl. by rewrite sapp_nil_r.
  - simpl. rewrite IH. unfold listItems. simpl. by rewrite sapp_assoc.
Qed.

Lemma length_hrefs u names : length (hrefs u names) = length names.
Proof.
  revert u. induction names as [|name rest IH]; intros u; simpl; [done|].
  by rewrite IH.
Qed.

Lemma length_listItems u names : length (listItems u names) = length names.
Proof.
  unfold listItems. rewrite length_zip_with, length_hrefs. lia.
Qed.

(** The test [len(basePathEscaped) > 1] tells the root from every other
    path that starts with a slash. *)
Lemma parent_test rest :
  (1 <? slen (EscapeString (String.string_of_list_byte (slash :: rest))))
  = bool_decide (rest <> []).
Proof.
  change (String.string_of_list_byte (slash :: rest))
    with (String "/"%char (String.string_of_list_byte rest)).
  change (EscapeString (String "/"%char (String.string_of_list_byte rest)))
    with (String "/"%char (EscapeString (String.string_of_list_byte rest))).
  unfold slen. simpl String.length.
  destruct rest as [|c rest].
  - by rewrite bool_decide_false by (intros Hne; by apply Hne).
  - rewrite bool_decide_true by done.
    pose proof (EscapeString_length (String.string_of_list_byte (c :: rest))) as Hlen.
    change (String.string_of_list_byte (c :: rest))
      with (String (ascii_of_byte c) (String.string_of_list_byte rest)) in Hlen.
    simpl String.length in Hlen at 1.
    change (String.string_of_list_byte (c :: rest))
      with (String (ascii_of_byte c) (String.string_of_list_byte rest)).
    apply Z.ltb_lt. lia.
Qed.

Lemma createDirIndex_open_error base p w err :
  os_Open p w = Returns (inl err, w) ->
  createDirIndex base p w = Returns (inl err, w).
Proof.
  intros Hopen. unfold createDirIndex.
  by rewrite (bind_Returns _ _ _ _ _ Hopen).
Qed.

Lemma createDirIndex_opened base p w ino :
  (String.length p <= pathMax w)%nat ->
  fs w p = inr ino ->
  createDirIndex base p w
  = match i_names ino with
    | inl err => Returns (inl err, openedClosed ino w)
    | inr filenames =>
        let basePathEscaped := EscapeString (String.string_of_list_byte (URI_Path base)) in
        let dirIndex :=
          String.list_byte_of_string
            (((if 1 <? slen basePathEscaped
               then htmlHead basePathEscaped +:+ parentLink
               else htmlHead basePathEscaped)
              +:+ sconcat (listItems base (sortStrings filenames)))
             +:+ htmlFoot) in
        Returns (inr {| ff_f := None;
                        ff_dirIndex := dirIndex;
                        ff_contentType := "text/html";
                        ff_contentLength := len dirIndex;
                        ff_t := zeroTime |}, openedClosed ino w)
    end.
Proof.
  intros Hlen Hfs. unfold createDirIndex.
  rewrite (bind_Returns _ _ _ _ _ (os_Open_opened _ _ _ Hlen Hfs)).
  rewrite (bind_Returns _ _ _ _ _ (File_Readdirnames_opened _ _)).
  rewrite (bind_Returns _ _ _ _ _ (File_Close_opened _ _)).
  destruct (i_names ino) as [err|filenames]; [done|].
  by rewrite writeItems_listItems.
Qed.

End Listing.

Lemma EscapeString_app s t :
  EscapeString (s +:+ t) = EscapeString s +:+ EscapeString t.
Proof.
  induction s as [|c s IH].
  - by rewrite !sapp_nil_l.
  - rewrite sapp_cons. simpl. by rewrite IH, sapp_assoc.
Qed.

Lemma EscapeString_escapesHTML : escapesHTML EscapeString.
Proof.
  split; [apply EscapeString_app|]. do 5 (split; [reflexivity|]).
  intros c Hamp Hapo Hlt Hgt Hquot. simpl. unfold escapeChar, dquote.
  repeat match goal with
         | |- context [Ascii.eqb ?a ?b] => destruct (Ascii.eqb_spec a b); [done|]
         end.
  reflexivity.
Qed.

(** C5: for a directory that can be opened and enumerated, and a requested
    path that starts with a slash, the listing is this text, byte for byte:
    the title and the heading with the escaped requested path; the link to
    the parent directory exactly when the requested path is not the root;
    one item for each child, in increasing order of the names whatever
    order the system gave them in, each with the escaped path of the child
    as its link and the escaped name as its text; and the closing tags.
    Escaping replaces the five characters of HTML by their entities and
    nothing else, so that no escaped text can end the element or the
    attribute it is written in. *)
Theorem createDirIndex_listing `{Platform} (base : URI) (rest : list byte)
    (p : string) (w : World) (ino : inode) (names : list string) :
  URI_Path base = slash :: rest ->
  (String.length p <= pathMax w)%nat ->
  fs w p = inr ino ->
  i_names ino = inr names ->
  let basePathEscaped := EscapeString (String.string_of_list_byte (URI_Path base)) in
  let q := String "034"%char "" in
  let item := fun (href : list byte) (name : string) =>
    "<li><a href=" +:+ q +:+ EscapeString (String.string_of_list_byte href) +:+ q
    +:+ ">" +:+ EscapeString name +:+ "</a></li>" in
  exists sorted ff,
    createDirIndex base p w = Returns (inr ff, openedClosed ino w)
    /\ Sorted String.le sorted
    /\ sorted ≡ₚ names
    /\ (forall names', names' ≡ₚ names -> sortStrings names' = sorted)
    /\ length (zip_with item (hrefs base sorted) sorted) = length names
    /\ ff_dirIndex ff
       = String.list_byte_of_string
           ("<html><head><title>" +:+ basePathEscaped +:+ "</title></head><body>"
            +:+ "<h1>" +:+ basePathEscaped +:+ "</h1>"
            +:+ "<ul>"
            +:+ (if bool_decide (rest = []) then ""
                 else "<li><a href=" +:+ q +:+ ".." +:+ q +:+ ">..</a></li>")
            +:+ sconcat (zip_with item (hrefs base sorted) sorted)
            +:+ "</ul></body></html>")
    /\ escapesHTML EscapeString
    /\ (forall c, htmlSpecial c ->
          ~ occurs c basePathEscaped
          /\ (forall name, ~ occurs c (EscapeString name))
          /\ (forall href, ~ occurs c (EscapeString (String.string_of_list_byte href))))
    /\ ff_f ff = None
    /\ ff_contentType ff = "text/html"
    /\ ff_contentLength ff = Z.of_nat (length (ff_dirIndex ff)).
Proof.
  intros Hpath Hlen Hfs Hnames basePathEscaped q item.
  pose proof (createDirIndex_opened base p w ino Hlen Hfs) as Hrun.
  rewrite Hnames in Hrun. cbv zeta in Hrun.
  fold basePathEscaped in Hrun.
  assert ((1 <? slen basePathEscaped) = bool_decide (rest <> [])) as Htest.
  { unfold basePathEscaped. rewrite Hpath. apply parent_test. }
  rewrite Htest in Hrun.
  assert (forall l, listItems base l = zip_with item (hrefs base l) l) as Hitems
    by reflexivity.
  eexists (sortStrings names), _. split; [exact Hrun|].
  split; [apply sortStrings_sorted|].
  split; [apply sortStrings_perm|].
  split.
  { intros names' Hperm. apply sortStrings_unique; [apply sortStrings_sorted|].
    by rewrite sortStrings_perm. }
  split.
  { rewrite <- Hitems, length_listItems. by rewrite sortStrings_perm. }
  split.
  { cbn [ff_dirIndex]. f_equal. rewrite <- Hitems.
    unfold htmlHead, parentLink, htmlFoot, Q, dquote. fold q.
    destruct rest as [|c rest'].
    - rewrite bool_decide_false by (intros Hne; by apply Hne).
      rewrite bool_decide_true by done.
      by rewrite sapp_nil_l, !sapp_assoc.
    - rewrite bool_decide_true by done. rewrite bool_decide_false by done.
      by rewrite !sapp_assoc. }
  split; [apply EscapeString_escapesHTML|].
  split.
  { intros c Hc. repeat split; intros; by apply EscapeString_safe. }
  done.
Qed.

Lemma createDirIndex_listing_witness :
  exists ff,
    @createDirIndex Demo.P64 (B "/") "/srv" Demo.world
      = Returns (inr ff, openedClosed
                           (Demo.dir ["docs"; "b.txt"; "a.txt"; "index.htm"; "big.iso"])
                           Demo.world)
    /\ ff_dirIndex ff
       = String.list_byte_of_string
           (sconcat
              ["<html><head><title>/</title></head><body><h1>/</h1><ul>";
               "<li><a href="; String "034"%char "/a.txt";
               String "034"%char ">a.txt</a></li>";
               "<li><a href="; String "034"%char "/b.txt";
               String "034"%char ">b.txt</a></li>";
               "<li><a href="; String "034"%char "/big.iso";
               String "034"%char ">big.iso</a></li>";
               "<li><a href="; String "034"%char "/docs";
               String "034"%char ">docs</a></li>";
               "<li><a href="; String "034"%char "/index.htm";
               String "034"%char ">index.htm</a></li>";
               "</ul></body></html>"]).
Proof.
  destruct (@createDirIndex_listing Demo.P64 (B "/") [] "/srv" Demo.world
              (Demo.dir ["docs"; "b.txt"; "a.txt"; "index.htm"; "big.iso"])
              ["docs"; "b.txt"; "a.txt"; "index.htm"; "big.iso"])
    as (sorted & ff & Hrun & _ & _ & Hsorted & _ & Hindex & _);
    [reflexivity|simpl; lia|reflexivity|reflexivity|].
  exists ff. split; [exact Hrun|].
  rewrite Hindex. rewrite <- (Hsorted _ (reflexivity _)). reflexivity.
Defined.

(** The listing of a directory below the root starts with the link to the
    parent directory. *)
Example createDirIndex_subdirectory :
  match @createDirIndex Demo.P64 (B "/a.b/") "/srv/a.b" Demo.world with
  | Returns (inr ff, _) =>
      ff_dirIndex ff
      = String.list_byte_of_string
          (sconcat
             ["<html><head><title>/a.b/</title></head><body><h1>/a.b/</h1><ul>";
              "<li><a href="; String "034"%char "..";
              String "034"%char ">..</a></li>";
              "<li><a href="; String "034"%char "/a.b/c";
              String "034"%char ">c</a></li>";
              "</ul></body></html>"])
  | _ => False
  end.
Proof. vm_compute. reflexivity. Qed.

(** The listing of the specification: [b.txt], [a.txt] and [index.htm] come
    out in the order [a.txt], [b.txt], [index.htm]. *)
Example listItems_example :
  @listItems Demo.P64 (B "/") (sortStrings ["b.txt"; "a.txt"; "index.htm"])
  = [listItem "/a.txt" "a.txt"; listItem "/b.txt" "b.txt";
     listItem "/index.htm" "index.htm"].
Proof. reflexivity. Qed.

Example listItems_escaped :
  @listItems Demo.P64 (B "/") ["<b>&co"]
  = [listItem "/&lt;b&gt;&amp;co" "&lt;b&gt;&amp;co"].
Proof. reflexivity. Qed.

(** ** The pooled readers *)

Lemma getReader_Some r rd w : readers w !! r = Some rd -> getReader r w = Returns (rd, w).
Proof. intros Hr. unfold getReader. by rewrite Hr. Qed.

Lemma copy_spec (dst src : list byte) :
  let n := Nat.min (length dst) (length src) in
  copy dst src = (take n src ++ drop n dst, Z.of_nat n).
Proof. done. Qed.

Lemma Read_generated r rd w p :
  readers w !! r = Some rd ->
  r_f rd = None ->
  0 <= r_offset rd <= len (r_dirIndex rd) ->
  len (r_dirIndex rd) <= maxInt64 ->
  let o := Z.to_nat (r_offset rd) in
  let n := Nat.min (length p) (length (r_dirIndex rd) - o) in
  Read r p w
  = if bool_decide (r_offset rd = len (r_dirIndex rd))
    then Returns ((p, 0, Some EOF), w)
    else Returns ((take n (drop o (r_dirIndex rd)) ++ drop n p, Z.of_nat n, None),
                  setReaders (<[r := setOffset rd (r_offset rd + Z.of_nat n)]> (readers w)) w).
Proof.
  intros Hr Hf Hoff Hmax o n. unfold Read.
  rewrite (bind_Returns _ _ _ _ _ (getReader_Some _ _ _ Hr)). rewrite Hf.
  case_bool_decide as Heof.
  - by rewrite Heof, Z.eqb_refl.
  - destruct (Z.eqb_spec (r_offset rd) (len (r_dirIndex rd))); [done|].
    destruct (Z.ltb_spec (r_offset rd) 0); [lia|].
    destruct (Z.ltb_spec (len (r_dirIndex rd)) (r_offset rd)); [lia|].
    simpl. unfold copy. rewrite length_drop. fold o. fold n.
    unfold mbind, M_bind, putReader, mret, M_ret. simpl.
    unfold setOffset. rewrite Hf.
    rewrite wrapInt64_small; [done|].
    unfold len, minInt64, maxInt64 in *. lia.
Qed.

Lemma Read_handle r rd w p f :
  readers w !! r = Some rd ->
  r_f rd = Some f ->
  exists p' n err,
    File_ReadAt f p (r_offset rd) w = Returns ((p', n, err), w)
    /\ Read r p w
       = Returns ((p', n, err),
                  setReaders (<[r := setOffset rd (wrapInt64 (r_offset rd + n))]> (readers w)) w).
Proof.
  intros Hr Hf. unfold Read.
  rewrite (bind_Returns _ _ _ _ _ (getReader_Some _ _ _ Hr)). rewrite Hf.
  assert (exists p' n err, File_ReadAt f p (r_offset rd) w = Returns ((p', n, err), w))
    as (p' & n & err & Hread).
  { unfold File_ReadAt.
    destruct (_ <? 0); eauto. destruct p as [|b p]; eauto.
    destruct (files w !! f) as [[ino [|]]|]; eauto.
    destruct (i_stat ino) as [e|st]; eauto.
    destruct (IsDir st); eauto. }
  exists p', n, err. split; [done|].
  rewrite (bind_Returns _ _ _ _ _ Hread).
  unfold mbind, M_bind, putReader, mret, M_ret. simpl. unfold setOffset.
  by rewrite Hf.
Qed.

(** What [ReadAt] delivers from an open regular file. *)
Lemma File_ReadAt_regular f p off w ino st :
  files w !! f = Some (ino, true) ->
  i_stat ino = inr st ->
  IsDir st = false ->
  0 <= off ->
  let n := Nat.min (length p) (Z.to_nat (Size st - off)) in
  File_ReadAt f p off w
  = Returns ((((fun i : nat => i_data ino (off + Z.of_nat i)) <$> seq 0 n) ++ drop n p,
              Z.of_nat n,
              if Z.of_nat n <? len p then Some EOF else None), w).
Proof.
  intros Hf Hstat Hdir Hoff n. unfold File_ReadAt.
  destruct (Z.ltb_spec off 0); [lia|].
  destruct p as [|b p]; [done|]. rewrite Hf, Hstat, Hdir.
  generalize dependent (b :: p). clear b p. intros p n.
  unfold copy, fileBytes. rewrite length_fmap, length_seq.
  replace (Nat.min (length p) (Nat.min (length p) (Z.to_nat (Size st - off))))
    with n by (unfold n; lia).
  fold n. rewrite take_ge; [done|]. rewrite length_fmap, length_seq. lia.
Qed.

Lemma File_ReadAt_count f p off w p' n err w' :
  File_ReadAt f p off w = Returns ((p', n, err), w') ->
  w' = w /\ 0 <= n <= len p
  /\ (n = 0 \/ exists ino st, files w !! f = Some (ino, true)
                              /\ i_stat ino = inr st /\ off + n <= Size st).
Proof.
  unfold File_ReadAt, len. intros Hread.
  assert (forall q, Returns ((p, 0, q), w) = Returns ((p', n, err), w') ->
          w' = w /\ 0 <= n <= Z.of_nat (length p)
          /\ (n = 0 \/ exists ino st, files w !! f = Some (ino, true)
                                      /\ i_stat ino = inr st /\ off + n <= Size st))
    as Hzero.
  { intros q Hq. injection Hq as <- <- <- <-. repeat split; [lia..|by left]. }
  destruct (Z.ltb_spec off 0); [by eapply Hzero|].
  destruct p as [|b p]; [by eapply Hzero|].
  revert Hread Hzero. generalize (b :: p). clear b p. intros p Hread Hzero.
  destruct (files w !! f) as [[ino [|]]|] eqn:Hf; [|by eapply Hzero..].
  destruct (i_stat ino) as [e|st] eqn:Hstat; [by eapply Hzero|].
  destruct (IsDir st); [by eapply Hzero|].
  unfold copy, fileBytes in Hread. rewrite length_fmap, length_seq in Hread.
  injection Hread as <- <- <- <-.
  split; [done|]. split; [lia|].
  destruct (decide (Size st - off <= 0)) as [Hle|Hgt]; [left; lia|].
  right. exists ino, st. repeat split; try done. lia.
Qed.

Lemma readAll_generated bufs r rd w :
  readers w !! r = Some rd ->
  r_f rd = None ->
  0 <= r_offset rd <= len (r_dirIndex rd) ->
  len (r_dirIndex rd) <= maxInt64 ->
  let o := Z.to_nat (r_offset rd) in
  exists out e w',
    readAll r bufs w = Returns ((out, e), w')
    /\ (exists k, out = take k (drop o (r_dirIndex rd)))
    /\ (e = None \/ e = Some EOF)
    /\ (e = Some EOF -> out = drop o (r_dirIndex rd))
    /\ (Forall (fun p => p <> []) bufs ->
        (length (r_dirIndex rd) - o < length bufs)%nat -> e = Some EOF).
Proof.
  revert rd w. induction bufs as [|p bufs IH]; intros rd w Hr Hf Hoff Hmax o.
  { exists [], None, w. split; [done|]. split; [by exists 0%nat|].
    split; [by left|]. split; [done|]. simpl. lia. }
  simpl readAll.
  pose proof (Read_generated r rd w p Hr Hf Hoff Hmax) as Hread.
  cbv zeta in Hread. fold o in Hread.
  set (n := Nat.min (length p) (length (r_dirIndex rd) - o)) in *.
  case_bool_decide as Heof.
  - rewrite (bind_Returns _ _ _ _ _ Hread).
    exists [], (Some EOF), w. split; [done|].
    assert (drop o (r_dirIndex rd) = []) as ->.
    { apply drop_ge. unfold o, len in *. lia. }
    split; [by exists 0%nat|]. split; [by right|]. done.
  - rewrite (bind_Returns _ _ _ _ _ Hread).
    set (rd1 := setOffset rd (r_offset rd + Z.of_nat n)).
    set (w1 := setReaders (<[r := rd1]> (readers w)) w).
    assert (Z.to_nat (r_offset rd1) = (o + n)%nat) as Ho1.
    { unfold rd1, o. simpl. lia. }
    destruct (IH rd1 w1) as (out & e & w' & Hrun & [k Hk] & He & Hall & Hlast).
    { unfold w1. simpl. apply list_lookup_insert_eq. by eapply lookup_lt_Some. }
    { done. }
    { unfold rd1, len, n, o in *. simpl. lia. }
    { done. }
    rewrite Ho1 in *. change (r_dirIndex rd1) with (r_dirIndex rd) in *.
    rewrite (bind_Returns _ _ _ _ _ Hrun).
    assert (take (Z.to_nat (Z.of_nat n)) (take n (drop o (r_dirIndex rd)) ++ drop n p)
            = take n (drop o (r_dirIndex rd))) as Hdelivered.
    { rewrite Nat2Z.id. rewrite take_app_length'; [done|].
      rewrite length_take, length_drop. unfold n. lia. }
    exists (take n (drop o (r_dirIndex rd)) ++ out), e, w'.
    split; [unfold mret, M_ret; by rewrite Hdelivered|].
    rewrite <- drop_drop in Hk, Hall. rewrite (Nat.add_comm o n) in *.
    split; [exists (n + k)%nat; by rewrite Hk, take_take_drop|].
    split; [done|]. split.
    + intros He'. rewrite (Hall He'). by rewrite take_drop.
    + intros Hne Hlen. apply Forall_cons in Hne as [Hp Hne].
      apply Hlast; [done|].
      assert (0 < length p)%nat by (destruct p; [done|simpl; lia]).
      unfold len, o in *. simpl in Hlen. lia.
Qed.

(** C7: a cursor on generated content copies from the buffer at its own
    offset and advances by the number of bytes copied; it reports [io.EOF],
    with no bytes, exactly when the offset is the length of the buffer. So
    the bytes delivered by successive calls are a prefix of the content,
    they are the whole content once [io.EOF] is reported, and [io.EOF] is
    reported when the buffers are not empty and are more than the content
    has bytes. A cursor on a handle reads with [ReadAt] at its own offset
    and advances by the count that [ReadAt] returns. *)
Theorem Read_semantics (r : nat) (rd : fsFileReader) (w : World) (p : list byte) :
  readers w !! r = Some rd ->
  0 <= r_offset rd <= maxInt64 ->
  let d := r_dirIndex rd in
  let o := Z.to_nat (r_offset rd) in
  (r_f rd = None -> r_offset rd <= len d -> len d <= maxInt64 ->
     let n := Nat.min (length p) (length d - o) in
     (r_offset rd = len d -> Read r p w = Returns ((p, 0, Some EOF), w))
     /\ (r_offset rd <> len d ->
         Read r p w
         = Returns ((take n (drop o d) ++ drop n p, Z.of_nat n, None),
                    setReaders (<[r := setOffset rd (r_offset rd + Z.of_nat n)]> (readers w)) w))
     /\ (forall bufs, r_offset rd = 0 ->
         exists out e w',
           readAll r bufs w = Returns ((out, e), w')
           /\ (exists k, out = take k d)
           /\ (e = None \/ e = Some EOF)
           /\ (e = Some EOF -> out = d)
           /\ (Forall (fun q => q <> []) bufs ->
               (length d < length bufs)%nat -> e = Some EOF)))
  /\ (forall f, r_f rd = Some f ->
      (forall ino b st, files w !! f = Some (ino, b) -> i_stat ino = inr st ->
                        Size st <= maxInt64) ->
      exists p' n err,
        File_ReadAt f p (r_offset rd) w = Returns ((p', n, err), w)
        /\ 0 <= n <= len p
        /\ Read r p w
           = Returns ((p', n, err),
                      setReaders (<[r := setOffset rd (r_offset rd + n)]> (readers w)) w)).
Proof.
  intros Hr Hoff d o. split.
  - intros Hf Hle Hmax n.
    pose proof (Read_generated r rd w p Hr Hf (conj (proj1 Hoff) Hle) Hmax) as Hread.
    cbv zeta in Hread. fold d o n in Hread.
    split; [intros Heq; by rewrite bool_decide_true in Hread|].
    split; [intros Hne; by rewrite bool_decide_false in Hread|].
    intros bufs Hzero.
    destruct (readAll_generated bufs r rd w Hr Hf (conj (proj1 Hoff) Hle) Hmax)
      as (out & e & w' & Hrun & Hk & He & Hall & Hlast).
    fold d o in Hk, Hall, Hlast.
    assert (o = 0%nat) as Ho by (unfold o; lia). rewrite Ho in *.
    rewrite Nat.sub_0_r in Hlast.
    exists out, e, w'. done.
  - intros f Hf Hsizes.
    destruct (Read_handle r rd w p f Hr Hf) as (p' & n & err & Hat & Hread).
    exists p', n, err. split; [done|].
    destruct (File_ReadAt_count _ _ _ _ _ _ _ _ Hat) as (_ & Hn & Hcases).
    split; [done|]. rewrite Hread.
    rewrite wrapInt64_small; [done|]. unfold minInt64.
    destruct Hcases as [->|(ino & st & Hfile & Hstat & Hsize)]; [lia|].
    pose proof (Hsizes _ _ _ Hfile Hstat). lia.
Qed.

Lemma Read_semantics_witness :
  Read 0 (B "..") (Demo.cursorOn "hello" 3)
  = Returns ((B "lo", 2, None), Demo.cursorOn "hello" 5)
  /\ Read 0 (B "..") (Demo.cursorOn "hello" 5)
     = Returns ((B "..", 0, Some EOF), Demo.cursorOn "hello" 5).
Proof.
  split.
  - destruct (Read_semantics 0 _ (Demo.cursorOn "hello" 3) (B "..") eq_refl)
      as [Hgen _]; [unfold maxInt64; simpl; lia|].
    destruct Hgen as (_ & Hread & _);
      [reflexivity|unfold len; simpl; lia|unfold len, maxInt64; simpl; lia|].
    apply Hread. unfold len. simpl. lia.
  - destruct (Read_semantics 0 _ (Demo.cursorOn "hello" 5) (B "..") eq_refl)
      as [Hgen _]; [unfold maxInt64; simpl; lia|].
    destruct Hgen as (Hread & _);
      [reflexivity|unfold len; simpl; lia|unfold len, maxInt64; simpl; lia|].
    apply Hread. reflexivity.
Defined.

Example readAll_example :
  match readAll 0 [B ".."; B ".."; B ".."; B ".."] (Demo.cursorOn "hello" 0) with
  | Returns ((out, e), _) => out = B "hello" /\ e = Some EOF
  | _ => False
  end.
Proof. vm_compute. done. Qed.

(** Two reads through a handle: the first fills the buffer, the second is
    short and comes with [io.EOF]. *)
Example Read_handle_example :
  match (calls ← @handleRequest Demo.P64 (FSHandler "/srv" 0)
                   (Demo.request "/a.txt");
         '(p1, n1, e1) ← Read 0 (B "...");
         '(p2, n2, e2) ← Read 0 (B "...");
         rd ← getReader 0;
         mret (p1, n1, e1, (p2, n2, e2), r_offset rd)) Demo.world with
  | Returns (result, _) =>
      result = (B "hel", 3, None, (B "lo.", 2, Some EOF), 5)
  | Panics _ => False
  | OutOfFuel => False
  end.
Proof. vm_compute. reflexivity. Qed.

(** A buffer without room makes no progress and never sees [io.EOF]. *)
Example Read_empty_buffer :
  Read 0 [] (Demo.cursorOn "hello" 3) = Returns (([], 0, None), Demo.cursorOn "hello" 3).
Proof. reflexivity. Qed.

(** ** The pool *)

Lemma Pool_Get_returns w : exists v w', Pool_Get w = Returns (v, w').
Proof.
  unfold Pool_Get. destruct (poolChoices w) as [|[i| |] cs]; simpl.
  - destruct (pool w); eauto.
  - destruct (pool w !! i); eauto.
  - eauto.
  - eauto.
Qed.

(** [Get] touches nothing but the pool. *)
Lemma Pool_Get_world v w w' :
  Pool_Get w = Returns (v, w') ->
  pathMax w' = pathMax w /\ fs w' = fs w /\ files w' = files w
  /\ closeLog w' = closeLog w /\ readers w' = readers w.
Proof.
  unfold Pool_Get. intros Hget.
  destruct (poolChoices w) as [|[i| |] cs]; simpl in Hget.
  - destruct (pool w); by injection Hget as <- <-.
  - destruct (pool w !! i); by injection Hget as <- <-.
  - by injection Hget as <- <-.
  - by injection Hget as <- <-.
Qed.

(** What [Get] hands out was held, and is held once less afterwards. *)
Lemma Pool_Get_Some r w w' :
  Pool_Get w = Returns (Some r, w') ->
  exists i, pool w !! i = Some r /\ pool w' = delete i (pool w).
Proof.
  unfold Pool_Get. intros Hget.
  destruct (poolChoices w) as [|[i| |] cs]; simpl in Hget; try done.
  - destruct (pool w) as [|v rest] eqn:Hpool; [done|].
    injection Hget as <- <-. by exists 0%nat.
  - destruct (pool w !! i) as [v|] eqn:Hi; [|done].
    injection Hget as <- <-. by exists i.
Qed.

(** What [Get] hands out depends on the pool and on the choices only. *)
Lemma Pool_Get_agree w w0 r w0' :
  pool w0 = pool w -> poolChoices w0 = poolChoices w ->
  Pool_Get w0 = Returns (Some r, w0') ->
  exists w', Pool_Get w = Returns (Some r, w').
Proof.
  unfold Pool_Get. simpl. intros -> -> Hget.
  destruct (poolChoices w) as [|[i| |] cs]; try done.
  - destruct (pool w); [done|]. injection Hget as <- _. eauto.
  - destruct (pool w !! i); [|done]. injection Hget as <- _. eauto.
Qed.

(** A goroutine that is alone and undisturbed gets the object put last. *)
Lemma Pool_Get_undisturbed r rest w :
  poolChoices w = [] -> pool w = r :: rest ->
  Pool_Get w = Returns (Some r, setPool rest w).
Proof. unfold Pool_Get. by intros -> ->. Qed.

(** The pool keeps no order: with cursor 0 in the pool, the cursor 1 that
    is released need not be the one that the next [Reader] gets. *)
Example Reader_takes_older_cursor :
  match (Close 1;; Reader (Demo.listing "world"))
          (setPoolChoices [TakeAt 1] (setPool [0%nat] Demo.twoCursors)) with
  | Returns (r, w') => r = 0%nat /\ pool w' = [1%nat]
  | _ => False
  end.
Proof. vm_compute. done. Qed.

(** After a collection the pool is empty, and [Reader] makes a new
    cursor. *)
Example Reader_after_collection :
  match (Close 0;; Reader (Demo.listing "world"))
          (setPoolChoices [Drained] (Demo.cursorOn "hello" 3)) with
  | Returns (r, w') => r = 1%nat /\ pool w' = [] /\ length (readers w') = 2%nat
  | _ => False
  end.
Proof. vm_compute. done. Qed.

(** A cursor that is released twice goes unnoticed as long as the pool
    keeps its second copy to itself. *)
Example double_Close_unnoticed :
  match (Close 0;; Close 0;;
         r1 ← Reader (Demo.listing "hello"); Read r1 (B "..");;
         Reader (Demo.listing "world"))
          (setPoolChoices [TakeAt 0; Miss] (Demo.cursorOn "hello" 0)) with
  | Returns (r, w') => r = 1%nat /\ pool w' = [0%nat]
  | _ => False
  end.
Proof. vm_compute. done. Qed.

(** C4, as the code has it: releasing a cursor never panics. [Close]
    unbinds the cursor, sets its offset to zero whatever it was, and puts
    the cursor back into the pool. The check for an offset that is not zero
    is made by [Reader], on the cursor that the pool hands out to it,
    whichever of the pooled cursors that is. *)
Theorem Close_resets_offset (r : nat) (rd : fsFileReader) (w : World) :
  readers w !! r = Some rd ->
  (exists w',
     Close r w = Returns (None, w')
     /\ readers w' !! r
        = Some {| r_f := None; r_dirIndex := []; r_offset := 0; r_v := r_v rd |}
     /\ pool w' = match r_v rd with
                  | Some v => v :: pool w
                  | None => pool w
                  end)
  /\ (forall ff w0,
        Pool_Get w = Returns (Some r, w0) ->
        if 0 <? r_offset rd
        then Reader ff w
             = Panics "BUG: fsFileReader with non-nil offset found in the pool"
        else exists w',
            Reader ff w = Returns (r, w')
            /\ readers w' !! r
               = Some {| r_f := ff_f ff; r_dirIndex := ff_dirIndex ff;
                         r_offset := r_offset rd; r_v := r_v rd |}
            /\ pool w' = pool w0).
Proof.
  intros Hr. pose proof (lookup_lt_Some _ _ _ Hr) as Hlt. split.
  - unfold Close. rewrite (bind_Returns _ _ _ _ _ (getReader_Some _ _ _ Hr)).
    unfold mbind, M_bind, putReader, Pool_Put, mret, M_ret.
    destruct (r_v rd) as [v|]; eexists; (split; [done|]); simpl;
      by rewrite list_lookup_insert_eq.
  - intros ff w0 Hget. unfold Reader.
    rewrite (bind_Returns _ _ _ _ _ Hget).
    destruct (Pool_Get_world _ _ _ Hget) as (_ & _ & _ & _ & Hrs).
    rewrite <- Hrs in Hr, Hlt.
    rewrite (bind_Returns _ _ _ _ _ (getReader_Some _ _ _ Hr)).
    unfold mbind, M_bind, putReader, panic, mret, M_ret.
    destruct (0 <? r_offset rd); [done|].
    eexists. split; [done|]. simpl. by rewrite list_lookup_insert_eq.
Qed.

Lemma Close_resets_offset_witness :
  exists w',
    Close 0 (Demo.cursorOn "hello" 3) = Returns (None, w')
    /\ readers w' !! 0%nat
       = Some {| r_f := None; r_dirIndex := []; r_offset := 0; r_v := Some 0%nat |}
    /\ pool w' = [0%nat].
Proof.
  destruct (Close_resets_offset 0 _ (Demo.cursorOn "hello" 3) eq_refl) as [Hclose _].
  exact Hclose.
Defined.

(** C4, as the specification words it, fails: a consumer takes a cursor,
    reads three of five bytes and releases it. The offset is 3 at release,
    [Close] returns without a panic, and the cursor sits in the pool with
    offset 0; the next [Reader] takes it from there, again without a
    panic. *)
Lemma Close_does_not_panic_on_nonzero_offset :
  match (r ← Reader (Demo.listing "hello");
         _ ← Read r (B "...");
         before ← getReader r;
         err ← Close r;
         after ← getReader r;
         r' ← Reader (Demo.listing "world");
         mret (r_offset before, err, r_offset after, r, r')) Demo.world with
  | Returns (result, w') => result = (3, None, 0, 0%nat, 0%nat)
  | Panics _ => False
  | OutOfFuel => False
  end.
Proof. vm_compute. reflexivity. Qed.

(** ** The sweep: cleanCache *)

Lemma cleanEntry_cache t c w k v :
  (cleanEntry t (c, w) (k, v)).1 = if expired t v then delete k c else c.
Proof. unfold cleanEntry, expired. by destruct (_ <? _). Qed.

Lemma foldl_cleanEntry_absent t l c w k :
  c !! k = None -> (foldl (cleanEntry t) (c, w) l).1 !! k = None.
Proof.
  revert c w. induction l as [|[k' v] l IH]; intros c w Hk; [done|].
  cbn [foldl]. destruct (cleanEntry t (c, w) (k', v)) as [c1 w1] eqn:Hstep.
  apply IH. pose proof (cleanEntry_cache t c w k' v) as Hc.
  rewrite Hstep in Hc. simpl in Hc. subst c1.
  destruct (expired t v); [|done].
  destruct (decide (k' = k)) as [->|Hne];
    [apply lookup_delete_eq|by rewrite lookup_delete_ne].
Qed.

Lemma foldl_cleanEntry_expired t l c w k v :
  (k, v) ∈ l -> expired t v = true ->
  (foldl (cleanEntry t) (c, w) l).1 !! k = None.
Proof.
  revert c w. induction l as [|[k' v'] l IH]; intros c w Hin Hexp.
  { by apply elem_of_nil in Hin. }
  cbn [foldl]. destruct (cleanEntry t (c, w) (k', v')) as [c1 w1] eqn:Hstep.
  apply elem_of_cons in Hin as [Heq|Hin]; [|by apply IH].
  injection Heq as <- <-.
  apply foldl_cleanEntry_absent.
  pose proof (cleanEntry_cache t c w k v) as Hc.
  rewrite Hstep, Hexp in Hc. simpl in Hc. subst c1. apply lookup_delete_eq.
Qed.

Lemma foldl_cleanEntry_kept t l c w k :
  (forall v, (k, v) ∈ l -> expired t v = false) ->
  (foldl (cleanEntry t) (c, w) l).1 !! k = c !! k.
Proof.
  revert c w. induction l as [|[k' v'] l IH]; intros c w Hall; [done|].
  cbn [foldl]. destruct (cleanEntry t (c, w) (k', v')) as [c1 w1] eqn:Hstep.
  rewrite IH by (intros v Hv; apply Hall; by right).
  pose proof (cleanEntry_cache t c w k' v') as Hc.
  rewrite Hstep in Hc. simpl in Hc. subst c1.
  destruct (expired t v') eqn:Hexp; [|done].
  destruct (decide (k' = k)) as [->|Hne]; [|by rewrite lookup_delete_ne].
  rewrite (Hall v') in Hexp; [done|by left].
Qed.

(** A sweep at time [t] always returns; it keeps the entries that are not
    expired at [t], as they are, and no others. *)
Lemma cleanCache_filter t h w :
  exists w',
    cleanCache t h w
    = Returns (setCache (filter (fun kv => expired t kv.2 = false) (cache h)) h, w').
Proof.
  unfold cleanCache.
  destruct (foldl (cleanEntry t) (cache h, w) (map_to_list (cache h)))
    as [c w'] eqn:Hfold.
  exists w'. do 3 f_equal. apply map_eq. intros k.
  replace c with (foldl (cleanEntry t) (cache h, w) (map_to_list (cache h))).1
    by (by rewrite Hfold).
  destruct (cache h !! k) as [v|] eqn:Hk.
  - destruct (expired t v) eqn:Hexp.
    + rewrite (foldl_cleanEntry_expired t _ _ _ k v);
        [|by apply elem_of_map_to_list|done].
      symmetry. apply map_lookup_filter_None. right.
      intros v' Hv'. simpl. rewrite Hk in Hv'. injection Hv' as <-.
      by rewrite Hexp.
    + rewrite foldl_cleanEntry_kept.
      * rewrite Hk. symmetry. by apply map_lookup_filter_Some.
      * intros v' Hv'. apply elem_of_map_to_list in Hv'.
        rewrite Hk in Hv'. by injection Hv' as <-.
  - rewrite foldl_cleanEntry_absent by done.
    symmetry. apply map_lookup_filter_None. by left.
Qed.

Lemma satInt64_large n : FSHandlerCacheDuration < n -> FSHandlerCacheDuration < satInt64 n.
Proof.
  unfold satInt64, FSHandlerCacheDuration, Second, maxInt64, minInt64. intros Hn.
  destruct (Z.ltb_spec (2 ^ 63 - 1) n); [lia|].
  destruct (Z.ltb_spec n (- 2 ^ 63)); lia.
Qed.

(** An entry whose [t] is the zero time is expired at every time that a
    clock can show: the year 1 is more than ten seconds ago. *)
Lemma expired_zeroTime now v :
  ff_t v = zeroTime -> FSHandlerCacheDuration < now -> expired now v = true.
Proof.
  intros Ht Hnow. unfold expired, time_Sub. rewrite Ht. unfold zeroTime.
  rewrite Z.sub_0_r. apply Z.ltb_lt. by apply satInt64_large.
Qed.

(** ** The request handler *)

Lemma list_byte_of_string_nil s : String.list_byte_of_string s = [] -> s = "".
Proof.
  intros Hs. rewrite <- (String.string_of_list_byte_of_string s). by rewrite Hs.
Qed.

Lemma sapp_not_empty s c t : s +:+ String c t <> "".
Proof. by destruct s. Qed.

Section Handler.
Context `{Platform}.

Lemma createDirIndex_descriptor base p w ff w' :
  createDirIndex base p w = Returns (inr ff, w') ->
  ff_f ff = None /\ ff_dirIndex ff <> [] /\ ff_t ff = zeroTime
  /\ ff_contentType ff = "text/html" /\ ff_contentLength ff = len (ff_dirIndex ff).
Proof.
  intros Hrun.
  destruct (Nat.ltb_spec (pathMax w) (String.length p)) as [Hlong|Hshort].
  { destruct (os_Open_error p w) as [err Herr]; [by left|].
    by rewrite (createDirIndex_open_error _ _ _ _ Herr) in Hrun. }
  destruct (fs w p) as [err|ino] eqn:Hfs.
  { destruct (os_Open_error p w) as [err' Herr]; [right; eauto|].
    by rewrite (createDirIndex_open_error _ _ _ _ Herr) in Hrun. }
  rewrite (createDirIndex_opened _ _ _ _ Hshort Hfs) in Hrun.
  destruct (i_names ino) as [err|names]; [done|].
  injection Hrun as <- <-. simpl. repeat split.
  intros Hnil. apply list_byte_of_string_nil in Hnil.
  by apply sapp_not_empty in Hnil.
Qed.

(** A normalised path with a NUL byte is answered with status 400 and a log
    entry; nothing is opened, read or stored. *)
Lemma handleRequest_path_with_nil h ctx w path :
  stripPathSlashes (ctx_Path ctx) (stripSlashes h) = Returns path ->
  NUL ∈ path ->
  0 <= IndexByte path NUL
  /\ handleRequest h ctx w
     = Returns ((h, [Printf (LogNilByte (IndexByte path NUL) path);
                     Error "Are you a hacker?" StatusBadRequest]), w).
Proof.
  intros Hstrip Hnul. pose proof (IndexByte_present _ _ Hnul) as Hn.
  split; [done|]. unfold handleRequest, mbind, M_bind, lift. rewrite Hstrip.
  by destruct (Z.leb_spec 0 (IndexByte path NUL)); [|lia].
Qed.

(** The three ways through a miss. *)
Lemma handleRequest_miss h ctx w path r w1 :
  stripPathSlashes (ctx_Path ctx) (stripSlashes h) = Returns path ->
  NUL ∉ path ->
  let key := String.string_of_list_byte path in
  let filePath := root h +:+ key in
  cache h !! key = None ->
  openFSFile filePath w = Returns (r, w1) ->
  handleRequest h ctx w
  = match r with
    | inr ff => insertAndServe h key ff w1
    | inl err =>
        if isDirIndexRequired err then
          match createDirIndex (ctx_URI ctx) filePath w1 with
          | Returns (inr ff, w2) => insertAndServe h key ff w2
          | Returns (inl err, w2) =>
              Returns ((h, [Printf (LogCannotCreateIndex filePath err);
                            Error "Cannot create directory index" StatusNotFound]), w2)
          | Panics msg => Panics msg
          | OutOfFuel => OutOfFuel
          end
        else
          Returns ((h, [Printf (LogCannotOpen filePath err);
                        Error "Cannot open requested path" StatusNotFound]), w1)
    end.
Proof.
  intros Hstrip Hnul key filePath Hmiss Hopen.
  unfold handleRequest, mbind, M_bind, lift. rewrite Hstrip.
  rewrite (IndexByte_absent _ _ Hnul). simpl.
  fold key. rewrite Hmiss. fold filePath. rewrite Hopen.
  destruct r as [err|ff]; [|done].
  destruct (isDirIndexRequired err); [|done].
  by destruct (createDirIndex _ _ _) as [[[err'|ff] w2]| |].
Qed.

Lemma handleRequest_hit h ctx w path ff :
  stripPathSlashes (ctx_Path ctx) (stripSlashes h) = Returns path ->
  NUL ∉ path ->
  cache h !! String.string_of_list_byte path = Some ff ->
  handleRequest h ctx w
  = match serve ff w with
    | Returns (calls, w') => Returns ((h, calls), w')
    | Panics msg => Panics msg
    | OutOfFuel => OutOfFuel
    end.
Proof.
  intros Hstrip Hnul Hhit.
  unfold handleRequest, mbind, M_bind, lift. rewrite Hstrip.
  rewrite (IndexByte_absent _ _ Hnul). simpl. rewrite Hhit.
  by destruct (serve ff w) as [[calls w']| |].
Qed.

Lemma insertAndServe_cache h key ff w h' calls w' :
  insertAndServe h key ff w = Returns ((h', calls), w') ->
  h' = setCache (<[key := ff]> (cache h)) h.
Proof.
  unfold insertAndServe, mbind, M_bind, mret, M_ret. intros Hrun.
  destruct (serve ff w) as [[calls0 w0]| |]; [|done..].
  by injection Hrun as <- _ _.
Qed.

(** What a request does to the cache: nothing, or one new entry under a
    key that had none, holding a descriptor fresh from [openFSFile] or
    from [createDirIndex]. *)
Lemma handleRequest_cache h ctx w h' calls w' :
  handleRequest h ctx w = Returns ((h', calls), w') ->
  h' = h
  \/ exists key ff,
       cache h !! key = None
       /\ h' = setCache (<[key := ff]> (cache h)) h
       /\ ((exists p w0 w1, openFSFile p w0 = Returns (inr ff, w1))
           \/ (exists base p w0 w1, createDirIndex base p w0 = Returns (inr ff, w1))).
Proof.
  intros Hrun.
  destruct (stripPathSlashes (ctx_Path ctx) (stripSlashes h)) as [path| |] eqn:Hstrip;
    [|unfold handleRequest, mbind, M_bind, lift in Hrun; by rewrite Hstrip in Hrun..].
  destruct (decide (NUL ∈ path)) as [Hnul|Hnul].
  { destruct (handleRequest_path_with_nil h ctx w path Hstrip Hnul) as [_ Hbad].
    rewrite Hbad in Hrun. injection Hrun as <- _ _. by left. }
  destruct (cache h !! String.string_of_list_byte path) as [ff|] eqn:Hlook.
  { rewrite (handleRequest_hit h ctx w path ff Hstrip Hnul Hlook) in Hrun.
    destruct (serve ff w) as [[calls0 w0]| |]; [|done..].
    injection Hrun as <- _ _. by left. }
  destruct (openFSFile_returns (root h +:+ String.string_of_list_byte path) w)
    as (r & w1 & Hopen & _).
  rewrite (handleRequest_miss h ctx w path r w1 Hstrip Hnul Hlook Hopen) in Hrun.
  destruct r as [err|ff].
  - destruct (isDirIndexRequired err).
    + destruct (createDirIndex _ _ _) as [[[err'|ff] w2]| |] eqn:Hindex; [|idtac|done..].
      * injection Hrun as <- _ _. by left.
      * right. exists (String.string_of_list_byte path), ff.
        split; [done|]. split; [by eapply insertAndServe_cache|].
        right. eauto.
    + injection Hrun as <- _ _. by left.
  - right. exists (String.string_of_list_byte path), ff.
    split; [done|]. split; [by eapply insertAndServe_cache|].
    left. eauto.
Qed.

End Handler.

Lemma stripPathSlashes_no_strip raw s :
  s <= 0 ->
  exists j, stripPathSlashes raw s = Returns (stripTrailingSlashes (length raw) raw)
            /\ raw = stripTrailingSlashes (length raw) raw ++ replicate j slash.
Proof.
  intros Hs. destruct (stripTrailingSlashes_spec (length raw) raw) as (j & Hj & _); [done|].
  exists j. split; [|done]. unfold stripPathSlashes.
  by replace (Z.to_nat s) with 0%nat by lia.
Qed.

(** C3, as the code has it: the test for a NUL byte is made on the
    normalised path. For every request whose normalised path holds a NUL
    byte, at whatever position, the handler logs the position and answers
    with status 400; it opens nothing, takes no reader and leaves the cache
    as it is. When no segment is stripped (a strip count of zero or less),
    this is every raw path that holds a NUL byte. *)
Theorem handleRequest_rejects_nil_byte `{Platform} (h : fsHandler)
    (ctx : RequestCtx) (w : World) :
  (forall path,
     stripPathSlashes (ctx_Path ctx) (stripSlashes h) = Returns path ->
     NUL ∈ path ->
     0 <= IndexByte path NUL
     /\ handleRequest h ctx w
        = Returns ((h, [Printf (LogNilByte (IndexByte path NUL) path);
                        Error "Are you a hacker?" StatusBadRequest]), w))
  /\ (stripSlashes h <= 0 ->
      NUL ∈ ctx_Path ctx ->
      exists n path,
        handleRequest h ctx w
        = Returns ((h, [Printf (LogNilByte n path);
                        Error "Are you a hacker?" StatusBadRequest]), w)).
Proof.
  split; [intros path; apply handleRequest_path_with_nil|].
  intros Hs Hnul.
  destruct (stripPathSlashes_no_strip (ctx_Path ctx) (stripSlashes h) Hs)
    as (j & Hstrip & Hraw).
  set (path := stripTrailingSlashes (length (ctx_Path ctx)) (ctx_Path ctx)) in *.
  exists (IndexByte path NUL), path.
  apply handleRequest_path_with_nil; [done|].
  rewrite Hraw in Hnul. apply elem_of_app in Hnul as [Hin|Hin]; [done|].
  by apply elem_of_replicate in Hin as [Hin _].
Qed.

Lemma handleRequest_rejects_nil_byte_witness :
  @handleRequest Demo.P64 (FSHandler "/srv" 0)
    (@Build_RequestCtx Demo.P64 Demo.nilInLastSegment (B "/a.txt")) Demo.world
  = Returns ((FSHandler "/srv" 0,
              [Printf (LogNilByte 6 Demo.nilInLastSegment);
               Error "Are you a hacker?" StatusBadRequest]), Demo.world).
Proof.
  destruct (@handleRequest_rejects_nil_byte Demo.P64 (FSHandler "/srv" 0)
              (@Build_RequestCtx Demo.P64 Demo.nilInLastSegment (B "/a.txt"))
              Demo.world) as [Hpath _].
  destruct (Hpath Demo.nilInLastSegment) as [_ Hrun]; [reflexivity| |exact Hrun].
  unfold Demo.nilInLastSegment. apply elem_of_app. right. apply list_elem_of_here.
Defined.

(** C3, as the specification words it, fails: with one segment stripped, a
    NUL byte in the first segment of the raw path is dropped with the
    segment, and the rest of the path is resolved and served. *)
Lemma handleRequest_serves_path_with_nil_byte :
  NUL ∈ Demo.nilInFirstSegment
  /\ match @handleRequest Demo.P64 (FSHandler "/srv" 1)
             (@Build_RequestCtx Demo.P64 Demo.nilInFirstSegment (B "/a.txt"))
             Demo.world with
     | Returns ((h', calls), w') =>
         calls = [SetBodyStream 0 5; SetContentType "text/plain; charset=utf-8"]
         /\ is_Some (cache h' !! "/a.txt")
         /\ length (files w') = 1%nat
     | Panics _ => False
     | OutOfFuel => False
     end.
Proof.
  split.
  - unfold Demo.nilInFirstSegment. apply list_elem_of_further, list_elem_of_here.
  - vm_compute. repeat split. by eexists.
Qed.

(** ** The cache over time *)

(** No descriptor ever gets a time stamp: [openFSFile] and [createDirIndex]
    leave [t] at the zero time and [handleRequest] stores what they
    return. *)
Lemma handleRequest_zero_time `{Platform} h ctx w h' calls w' :
  (forall k ff, cache h !! k = Some ff -> ff_t ff = zeroTime) ->
  handleRequest h ctx w = Returns ((h', calls), w') ->
  forall k ff, cache h' !! k = Some ff -> ff_t ff = zeroTime.
Proof.
  intros Hinv Hrun k ff Hk.
  destruct (handleRequest_cache _ _ _ _ _ _ Hrun)
    as [->|(key & ff' & _ & -> & Hnew)]; [by eapply Hinv|].
  simpl in Hk. destruct (decide (key = k)) as [->|Hne].
  - rewrite lookup_insert_eq in Hk. injection Hk as ->.
    destruct Hnew as [(p & w0 & w1 & Hopen)|(base & p & w0 & w1 & Hindex)].
    + apply openFSFile_resolves, resolves_descriptor in Hopen. tauto.
    + apply createDirIndex_descriptor in Hindex. tauto.
  - rewrite lookup_insert_ne in Hk by done. by eapply Hinv.
Qed.

(** So every sweep empties the cache, however young the entries are. *)
Lemma cleanCache_evicts_all now h w :
  (forall k ff, cache h !! k = Some ff -> ff_t ff = zeroTime) ->
  FSHandlerCacheDuration < now ->
  exists w', cleanCache now h w = Returns (setCache ∅ h, w').
Proof.
  intros Hinv Hnow. destruct (cleanCache_filter now h w) as [w' Hrun].
  exists w'. rewrite Hrun. do 3 f_equal.
  apply map_empty. intros k. apply map_lookup_filter_None.
  destruct (cache h !! k) as [ff|] eqn:Hk; [right|by left].
  intros ff' Hff'. injection Hff' as <-. simpl.
  by rewrite (expired_zeroTime now ff (Hinv _ _ Hk) Hnow).
Qed.

(** C1 fails on the code. A file is requested, and the sweep runs one
    nanosecond after the clock showed 2015-10-01 00:00:00 (the request can
    have come at any moment before, [handleRequest] never reads the clock):
    the entry is stored with the zero time as its [t], and the sweep removes
    it and closes its handle, though it is far younger than
    [FSHandlerCacheDuration]. *)
Theorem cleanCache_evicts_fresh_entry :
  match @handleRequest Demo.P64 (FSHandler "/srv" 0) (Demo.request "/a.txt")
          Demo.world with
  | Returns ((h1, calls), w1) =>
      (exists ff, cache h1 !! "/a.txt" = Some ff
                  /\ ff_t ff = zeroTime /\ ff_f ff = Some 0%nat)
      /\ files w1 !! 0%nat = Some (Demo.file 5 (B "hello"), true)
      /\ match cleanCache (Demo.someday + 1) h1 w1 with
         | Returns (h2, w2) =>
             cache h2 = ∅
             /\ files w2 !! 0%nat = Some (Demo.file 5 (B "hello"), false)
             /\ closeLog w2 = [0%nat]
         | Panics _ => False
         | OutOfFuel => False
         end
  | Panics _ => False
  | OutOfFuel => False
  end.
Proof. vm_compute. split; [by eexists|]. done. Qed.

(** ** Directories *)



(** A directory without [index.html] is answered with its listing. *)
Example handleRequest_lists_directory :
  match @handleRequest Demo.P64 (FSHandler "/srv" 0) (Demo.request "/a.b/")
          Demo.world with
  | Returns ((h', calls), w') =>
      exists ff, cache h' !! "/a.b" = Some ff
                 /\ ff_f ff = None
                 /\ ff_contentType ff = "text/html"
                 /\ calls = [SetBodyStream 0 (ff_contentLength ff);
                             SetContentType "text/html"]
  | Panics _ => False
  | OutOfFuel => False
  end.
Proof. vm_compute. eexists. repeat split. Qed.

(** ** Descriptors *)

(** C9: a descriptor from [openFSFile] holds a handle and no generated
    content; a descriptor from [createDirIndex] holds generated content and
    no handle. A request leaves the descriptors of the cache as they are
    and adds at most one, which satisfies the invariant; a sweep only
    removes descriptors. Readers do not hold descriptors. *)
Theorem descriptor_invariant `{Platform} :
  (forall p w ff w',
     openFSFile p w = Returns (inr ff, w') ->
     is_Some (ff_f ff) /\ ff_dirIndex ff = [] /\ exactlyOne ff)
  /\ (forall base p w ff w',
        createDirIndex base p w = Returns (inr ff, w') ->
        ff_f ff = None /\ ff_dirIndex ff <> [] /\ exactlyOne ff)
  /\ (forall h ctx w h' calls w',
        handleRequest h ctx w = Returns ((h', calls), w') ->
        cache h ⊆ cache h'
        /\ (map_Forall (fun _ ff => exactlyOne ff) (cache h) ->
            map_Forall (fun _ ff => exactlyOne ff) (cache h')))
  /\ (forall t h w,
        exists h' w', cleanCache t h w = Returns (h', w') /\ cache h' ⊆ cache h).
Proof.
  assert (forall p w ff w',
            openFSFile p w = Returns (inr ff, w') ->
            is_Some (ff_f ff) /\ ff_dirIndex ff = [] /\ exactlyOne ff) as Hfile.
  { intros p w ff w' Hopen.
    apply openFSFile_resolves, resolves_descriptor in Hopen
      as (Hnil & _ & f & _ & Hf & _).
    assert (is_Some (ff_f ff)) by (by rewrite Hf).
    split; [done|]. split; [done|]. by left. }
  assert (forall base p w ff w',
            createDirIndex base p w = Returns (inr ff, w') ->
            ff_f ff = None /\ ff_dirIndex ff <> [] /\ exactlyOne ff) as Hlisting.
  { intros base p w ff w' Hindex.
    apply createDirIndex_descriptor in Hindex as (Hf & Hne & _).
    split; [done|]. split; [done|]. by right. }
  split; [done|]. split; [done|]. split.
  - intros h ctx w h' calls w' Hrun.
    destruct (handleRequest_cache _ _ _ _ _ _ Hrun)
      as [->|(key & ff & Hmiss & -> & Hnew)]; [done|].
    simpl. split; [by apply insert_subseteq|].
    intros Hinv. apply map_Forall_insert_2; [|done].
    destruct Hnew as [(p & w0 & w1 & Hopen)|(base & p & w0 & w1 & Hindex)].
    + by apply Hfile in Hopen as (_ & _ & Hone).
    + by apply Hlisting in Hindex as (_ & _ & Hone).
  - intros t h w. destruct (cleanCache_filter t h w) as [w' Hrun].
    eexists _, _. split; [exact Hrun|]. simpl. apply map_filter_subseteq.
Qed.

Lemma descriptor_invariant_witness :
  exactlyOne {| ff_f := Some 0%nat; ff_dirIndex := [];
                ff_contentType := "text/plain; charset=utf-8";
                ff_contentLength := 5; ff_t := zeroTime |}.
Proof.
  destruct (@descriptor_invariant Demo.P64) as (Hfile & _).
  destruct (Hfile "/srv/a.txt" Demo.world
              {| ff_f := Some 0%nat; ff_dirIndex := [];
                 ff_contentType := "text/plain; charset=utf-8";
                 ff_contentLength := 5; ff_t := zeroTime |}
              (opened (Demo.file 5 (B "hello")) Demo.world))
    as (_ & _ & Hone); [reflexivity|exact Hone].
Defined.

(** ** The extension *)

(** C10: the extension is the part of the whole path from its last ['.']
    on, and it is empty when the path has no ['.']; the content type of a
    file is looked up under it. When the last ['.'] is in the name of a
    directory, the extension runs across the slashes after it: for
    ["/a.b/c"] it is [".b/c"]. *)
Theorem fileExtension_last_dot `{Platform} (filePath : string) :
  (~ occurs "."%char filePath -> fileExtension filePath = "")
  /\ (forall pre suf,
        filePath = pre +:+ String "."%char suf ->
        ~ occurs "."%char suf ->
        fileExtension filePath = String "."%char suf)
  /\ fileExtension "/a.b/c" = ".b/c"
  /\ occurs "/"%char (fileExtension "/a.b/c")
  /\ (forall w ino st,
        (String.length filePath <= pathMax w)%nat ->
        fs w filePath = inr ino ->
        i_stat ino = inr st ->
        IsDir st = false ->
        fitsInt (Size st) ->
        exists ff w',
          openFSFile filePath w = Returns (inr ff, w')
          /\ ff_contentType ff = TypeByExtension (fileExtension filePath)).
Proof.
  split; [apply fileExtension_no_dot|].
  split; [intros pre suf ->; apply fileExtension_app|].
  split; [done|]. split; [simpl; tauto|].
  intros w ino st Hlen Hfs Hstat Hdir Hfit.
  rewrite (openFSFile_regular _ _ _ _ Hlen Hfs Hstat Hdir).
  rewrite bool_decide_true by (by apply toInt_fits).
  by eexists _, _.
Qed.

Lemma fileExtension_last_dot_witness :
  fileExtension "/srv/a.b/c" = ".b/c"
  /\ exists ff w',
       @openFSFile Demo.P64 "/srv/a.b/c" Demo.world = Returns (inr ff, w')
       /\ ff_contentType ff = Demo.mimeTypes ".b/c".
Proof.
  destruct (@fileExtension_last_dot Demo.P64 "/srv/a.b/c") as (_ & Hext & _ & _ & Hopen).
  split.
  - apply (Hext "/srv/a" "b/c"); [reflexivity|].
    simpl. intuition discriminate.
  - destruct (Hopen Demo.world (Demo.file 1 (B "c")) {| Size := 1; IsDir := false |})
      as (ff & w' & Hrun & Hct);
      [simpl; lia|reflexivity|reflexivity|reflexivity|unfold fitsInt; simpl; lia|].
    exists ff, w'. split; [exact Hrun|exact Hct].
Defined.

(** * Further properties *)

(** ** The constructor *)

Lemma string_snoc_inv s : s <> "" -> exists s' c, s = s' +:+ String c "".
Proof.
  induction s as [|x s IH]; [done|]. intros _.
  destruct s as [|y s].
  - by exists "", x.
  - destruct IH as (s' & c & Hs); [done|]. exists (String x s'), c.
    by rewrite sapp_cons, <- Hs.
Qed.

Lemma slength_snoc s c : String.length (s +:+ String c "") = S (String.length s).
Proof. rewrite slength_app. simpl. lia. Qed.

Lemma get_snoc s c :
  String.get (String.length (s +:+ String c "") - 1) (s +:+ String c "") = Some c.
Proof.
  rewrite slength_snoc. replace (S (String.length s) - 1)%nat with (String.length s) by lia.
  induction s as [|x s IH]; [done|]. by rewrite sapp_cons.
Qed.

Lemma substring_snoc s c :
  String.substring 0 (String.length (s +:+ String c "") - 1) (s +:+ String c "") = s.
Proof.
  rewrite slength_snoc. replace (S (String.length s) - 1)%nat with (String.length s) by lia.
  induction s as [|x s IH]; [done|]. rewrite sapp_cons. simpl. by rewrite IH.
Qed.

Lemma snoc_inj s1 c1 s2 c2 :
  s1 +:+ String c1 "" = s2 +:+ String c2 "" -> s1 = s2 /\ c1 = c2.
Proof.
  revert s2. induction s1 as [|x s1 IH]; intros [|y s2] Heq.
  - by injection Heq as ->.
  - rewrite sapp_cons in Heq. injection Heq as -> Heq. by destruct s2.
  - rewrite sapp_cons in Heq. injection Heq as -> Heq. by destruct s1.
  - rewrite !sapp_cons in Heq. injection Heq as -> Heq.
    destruct (IH _ Heq) as [-> ->]. done.
Qed.

Lemma trimRoot_spec k root0 :
  (String.length root0 <= k)%nat ->
  exists j, root0 = trimRoot k root0 +:+ slashes j
            /\ ~ endsWith "/"%char (trimRoot k root0).
Proof.
  revert root0. induction k as [|k IH]; intros root0 Hk.
  - destruct root0; [|simpl in Hk; lia]. exists 0%nat.
    split; [done|]. intros [s' Hs']. by destruct s'.
  - simpl. destruct (decide (root0 = "")) as [->|Hne].
    { exists 0%nat. split; [done|]. intros [s' Hs']. by destruct s'. }
    destruct (string_snoc_inv root0 Hne) as (s' & c & ->).
    unfold slen. rewrite slength_snoc.
    destruct (Z.ltb_spec 0 (Z.of_nat (S (String.length s')))) as [_|Hbad]; [|lia].
    rewrite <- (slength_snoc s' c), get_snoc. simpl.
    case_bool_decide as Hc.
    + injection Hc as ->. rewrite substring_snoc.
      destruct (IH s') as (j & Hj & Hend).
      { rewrite slength_snoc in Hk. lia. }
      exists (S j). split; [|done]. rewrite Hj at 1.
      rewrite sapp_assoc. f_equal. clear. induction j as [|j IHj]; [done|].
      simpl. rewrite sapp_cons. by f_equal.
    + exists 0%nat. rewrite sapp_nil_r. split; [done|].
      intros [s'' Hs'']. apply snoc_inj in Hs'' as [_ ->]. done.
Qed.

(** X1: [FSHandler] removes every trailing slash of the root and nothing
    else, and takes ["."] when nothing is left; so the root of a handler is
    never empty and never ends with a slash. A negative strip count becomes
    zero, and the cache starts empty. *)
Theorem FSHandler_normalises (root0 : string) (s : Z) :
  let h := FSHandler root0 s in
  (exists r j,
     root0 = r +:+ slashes j
     /\ ~ endsWith "/"%char r
     /\ root h = if decide (r = "") then "." else r)
  /\ root h <> ""
  /\ ~ endsWith "/"%char (root h)
  /\ stripSlashes h = Z.max 0 s
  /\ cache h = ∅.
Proof.
  intros h.
  destruct (trimRoot_spec (String.length root0) root0) as (j & Hj & Hend); [done|].
  set (r := trimRoot (String.length root0) root0) in *.
  assert (root h = if decide (r = "") then "." else r) as Hroot.
  { unfold h, FSHandler. simpl. fold r. unfold slen.
    destruct (decide (r = "")) as [->|Hne]; [done|].
    destruct r; [done|]. done. }
  split; [by exists r, j|]. split.
  - rewrite Hroot. by destruct (decide (r = "")).
  - split.
    + rewrite Hroot. destruct (decide (r = "")); [|done].
      intros [s' Hs']. apply (snoc_inj "" "."%char s' "/"%char) in Hs' as [_ Hs']. done.
    + split; [|done]. unfold h, FSHandler. simpl.
      destruct (Z.ltb_spec s 0); lia.
Qed.

Example FSHandler_examples :
  root (FSHandler "/var/www///" (-3)) = "/var/www"
  /\ stripSlashes (FSHandler "/var/www///" (-3)) = 0
  /\ root (FSHandler "///" 2) = "."
  /\ root (FSHandler "" 2) = ".".
Proof. repeat split. Qed.

(** ** More on path normalisation *)

Lemma stripLeadingSlashes_suffix k path q :
  stripLeadingSlashes k path = Returns q -> exists pre, path = pre ++ q.
Proof.
  revert path. induction k as [|k IH]; intros path Hrun.
  { injection Hrun as <-. by exists []. }
  destruct path as [|c rest]; [injection Hrun as <-; by exists []|].
  simpl in Hrun. destruct (isSlash c); [|done]. simpl in Hrun.
  destruct (Z.ltb_spec (IndexByte rest slash) 0).
  - injection Hrun as <-. exists (c :: rest). by rewrite app_nil_r.
  - apply IH in Hrun as [pre Hpre].
    exists (take (Z.to_nat (IndexByte rest slash + 1)) (c :: rest) ++ pre).
    rewrite <- app_assoc, <- Hpre. by rewrite take_drop.
Qed.

(** X2: [stripPathSlashes] panics in one case only: a positive strip count
    and a path that is not empty and does not start with a slash. In every
    other case it returns; in particular it returns for every path when the
    strip count is zero or less, and for the empty path. *)
Theorem stripPathSlashes_panics_iff (path : list byte) (s : Z) :
  (stripPathSlashes path s = Panics "BUG: path must start with slash"
   <-> 0 < s /\ exists c rest, path = c :: rest /\ c <> slash)
  /\ (stripPathSlashes path s = Panics "BUG: path must start with slash"
      \/ exists r, stripPathSlashes path s = Returns r).
Proof.
  assert (0 < s /\ (exists c rest, path = c :: rest /\ c <> slash) ->
          stripPathSlashes path s = Panics "BUG: path must start with slash") as Hpanic.
  { intros (Hs & c & rest & -> & Hc). unfold stripPathSlashes.
    destruct (Z.to_nat s) as [|k] eqn:Hk; [lia|]. simpl.
    by rewrite (proj2 (isSlash_false c) Hc). }
  assert (~ (0 < s /\ exists c rest, path = c :: rest /\ c <> slash) ->
          exists r, stripPathSlashes path s = Returns r) as Hreturns.
  { intros Hno. unfold stripPathSlashes.
    destruct (Z.to_nat s) as [|k] eqn:Hk; [by eexists|].
    destruct path as [|c rest]; [by eexists|].
    destruct (decide (c = slash)) as [->|Hc].
    - destruct (segments_join rest) as [Hjoin Hfree].
      rewrite <- Hjoin. rewrite stripLeadingSlashes_join by done. by eexists.
    - destruct Hno. split; [lia|]. by exists c, rest. }
  split.
  - split; [|done]. intros Hrun.
    destruct (decide (0 < s)) as [Hs|Hs].
    + destruct path as [|c rest].
      * destruct Hreturns as [r Hr]; [|congruence]. by intros (_ & c & rest & ? & _).
      * destruct (decide (c = slash)) as [->|Hc]; [|split; [done|by exists c, rest]].
        destruct Hreturns as [r Hr]; [|congruence].
        by intros (_ & c & rest' & [= <- _] & Hc).
    + destruct Hreturns as [r Hr]; [tauto|congruence].
  - destruct (decide (0 < s)) as [Hs|Hs]; [|right; apply Hreturns; tauto].
    destruct path as [|c rest].
    { right. apply Hreturns. by intros (_ & c & rest & ? & _). }
    destruct (decide (c = slash)) as [->|Hc].
    + right. apply Hreturns. by intros (_ & c & rest' & [= <- _] & Hc).
    + left. apply Hpanic. split; [done|]. by exists c, rest.
Qed.

(** X3: what [stripPathSlashes] returns is a piece of the path it was
    given: the path is some prefix, then the result, then slashes only. So
    the result is no longer than the path and holds no byte that the path
    does not hold. *)
Theorem stripPathSlashes_infix (path : list byte) (s : Z) (r : list byte) :
  stripPathSlashes path s = Returns r ->
  (exists pre j, path = pre ++ r ++ replicate j slash)
  /\ (length r <= length path)%nat
  /\ (forall c, c ∈ r -> c ∈ path).
Proof.
  intros Hrun. unfold stripPathSlashes in Hrun.
  destruct (stripLeadingSlashes (Z.to_nat s) path) as [q| |] eqn:Hlead; [|done..].
  simpl in Hrun. injection Hrun as <-.
  destruct (stripLeadingSlashes_suffix _ _ _ Hlead) as [pre Hpre].
  destruct (stripTrailingSlashes_spec (length q) q) as (j & Hj & _); [done|].
  set (r := stripTrailingSlashes (length q) q) in *.
  assert (path = pre ++ r ++ replicate j slash) as Hpath by (by rewrite <- Hj).
  split; [by exists pre, j|]. split.
  - rewrite Hpath, !length_app. lia.
  - intros c Hc. rewrite Hpath. apply elem_of_app. right. apply elem_of_app. by left.
Qed.

Lemma stripPathSlashes_infix_witness :
  (exists pre j, B "/foo/bar//" = pre ++ B "/bar" ++ replicate j slash)
  /\ (length (B "/bar") <= length (B "/foo/bar//"))%nat
  /\ (forall c, c ∈ B "/bar" -> c ∈ B "/foo/bar//").
Proof. apply (stripPathSlashes_infix (B "/foo/bar//") 1 (B "/bar")). reflexivity. Defined.

(** ** More on the extension *)

Lemma last_occurrence c s :
  ~ occurs c s \/ exists pre suf, s = pre +:+ String c suf /\ ~ occurs c suf.
Proof.
  induction s as [|x s IH]; [left; simpl; tauto|].
  destruct IH as [Hno|(pre & suf & -> & Hsuf)].
  - destruct (Ascii.eqb_spec x c) as [->|Hne].
    + right. by exists "", s.
    + left. simpl. tauto.
  - right. by exists (String x pre), suf.
Qed.

(** X4: for every path, [fileExtension] returns a suffix of the path; the
    suffix is empty exactly when the path has no ['.'], and otherwise it
    starts with the only ['.'] it holds. Taking the extension of an
    extension changes nothing. *)
Theorem fileExtension_suffix (path : string) :
  (exists pre, path = pre +:+ fileExtension path)
  /\ (fileExtension path = "" <-> ~ occurs "."%char path)
  /\ (fileExtension path = ""
      \/ exists suf, fileExtension path = String "."%char suf /\ ~ occurs "."%char suf)
  /\ fileExtension (fileExtension path) = fileExtension path.
Proof.
  destruct (last_occurrence "."%char path) as [Hno|(pre & suf & -> & Hsuf)].
  - rewrite (fileExtension_no_dot _ Hno).
    split; [exists path; by rewrite sapp_nil_r|].
    split; [done|]. split; [by left|done].
  - rewrite (fileExtension_app pre suf Hsuf).
    split; [by exists pre|]. split.
    + split; [done|]. intros Hno. destruct Hno.
      apply occurs_app. right. simpl. by left.
    + split; [right; by exists suf|].
      apply (fileExtension_app "" suf Hsuf).
Qed.

Example fileExtension_examples :
  fileExtension "/srv/archive.tar.gz" = ".gz"
  /\ fileExtension "/srv/Makefile" = ""
  /\ fileExtension "/srv/notes." = "."
  /\ fileExtension "/srv/.profile" = ".profile".
Proof. repeat split. Qed.

(** ** Handles that resolution leaves behind *)

Section Handles.
Context `{Platform}.

Lemma resolves_handles p w r w' :
  resolves p w r w' ->
  forall i ino b,
    (length (files w) <= i)%nat ->
    files w' !! i = Some (ino, b) ->
    (b = true <-> exists ff, r = inr ff /\ ff_f ff = Some i).
Proof.
  induction 1 as [p w err Hopen
                 |p w ino err Hlen Hfs Hstat
                 |p w ino st r w' Hlen Hfs Hstat Hdir Hres IH
                 |p w ino st Hlen Hfs Hstat Hdir Hfit
                 |p w ino st Hlen Hfs Hstat Hdir Hfit];
    intros i ino' b Hi Hlook.
  - apply lookup_lt_Some in Hlook. lia.
  - simpl in Hlook. rewrite lookup_app_r in Hlook by done.
    destruct (i - length (files w))%nat; [|done].
    injection Hlook as <- <-. split; [done|]. by intros (ff & ? & _).
  - pose proof (resolves_extends _ _ _ _ Hres) as Hext.
    assert (forall ff, indexResult r = inr ff <-> r = inr ff) as Hsame.
    { intros ff. destruct r as [err|ff']; simpl; [|done].
      by destruct (IsNotExist err). }
    destruct (decide (i = length (files w))) as [->|Hne].
    + assert (files w' !! length (files w) = Some (ino, false)) as Hclosed.
      { eapply extends_lookup; [done|]. simpl.
        rewrite lookup_app_r by done. by rewrite Nat.sub_diag. }
      rewrite Hclosed in Hlook. injection Hlook as <- <-.
      split; [done|]. intros (ff & Hr & Hf). apply Hsame in Hr. subst r.
      destruct (resolves_descriptor _ _ _ _ Hres) as (_ & _ & f & ino' & Hf' & Hopen).
      rewrite Hf in Hf'. injection Hf' as <-. congruence.
    + rewrite (IH i ino' b); [|simpl; rewrite length_app; simpl; lia|done].
      split; intros (ff & Hr & Hf); exists ff; (split; [by apply Hsame|done]).
  - simpl in Hlook. rewrite lookup_app_r in Hlook by done.
    destruct (i - length (files w))%nat eqn:Hd; [|done].
    injection Hlook as <- <-. split; [intros _|done].
    eexists. split; [done|]. simpl. f_equal. lia.
  - simpl in Hlook. rewrite lookup_app_r in Hlook by done.
    destruct (i - length (files w))%nat; [|done].
    injection Hlook as <- <-. split; [done|]. by intros (ff & ? & _).
Qed.

(** X5: [openFSFile] always returns, and it leaks no handle: files that were
    open before are as they were, and of the handles it has opened itself
    the only one still open at the end is the handle of the descriptor it
    returns. After a failure every handle it has opened is closed. It
    touches neither the readers nor the pool. *)
Theorem openFSFile_leaks_no_handle (p : string) (w : World) :
  exists r w',
    openFSFile p w = Returns (r, w')
    /\ extends w w'
    /\ (forall i x, files w !! i = Some x -> files w' !! i = Some x)
    /\ (forall i ino b,
          (length (files w) <= i)%nat ->
          files w' !! i = Some (ino, b) ->
          (b = true <-> exists ff, r = inr ff /\ ff_f ff = Some i)).
Proof.
  destruct (openFSFile_returns p w) as (r & w' & Hrun & _).
  pose proof (openFSFile_resolves _ _ _ _ Hrun) as Hres.
  pose proof (resolves_extends _ _ _ _ Hres) as Hext.
  exists r, w'. split; [done|]. split; [done|].
  split; [intros i x; by apply extends_lookup|].
  by apply (resolves_handles p).
Qed.

(** X6: [createDirIndex] always returns and leaves no handle open. When the
    directory cannot be opened, the error of [os.Open] is returned and
    nothing has changed; otherwise the handle is closed again, and the call
    fails exactly when the names cannot be read. *)
Theorem createDirIndex_leaks_no_handle (base : URI) (p : string) (w : World) :
  exists r w',
    createDirIndex base p w = Returns (r, w')
    /\ ((w' = w /\ exists err, r = inl err /\ os_Open p w = Returns (inl err, w))
        \/ (exists ino,
              os_Open p w = Returns (inr (length (files w)), opened ino w)
              /\ w' = openedClosed ino w
              /\ files w' !! length (files w) = Some (ino, false)
              /\ match i_names ino with
                 | inl err => r = inl err
                 | inr _ => exists ff, r = inr ff /\ ff_f ff = None
                 end)).
Proof.
  destruct (Nat.ltb_spec (pathMax w) (String.length p)) as [Hlong|Hshort].
  { destruct (os_Open_error p w) as [err Herr]; [by left|].
    exists (inl err), w. split; [by apply createDirIndex_open_error|].
    left. split; [done|]. by exists err. }
  destruct (fs w p) as [err|ino] eqn:Hfs.
  { destruct (os_Open_error p w) as [err' Herr]; [right; eauto|].
    exists (inl err'), w. split; [by apply createDirIndex_open_error|].
    left. split; [done|]. by exists err'. }
  rewrite (createDirIndex_opened base p w ino Hshort Hfs).
  assert (files (openedClosed ino w) !! length (files w) = Some (ino, false)) as Hclosed.
  { simpl. rewrite lookup_app_r by done. by rewrite Nat.sub_diag. }
  destruct (i_names ino) as [err|names] eqn:Hnames.
  - eexists _, _. split; [done|]. right. exists ino.
    split; [by apply os_Open_opened|]. split; [done|]. split; [done|].
    by rewrite Hnames.
  - eexists _, _. split; [done|]. right. exists ino.
    split; [by apply os_Open_opened|]. split; [done|]. split; [done|].
    rewrite Hnames. by eexists.
Qed.

End Handles.

(** A directory named [index.html] inside a directory named [index.html]:
    resolution goes down two levels, opens three handles and closes the two
    directories. *)
Example openFSFile_nested_index :
  let tree p :=
    if String.eqb p "/d" then inr (Demo.dir ["index.html"])
    else if String.eqb p "/d/index.html" then inr (Demo.dir ["index.html"])
    else if String.eqb p "/d/index.html/index.html" then inr (Demo.file 2 (B "ok"))
    else inl (PathError ENOENT) in
  let w := {| pathMax := 64; fs := tree; files := []; closeLog := [];
              readers := []; pool := []; poolChoices := [] |} in
  match @openFSFile Demo.P64 "/d" w with
  | Returns (inr ff, w') =>
      ff_f ff = Some 2%nat /\ snd <$> files w' = [false; false; true]
      /\ closeLog w' = [1%nat; 0%nat]
  | _ => False
  end.
Proof. vm_compute. done. Qed.

(** ** What a sweep does to the world *)

Lemma closeIf_false x : closeIf false x = x.
Proof. destruct x as [ino b]. unfold closeIf. simpl. by rewrite andb_true_r. Qed.

Lemma closeIf_closeIf b1 b2 x : closeIf b2 (closeIf b1 x) = closeIf (b1 || b2) x.
Proof.
  destruct x as [ino b]. unfold closeIf. simpl. f_equal.
  by destruct b, b1, b2.
Qed.

Lemma isOpen_closeIf w w1 f b :
  files w1 !! f = closeIf b <$> files w !! f ->
  isOpen w1 f = isOpen w f && negb b.
Proof.
  unfold isOpen. intros ->. destruct (files w !! f) as [[ino [|]]|]; simpl; [|done..].
  by destruct b.
Qed.

Lemma File_Close_world f w :
  exists w1,
    File_Close f w = Returns (tt, w1)
    /\ pathMax w1 = pathMax w /\ fs w1 = fs w
    /\ readers w1 = readers w /\ pool w1 = pool w
    /\ length (files w1) = length (files w)
    /\ (forall g, files w1 !! g = closeIf (bool_decide (f = g)) <$> files w !! g)
    /\ closeLog w1 = (if isOpen w f then [f] else []) ++ closeLog w.
Proof.
  unfold File_Close, isOpen.
  destruct (files w !! f) as [[ino [|]]|] eqn:Hf.
  - eexists. split; [done|]. simpl. repeat split; [by rewrite length_insert|].
    intros g. case_bool_decide as Hg.
    + subst g. rewrite list_lookup_insert_eq by (by eapply lookup_lt_Some).
      by rewrite Hf.
    + rewrite list_lookup_insert_ne by done.
      destruct (files w !! g) as [x|]; [|done]. simpl. by rewrite closeIf_false.
  - exists w. repeat split. intros g. case_bool_decide as Hg.
    + subst g. by rewrite Hf.
    + destruct (files w !! g) as [x|]; [|done]. simpl. by rewrite closeIf_false.
  - exists w. repeat split. intros g. case_bool_decide as Hg.
    + subst g. by rewrite Hf.
    + destruct (files w !! g) as [x|]; [|done]. simpl. by rewrite closeIf_false.
Qed.

Lemma cleanEntry_world t c w k v :
  let w1 := (cleanEntry t (c, w) (k, v)).2 in
  pathMax w1 = pathMax w /\ fs w1 = fs w
  /\ readers w1 = readers w /\ pool w1 = pool w
  /\ length (files w1) = length (files w)
  /\ (forall g, files w1 !! g
                = closeIf (expired t v && bool_decide (ff_f v = Some g)) <$> files w !! g)
  /\ exists cl, closeLog w1 = cl ++ closeLog w /\ NoDup cl
                /\ forall f, f ∈ cl <-> (expired t v && bool_decide (ff_f v = Some f)) = true
                                        /\ isOpen w f = true.
Proof.
  unfold cleanEntry. fold (expired t v).
  assert (forall g, files w !! g = closeIf false <$> files w !! g) as Hsame.
  { intros g. destruct (files w !! g) as [x|]; [|done]. simpl. by rewrite closeIf_false. }
  destruct (expired t v) eqn:Hexp; simpl.
  - destruct (ff_f v) as [f0|] eqn:Hf0.
    + destruct (File_Close_world f0 w)
        as (w1 & Hrun & Hpm & Hfs & Hrd & Hpool & Hlen & Hfiles & Hlog).
      rewrite Hrun. repeat split; try done.
      * intros g. rewrite Hfiles. do 2 f_equal.
        apply bool_decide_ext. split; congruence.
      * exists (if isOpen w f0 then [f0] else []). split; [done|].
        split; [destruct (isOpen w f0); [apply NoDup_singleton|apply NoDup_nil_2]|].
        intros f. rewrite bool_decide_eq_true.
        destruct (isOpen w f0) eqn:Hopen.
        -- rewrite list_elem_of_singleton. split; [by intros ->|].
           by intros [[= ->] _].
        -- rewrite elem_of_nil. split; [done|]. intros [[= ->] Hf]. congruence.
    + repeat split; try done. exists []. split; [done|].
      split; [apply NoDup_nil_2|]. intros f. rewrite elem_of_nil.
      rewrite bool_decide_eq_true. split; [done|]. by intros [? _].
  - repeat split; try done. exists []. split; [done|].
    split; [apply NoDup_nil_2|]. intros f. rewrite elem_of_nil. split; [done|].
    by intros [? _].
Qed.

Lemma foldl_cleanEntry_world t l c w :
  let w' := (foldl (cleanEntry t) (c, w) l).2 in
  pathMax w' = pathMax w /\ fs w' = fs w
  /\ readers w' = readers w /\ pool w' = pool w
  /\ length (files w') = length (files w)
  /\ (forall g, files w' !! g = closeIf (sweeps t l g) <$> files w !! g)
  /\ exists cl, closeLog w' = cl ++ closeLog w /\ NoDup cl
                /\ forall f, f ∈ cl <-> sweeps t l f = true /\ isOpen w f = true.
Proof.
  revert c w. induction l as [|[k v] l IH]; intros c w.
  { simpl. repeat split.
    - intros g. destruct (files w !! g) as [x|]; [|done]. simpl. by rewrite closeIf_false.
    - exists []. split; [done|]. split; [apply NoDup_nil_2|].
      intros f. rewrite elem_of_nil. split; [done|]. by intros [? _]. }
  cbn [foldl].
  pose proof (cleanEntry_world t c w k v) as Hstep.
  destruct (cleanEntry t (c, w) (k, v)) as [c1 w1]. simpl in Hstep.
  destruct Hstep as (Hpm & Hfs & Hrd & Hpool & Hlen & Hfiles & cl0 & Hlog & Hnd & Hin).
  destruct (IH c1 w1) as (Hpm' & Hfs' & Hrd' & Hpool' & Hlen' & Hfiles' & cl' & Hlog' & Hnd' & Hin').
  set (b0 := fun g => expired t v && bool_decide (ff_f v = Some g)) in *.
  assert (forall g, sweeps t ((k, v) :: l) g = b0 g || sweeps t l g) as Hsweeps by done.
  split; [congruence|]. split; [congruence|]. split; [congruence|].
  split; [congruence|]. split; [congruence|]. split.
  - intros g. rewrite Hfiles', Hfiles, Hsweeps.
    destruct (files w !! g) as [x|]; [|done]. simpl. by rewrite closeIf_closeIf.
  - exists (cl' ++ cl0). split; [by rewrite Hlog', Hlog, app_assoc|].
    assert (forall f, isOpen w1 f = isOpen w f && negb (b0 f)) as Hopen1.
    { intros f. by apply isOpen_closeIf. }
    split.
    + apply NoDup_app. split; [done|]. split; [|done].
      intros f Hf' Hf0. apply Hin' in Hf' as [_ Hopen]. apply Hin in Hf0 as [Hb _].
      rewrite Hopen1 in Hopen. fold (b0 f) in Hb. rewrite Hb in Hopen.
      by destruct (isOpen w f).
    + intros f. rewrite elem_of_app, Hin', Hin, Hsweeps, Hopen1. fold (b0 f).
      destruct (b0 f), (sweeps t l f), (isOpen w f); simpl; tauto.
Qed.

Lemma sweeps_map_to_list t (m : gmap string fsFile) f :
  sweeps t (map_to_list m) f = true
  <-> exists k v, m !! k = Some v /\ expired t v = true /\ ff_f v = Some f.
Proof.
  unfold sweeps. rewrite existsb_exists. split.
  - intros ([k v] & Hin & Hb). apply list_elem_of_In, elem_of_map_to_list in Hin.
    apply andb_true_iff in Hb as [Hexp Hf]. apply bool_decide_eq_true in Hf.
    by exists k, v.
  - intros (k & v & Hk & Hexp & Hf). exists (k, v).
    split; [by apply list_elem_of_In, elem_of_map_to_list|].
    simpl. rewrite Hexp. simpl. by apply bool_decide_eq_true.
Qed.

Lemma cleanCache_run t h w :
  cleanCache t h w
  = Returns (setCache (filter (fun kv => expired t kv.2 = false) (cache h)) h,
             (foldl (cleanEntry t) (cache h, w) (map_to_list (cache h))).2).
Proof.
  destruct (cleanCache_filter t h w) as [w' Hrun]. rewrite Hrun.
  unfold cleanCache in Hrun.
  destruct (foldl (cleanEntry t) (cache h, w) (map_to_list (cache h))) as [c w0].
  by injection Hrun as _ ->.
Qed.

(** X7: a sweep at time [t] always returns, and it removes exactly the
    entries with [t - v.t > FSHandlerCacheDuration]; the others stay as they
    are. It closes exactly the open files that the removed entries hold,
    each of them once, and leaves every other file, the readers and the
    pool as they are. *)
Theorem cleanCache_sweep (t : time_Time) (h : fsHandler) (w : World) :
  exists h' w',
    cleanCache t h w = Returns (h', w')
    /\ root h' = root h /\ stripSlashes h' = stripSlashes h
    /\ (forall k, cache h' !! k
                  = match cache h !! k with
                    | Some v => if FSHandlerCacheDuration <? time_Sub t (ff_t v)
                                then None else Some v
                    | None => None
                    end)
    /\ readers w' = readers w /\ pool w' = pool w
    /\ length (files w') = length (files w)
    /\ (forall f ino b,
          files w !! f = Some (ino, b) ->
          (exists k v, cache h !! k = Some v /\ expired t v = true /\ ff_f v = Some f) ->
          files w' !! f = Some (ino, false))
    /\ (forall f,
          (forall k v, cache h !! k = Some v -> expired t v = true -> ff_f v <> Some f) ->
          files w' !! f = files w !! f)
    /\ exists cl,
         closeLog w' = cl ++ closeLog w /\ NoDup cl
         /\ forall f, f ∈ cl
                      <-> isOpen w f = true
                          /\ exists k v, cache h !! k = Some v /\ expired t v = true
                                         /\ ff_f v = Some f.
Proof.
  eexists _, _. split; [apply cleanCache_run|].
  destruct (foldl_cleanEntry_world t (map_to_list (cache h)) (cache h) w)
    as (_ & _ & Hrd & Hpool & Hlen & Hfiles & cl & Hlog & Hnd & Hin).
  split; [done|]. split; [done|]. split.
  { intros k. simpl. fold (expired t).
    destruct (cache h !! k) as [v|] eqn:Hk.
    - fold (expired t v). destruct (expired t v) eqn:Hexp.
      + apply map_lookup_filter_None. right. intros v' Hv'. simpl.
        rewrite Hk in Hv'. injection Hv' as <-. by rewrite Hexp.
      + by apply map_lookup_filter_Some.
    - apply map_lookup_filter_None. by left. }
  split; [done|]. split; [done|]. split; [done|]. split.
  { intros f ino b Hf Hsw. apply sweeps_map_to_list in Hsw.
    rewrite Hfiles, Hf, Hsw. unfold closeIf. simpl. by rewrite andb_false_r. }
  split.
  { intros f Hno. rewrite Hfiles.
    assert (sweeps t (map_to_list (cache h)) f = false) as ->.
    { destruct (sweeps t (map_to_list (cache h)) f) eqn:Hsw; [|done].
      apply sweeps_map_to_list in Hsw as (k & v & Hk & Hexp & Hf).
      by destruct (Hno k v Hk Hexp). }
    destruct (files w !! f) as [x|]; [|done]. simpl. by rewrite closeIf_false. }
  exists cl. split; [done|]. split; [done|].
  intros f. rewrite Hin, sweeps_map_to_list. tauto.
Qed.

(** X8: a sweep does not wait for the readers. When it removes an entry
    whose file a cursor is still bound to, the next [Read] of that cursor
    into a buffer with room delivers nothing and returns the error of a
    closed file; the offset stays where it was. A buffer without room sees
    nothing of this: no byte and no error, as on an open file. *)
Theorem Read_after_sweep (t : time_Time) (h : fsHandler) (w : World)
    (k : string) (v : fsFile) (f r : nat) (rd : fsFileReader) (p : list byte) :
  cache h !! k = Some v ->
  expired t v = true ->
  ff_f v = Some f ->
  is_Some (files w !! f) ->
  readers w !! r = Some rd ->
  r_f rd = Some f ->
  0 <= r_offset rd <= maxInt64 ->
  exists h' w' w'',
    cleanCache t h w = Returns (h', w')
    /\ cache h' !! k = None
    /\ Read r p w'
       = Returns ((p, 0, match p with
                         | [] => None
                         | _ :: _ => Some (PathError EBADF)
                         end), w'')
    /\ readers w'' !! r = Some rd.
Proof.
  intros Hk Hexp Hf [[ino b] Hfile] Hr Hrf Hoff.
  eexists _, _, _. split; [apply cleanCache_run|].
  destruct (foldl_cleanEntry_world t (map_to_list (cache h)) (cache h) w)
    as (_ & _ & Hrd & _ & _ & Hfiles & _).
  set (w' := (foldl (cleanEntry t) (cache h, w) (map_to_list (cache h))).2) in *.
  assert (files w' !! f = Some (ino, false)) as Hclosed.
  { rewrite Hfiles, Hfile.
    assert (sweeps t (map_to_list (cache h)) f = true) as ->
      by (apply sweeps_map_to_list; eauto).
    unfold closeIf. simpl. by rewrite andb_false_r. }
  split.
  { simpl. apply map_lookup_filter_None. right. intros v' Hv'. simpl.
    rewrite Hk in Hv'. injection Hv' as <-. by rewrite Hexp. }
  assert (readers w' !! r = Some rd) as Hr' by (by rewrite Hrd).
  assert (File_ReadAt f p (r_offset rd) w'
          = Returns ((p, 0, match p with
                            | [] => None
                            | _ :: _ => Some (PathError EBADF)
                            end), w')) as Hread.
  { unfold File_ReadAt. destruct (Z.ltb_spec (r_offset rd) 0); [lia|].
    destruct p; [done|]. by rewrite Hclosed. }
  unfold Read. rewrite (bind_Returns _ _ _ _ _ (getReader_Some _ _ _ Hr')).
  rewrite Hrf. rewrite (bind_Returns _ _ _ _ _ Hread).
  unfold mbind, M_bind, putReader, mret, M_ret. split; [done|].
  unfold setReaders. cbn [readers].
  rewrite list_lookup_insert_eq by (by eapply lookup_lt_Some).
  rewrite Z.add_0_r, wrapInt64_small by (unfold minInt64, maxInt64 in *; lia).
  by destruct rd; simpl in *; subst.
Qed.

Lemma Read_after_sweep_witness :
  exists h' w' w'',
    cleanCache Demo.someday Demo.handlerWithFile Demo.worldWithFile = Returns (h', w')
    /\ cache h' !! "/a.txt" = None
    /\ Read 0 (B "...") w' = Returns ((B "...", 0, Some (PathError EBADF)), w'')
    /\ readers w'' !! 0%nat = Some Demo.cursorOnFile.
Proof.
  apply (Read_after_sweep Demo.someday Demo.handlerWithFile Demo.worldWithFile
           "/a.txt" Demo.cachedFile 0 0 Demo.cursorOnFile (B "..."));
    [reflexivity|reflexivity|reflexivity|by eexists|reflexivity|reflexivity|].
  unfold maxInt64. simpl. lia.
Defined.

(** ** Every way through a request *)

(** The ways through [Reader], by what the pool hands out. *)
Lemma Reader_cases ff w :
  exists v w0,
    Pool_Get w = Returns (v, w0)
    /\ Reader ff w
       = match v with
         | None =>
             Returns (length (readers w),
                      setReaders (readers w
                                  ++ [{| r_f := ff_f ff; r_dirIndex := ff_dirIndex ff;
                                         r_offset := 0;
                                         r_v := Some (length (readers w)) |}]) w0)
         | Some r =>
             match readers w !! r with
             | None => Panics "invalid memory address or nil pointer dereference"
             | Some rd =>
                 if 0 <? r_offset rd
                 then Panics "BUG: fsFileReader with non-nil offset found in the pool"
                 else Returns (r, setReaders
                                    (<[r := {| r_f := ff_f ff;
                                               r_dirIndex := ff_dirIndex ff;
                                               r_offset := r_offset rd;
                                               r_v := r_v rd |}]> (readers w)) w0)
             end
         end.
Proof.
  destruct (Pool_Get_returns w) as (v & w0 & Hget). exists v, w0. split; [done|].
  destruct (Pool_Get_world _ _ _ Hget) as (_ & _ & _ & _ & Hrs).
  unfold Reader. rewrite (bind_Returns _ _ _ _ _ Hget). rewrite <- Hrs.
  destruct v as [r|]; [|done].
  unfold mbind, M_bind, getReader.
  destruct (readers w0 !! r) as [rd|]; [|done].
  unfold putReader, panic, mret, M_ret. by destruct (0 <? r_offset rd).
Qed.

Lemma Reader_frame ff w r w' :
  Reader ff w = Returns (r, w') ->
  files w' = files w /\ closeLog w' = closeLog w
  /\ fs w' = fs w /\ pathMax w' = pathMax w.
Proof.
  destruct (Reader_cases ff w) as (v & w0 & Hget & ->).
  destruct (Pool_Get_world _ _ _ Hget) as (Hp & Hfs & Hfl & Hcl & _).
  destruct v as [r0|].
  - destruct (readers w !! r0) as [rd|]; [|done].
    destruct (0 <? r_offset rd); [done|]. by intros [= <- <-].
  - by intros [= <- <-].
Qed.

Lemma serve_inv ff w calls w' :
  serve ff w = Returns (calls, w') ->
  exists r,
    Reader ff w = Returns (r, w')
    /\ calls = [SetBodyStream r (ff_contentLength ff); SetContentType (ff_contentType ff)].
Proof.
  unfold serve, mbind, M_bind, mret, M_ret.
  destruct (Reader ff w) as [[r w0]| |]; [|done..].
  intros [= <- <-]. by exists r.
Qed.

Section Requests.
Context `{Platform}.

Lemma insertAndServe_inv h key ff w h' calls w' :
  insertAndServe h key ff w = Returns ((h', calls), w') ->
  h' = setCache (<[key := ff]> (cache h)) h /\ serve ff w = Returns (calls, w').
Proof.
  unfold insertAndServe, mbind, M_bind, mret, M_ret. intros Hrun.
  destruct (serve ff w) as [[calls0 w0]| |]; [|done..].
  by injection Hrun as <- <- <-.
Qed.

Lemma handleRequest_cases h ctx w h' calls w' :
  handleRequest h ctx w = Returns ((h', calls), w') ->
  exists path,
    stripPathSlashes (ctx_Path ctx) (stripSlashes h) = Returns path
    /\ let key := String.string_of_list_byte path in
       let filePath := root h +:+ key in
       (NUL ∈ path /\ h' = h /\ w' = w
        /\ calls = [Printf (LogNilByte (IndexByte path NUL) path);
                    Error "Are you a hacker?" StatusBadRequest])
       \/ ((NUL ∉ path) /\ exists ff,
             cache h !! key = Some ff /\ h' = h /\ serve ff w = Returns (calls, w'))
       \/ ((NUL ∉ path) /\ cache h !! key = None /\ exists r w1,
             openFSFile filePath w = Returns (r, w1)
             /\ match r with
                | inr ff =>
                    h' = setCache (<[key := ff]> (cache h)) h
                    /\ serve ff w1 = Returns (calls, w')
                | inl err =>
                    if isDirIndexRequired err then
                      exists r2 w2,
                        createDirIndex (ctx_URI ctx) filePath w1 = Returns (r2, w2)
                        /\ match r2 with
                           | inr ff =>
                               h' = setCache (<[key := ff]> (cache h)) h
                               /\ serve ff w2 = Returns (calls, w')
                           | inl err2 =>
                               h' = h /\ w' = w2
                               /\ calls = [Printf (LogCannotCreateIndex filePath err2);
                                           Error "Cannot create directory index"
                                                 StatusNotFound]
                           end
                    else
                      h' = h /\ w' = w1
                      /\ calls = [Printf (LogCannotOpen filePath err);
                                  Error "Cannot open requested path" StatusNotFound]
                end).
Proof.
  intros Hrun.
  destruct (stripPathSlashes (ctx_Path ctx) (stripSlashes h)) as [path| |] eqn:Hstrip;
    [|unfold handleRequest, mbind, M_bind, lift in Hrun; by rewrite Hstrip in Hrun..].
  exists path. split; [done|]. intros key filePath.
  destruct (decide (NUL ∈ path)) as [Hnul|Hnul].
  { destruct (handleRequest_path_with_nil h ctx w path Hstrip Hnul) as [_ Hbad].
    rewrite Hbad in Hrun. injection Hrun as <- <- <-. by left. }
  right. destruct (cache h !! key) as [ff|] eqn:Hlook.
  { left. split; [done|]. exists ff.
    rewrite (handleRequest_hit h ctx w path ff Hstrip Hnul Hlook) in Hrun.
    destruct (serve ff w) as [[calls0 w0]| |]; [|done..].
    by injection Hrun as <- <- <-. }
  right. split; [done|]. split; [done|].
  destruct (openFSFile_returns filePath w) as (r & w1 & Hopen & _).
  exists r, w1. split; [done|].
  rewrite (handleRequest_miss h ctx w path r w1 Hstrip Hnul Hlook Hopen) in Hrun.
  fold key filePath in Hrun.
  destruct r as [err|ff]; [|by apply insertAndServe_inv].
  destruct (isDirIndexRequired err); [|by injection Hrun as <- <- <-].
  destruct (createDirIndex (ctx_URI ctx) filePath w1) as [[r2 w2]| |]; [|done..].
  exists r2, w2. split; [done|].
  destruct r2 as [err2|ff]; [by injection Hrun as <- <- <-|by apply insertAndServe_inv].
Qed.

End Requests.

Lemma Reader_bound ff w r w' :
  Reader ff w = Returns (r, w') ->
  exists rd, readers w' !! r = Some rd
             /\ r_f rd = ff_f ff /\ r_dirIndex rd = ff_dirIndex ff
             /\ r_offset rd <= 0.
Proof.
  destruct (Reader_cases ff w) as (v & w0 & Hget & ->).
  destruct v as [r0|].
  - destruct (readers w !! r0) as [rd|] eqn:Hr0; [|done].
    destruct (Z.ltb_spec 0 (r_offset rd)); [done|]. intros [= <- <-].
    eexists. simpl. split.
    + apply list_lookup_insert_eq. by eapply lookup_lt_Some.
    + done.
  - intros [= <- <-]. eexists. simpl. split.
    + rewrite lookup_app_r by done. by rewrite Nat.sub_diag.
    + done.
Qed.

Lemma Reader_returns ff w : poolReady w -> exists r w', Reader ff w = Returns (r, w').
Proof.
  intros Hready. destruct (Reader_cases ff w) as (v & w0 & Hget & ->).
  destruct v as [r0|]; [|by eexists _, _].
  destruct (Hready _ _ Hget) as (rd & -> & Hoff).
  destruct (Z.ltb_spec 0 (r_offset rd)); [lia|]. by eexists _, _.
Qed.

Section Outcomes.
Context `{Platform}.

Lemma createDirIndex_world base p w r w' :
  createDirIndex base p w = Returns (r, w') ->
  w' = w \/ exists ino, w' = openedClosed ino w.
Proof.
  intros Hrun.
  destruct (Nat.ltb_spec (pathMax w) (String.length p)) as [Hlong|Hshort].
  { destruct (os_Open_error p w) as [err Herr]; [by left|].
    rewrite (createDirIndex_open_error _ _ _ _ Herr) in Hrun.
    injection Hrun as _ <-. by left. }
  destruct (fs w p) as [err|ino] eqn:Hfs.
  { destruct (os_Open_error p w) as [err' Herr]; [right; eauto|].
    rewrite (createDirIndex_open_error _ _ _ _ Herr) in Hrun.
    injection Hrun as _ <-. by left. }
  rewrite (createDirIndex_opened _ _ _ _ Hshort Hfs) in Hrun.
  right. exists ino. by destruct (i_names ino); injection Hrun as _ <-.
Qed.

Lemma createDirIndex_returns base p w :
  exists r w', createDirIndex base p w = Returns (r, w').
Proof.
  destruct (Nat.ltb_spec (pathMax w) (String.length p)) as [Hlong|Hshort].
  { destruct (os_Open_error p w) as [err Herr]; [by left|].
    eexists _, _. by apply createDirIndex_open_error. }
  destruct (fs w p) as [err|ino] eqn:Hfs.
  { destruct (os_Open_error p w) as [err' Herr]; [right; eauto|].
    eexists _, _. by apply createDirIndex_open_error. }
  rewrite (createDirIndex_opened _ _ _ _ Hshort Hfs).
  destruct (i_names ino); by eexists _, _.
Qed.

(** X9: a request that returns has exactly one of three outcomes. Status
    400 with a log entry, and nothing touched. Status 404 with a log entry:
    then the cache is as it was (failures are not remembered), and every
    file opened on the way is closed again. Or a body stream with the
    length and the content type of the descriptor that is now in the cache
    under the normalised path, read through a cursor bound to that
    descriptor; the entries the cache had are as they were. *)
Theorem handleRequest_outcomes (h : fsHandler) (ctx : RequestCtx) (w : World)
    (h' : fsHandler) (calls : list ctxCall) (w' : World) :
  handleRequest h ctx w = Returns ((h', calls), w') ->
  (exists n path,
     calls = [Printf (LogNilByte n path); Error "Are you a hacker?" StatusBadRequest]
     /\ h' = h /\ w' = w)
  \/ (exists m msg,
        calls = [Printf m; Error msg StatusNotFound]
        /\ h' = h
        /\ readers w' = readers w /\ pool w' = pool w
        /\ (forall i x, files w !! i = Some x -> files w' !! i = Some x)
        /\ (forall i ino b, (length (files w) <= i)%nat ->
                            files w' !! i = Some (ino, b) -> b = false))
  \/ (exists path ff r rd,
        stripPathSlashes (ctx_Path ctx) (stripSlashes h) = Returns path
        /\ calls = [SetBodyStream r (ff_contentLength ff);
                    SetContentType (ff_contentType ff)]
        /\ cache h' !! String.string_of_list_byte path = Some ff
        /\ cache h ⊆ cache h'
        /\ readers w' !! r = Some rd
        /\ r_f rd = ff_f ff /\ r_dirIndex rd = ff_dirIndex ff).
Proof.
  intros Hrun.
  destruct (handleRequest_cases _ _ _ _ _ _ Hrun) as (path & Hstrip & Hcases).
  cbv zeta in Hcases.
  set (key := String.string_of_list_byte path) in *.
  assert (forall ff w0 hh,
            serve ff w0 = Returns (calls, w') ->
            cache hh !! key = Some ff -> cache h ⊆ cache hh -> h' = hh ->
            exists path ff r rd,
              stripPathSlashes (ctx_Path ctx) (stripSlashes h) = Returns path
              /\ calls = [SetBodyStream r (ff_contentLength ff);
                          SetContentType (ff_contentType ff)]
              /\ cache h' !! String.string_of_list_byte path = Some ff
              /\ cache h ⊆ cache h'
              /\ readers w' !! r = Some rd
              /\ r_f rd = ff_f ff /\ r_dirIndex rd = ff_dirIndex ff) as Hserved.
  { intros ff w0 hh Hserve Hlook Hsub ->.
    apply serve_inv in Hserve as (r & Hreader & ->).
    destruct (Reader_bound _ _ _ _ Hreader) as (rd & Hrd & Hf & Hd & _).
    by exists path, ff, r, rd. }
  destruct Hcases as [(Hnul & -> & -> & ->)
                     |[(Hnul & ff & Hlook & -> & Hserve)
                      |(Hnul & Hmiss & r & w1 & Hopen & Hr)]].
  - left. by eexists _, _.
  - right. right. by apply (Hserved ff w h).
  - pose proof (openFSFile_resolves _ _ _ _ Hopen) as Hres.
    pose proof (resolves_extends _ _ _ _ Hres) as Hext.
    pose proof (resolves_handles _ _ _ _ Hres) as Hhandles.
    destruct r as [err|ff].
    + assert (forall i ino b, (length (files w) <= i)%nat ->
                              files w1 !! i = Some (ino, b) -> b = false) as Hclosed1.
      { intros i ino b Hi Hlook. destruct b; [|done].
        destruct (proj1 (Hhandles i ino true Hi Hlook) eq_refl) as (ff & ? & _). done. }
      destruct Hext as (_ & _ & [l Hl] & _ & Hrd & Hpool & _).
      destruct (isDirIndexRequired err).
      * destruct Hr as (r2 & w2 & Hindex & Hr2).
        destruct r2 as [err2|ff].
        -- destruct Hr2 as (-> & -> & ->). right. left.
           eexists _, _. split; [done|]. split; [done|].
           destruct (createDirIndex_world _ _ _ _ _ Hindex) as [->|[ino ->]].
           ++ split; [done|]. split; [done|].
              split; [|done]. intros i x Hi. rewrite Hl. by apply lookup_app_l_Some.
           ++ simpl. split; [done|]. split; [done|]. split.
              ** intros i x Hi. apply lookup_app_l_Some. rewrite Hl.
                 by apply lookup_app_l_Some.
              ** intros i ino' b Hi Hlook.
                 destruct (decide (i < length (files w1))%nat) as [Hlt|Hge].
                 --- rewrite lookup_app_l in Hlook by done. by eapply Hclosed1.
                 --- rewrite lookup_app_r in Hlook by lia.
                     destruct (i - length (files w1))%nat; [|done].
                     by injection Hlook as _ <-.
        -- destruct Hr2 as [-> Hserve]. right. right.
           apply (Hserved ff w2 (setCache (<[key:=ff]> (cache h)) h));
             [done|simpl; apply lookup_insert_eq|by apply insert_subseteq|done].
      * destruct Hr as (-> & -> & ->). right. left.
        eexists _, _. split; [done|]. split; [done|]. split; [done|]. split; [done|].
        split; [|done]. intros i x Hi. rewrite Hl. by apply lookup_app_l_Some.
    + destruct Hr as [-> Hserve]. right. right.
      apply (Hserved ff w1 (setCache (<[key:=ff]> (cache h)) h));
        [done|simpl; apply lookup_insert_eq|by apply insert_subseteq|done].
Qed.

End Outcomes.

Lemma handleRequest_outcomes_witness :
  (exists n path,
     [Printf (LogCannotOpen "/srv/nothing" (PathError ENOENT));
      Error "Cannot open requested path" StatusNotFound]
     = [Printf (LogNilByte n path); Error "Are you a hacker?" StatusBadRequest]
     /\ FSHandler "/srv" 0 = FSHandler "/srv" 0 /\ Demo.world = Demo.world)
  \/ (exists m msg,
        [Printf (LogCannotOpen "/srv/nothing" (PathError ENOENT));
         Error "Cannot open requested path" StatusNotFound]
        = [Printf m; Error msg StatusNotFound]
        /\ FSHandler "/srv" 0 = FSHandler "/srv" 0
        /\ readers Demo.world = readers Demo.world /\ pool Demo.world = pool Demo.world
        /\ (forall i x, files Demo.world !! i = Some x -> files Demo.world !! i = Some x)
        /\ (forall i ino b, (length (files Demo.world) <= i)%nat ->
                            files Demo.world !! i = Some (ino, b) -> b = false))
  \/ (exists path ff r rd,
        stripPathSlashes (ctx_Path (Demo.request "/nothing"))
          (stripSlashes (FSHandler "/srv" 0)) = Returns path
        /\ [Printf (LogCannotOpen "/srv/nothing" (PathError ENOENT));
            Error "Cannot open requested path" StatusNotFound]
           = [SetBodyStream r (ff_contentLength ff); SetContentType (ff_contentType ff)]
        /\ cache (FSHandler "/srv" 0) !! String.string_of_list_byte path = Some ff
        /\ cache (FSHandler "/srv" 0) ⊆ cache (FSHandler "/srv" 0)
        /\ readers Demo.world !! r = Some rd
        /\ r_f rd = ff_f ff /\ r_dirIndex rd = ff_dirIndex ff).
Proof.
  apply (@handleRequest_outcomes Demo.P64 (FSHandler "/srv" 0) (Demo.request "/nothing")
           Demo.world). reflexivity.
Defined.

(** ** The cache at work *)

(** X10: after a request has been served, a request whose path normalises
    to the same path is answered from the cache, until a sweep comes: it
    opens and closes no file, leaves the cache as it is, and hands out the
    length and the content type of the cached descriptor, whatever the URI
    of the request. *)
Theorem handleRequest_cached `{Platform} (h : fsHandler) (ctx ctx2 : RequestCtx)
    (w : World) (path : list byte)
    (h1 : fsHandler) (calls1 : list ctxCall) (w1 : World)
    (h2 : fsHandler) (calls2 : list ctxCall) (w2 : World) :
  stripPathSlashes (ctx_Path ctx) (stripSlashes h) = Returns path ->
  stripPathSlashes (ctx_Path ctx2) (stripSlashes h) = Returns path ->
  handleRequest h ctx w = Returns ((h1, calls1), w1) ->
  served calls1 ->
  handleRequest h1 ctx2 w1 = Returns ((h2, calls2), w2) ->
  h2 = h1
  /\ files w2 = files w1 /\ closeLog w2 = closeLog w1
  /\ exists ff r,
       cache h1 !! String.string_of_list_byte path = Some ff
       /\ calls2 = [SetBodyStream r (ff_contentLength ff);
                    SetContentType (ff_contentType ff)].
Proof.
  intros Hstrip Hstrip2 Hrun1 (r1 & n1 & ct1 & ->) Hrun2.
  destruct (handleRequest_cases _ _ _ _ _ _ Hrun1) as (path' & Hstrip' & Hcases).
  rewrite Hstrip in Hstrip'. injection Hstrip' as <-. cbv zeta in Hcases.
  set (key := String.string_of_list_byte path) in *.
  assert ((NUL ∉ path) /\ stripSlashes h1 = stripSlashes h
          /\ exists ff, cache h1 !! key = Some ff) as (Hnul & Hss & ff & Hlook).
  { destruct Hcases as [(_ & _ & _ & Hcalls)
                       |[(Hnul & ff & Hlook & -> & _)
                        |(Hnul & Hmiss & r & w0 & Hopen & Hr)]]; [done|by eauto|].
    destruct r as [err|ff].
    - destruct (isDirIndexRequired err); [|by destruct Hr as (_ & _ & ?)].
      destruct Hr as (r2 & w3 & _ & Hr2). destruct r2 as [err2|ff].
      + by destruct Hr2 as (_ & _ & ?).
      + destruct Hr2 as [-> _]. split; [done|]. split; [done|].
        exists ff. simpl. apply lookup_insert_eq.
    - destruct Hr as [-> _]. split; [done|]. split; [done|].
      exists ff. simpl. apply lookup_insert_eq. }
  rewrite <- Hss in Hstrip2.
  rewrite (handleRequest_hit h1 ctx2 w1 path ff Hstrip2 Hnul Hlook) in Hrun2.
  destruct (serve ff w1) as [[calls0 w0]| |] eqn:Hserve; [|done..].
  injection Hrun2 as <- <- <-.
  apply serve_inv in Hserve as (r & Hreader & ->).
  destruct (Reader_frame _ _ _ _ Hreader) as (Hfiles & Hlog & _).
  split; [done|]. split; [done|]. split; [done|]. by exists ff, r.
Qed.

Lemma handleRequest_cached_witness :
  exists h1 w1 h2 w2 ff r,
    @handleRequest Demo.P64 (FSHandler "/srv" 0) (Demo.request "/a.txt") Demo.world
      = Returns ((h1, [SetBodyStream 0 5; SetContentType "text/plain; charset=utf-8"]), w1)
    /\ @handleRequest Demo.P64 h1 (Demo.request "/a.txt///") w1
       = Returns ((h2, [SetBodyStream 1 5; SetContentType "text/plain; charset=utf-8"]), w2)
    /\ h2 = h1 /\ files w2 = files w1 /\ closeLog w2 = closeLog w1
    /\ cache h1 !! "/a.txt" = Some ff
    /\ [SetBodyStream 1 5; SetContentType "text/plain; charset=utf-8"]
       = [SetBodyStream r (ff_contentLength ff); SetContentType (ff_contentType ff)].
Proof.
  destruct (@handleRequest Demo.P64 (FSHandler "/srv" 0) (Demo.request "/a.txt")
              Demo.world) as [[[h1 calls1] w1]| |] eqn:Hrun1;
    [|vm_compute in Hrun1; discriminate Hrun1..].
  assert (calls1 = [SetBodyStream 0 5; SetContentType "text/plain; charset=utf-8"])
    as -> by (vm_compute in Hrun1; by injection Hrun1 as _ <- _).
  destruct (@handleRequest Demo.P64 h1 (Demo.request "/a.txt///") w1)
    as [[[h2 calls2] w2]| |] eqn:Hrun2;
    [|vm_compute in Hrun1; injection Hrun1 as <- <-;
      vm_compute in Hrun2; discriminate Hrun2..].
  assert (calls2 = [SetBodyStream 1 5; SetContentType "text/plain; charset=utf-8"])
    as ->.
  { vm_compute in Hrun1. injection Hrun1 as <- <-.
    vm_compute in Hrun2. by injection Hrun2 as _ <- _. }
  destruct (@handleRequest_cached Demo.P64 (FSHandler "/srv" 0)
              (Demo.request "/a.txt") (Demo.request "/a.txt///") Demo.world
              (B "/a.txt") h1
              [SetBodyStream 0 5; SetContentType "text/plain; charset=utf-8"] w1 h2
              [SetBodyStream 1 5; SetContentType "text/plain; charset=utf-8"] w2)
    as (Hh & Hfiles & Hlog & ff & r & Hlook & Hcalls);
    [reflexivity|reflexivity|exact Hrun1|by eexists _, _, _|exact Hrun2|].
  exists h1, w1, h2, w2, ff, r. repeat split; try done.
Defined.

(** X11: a request returns, without a panic, whenever its raw path is empty
    or starts with a slash, or no segment is to be stripped, and the next
    cursor of the pool is fit for use. *)
Theorem handleRequest_returns `{Platform} (h : fsHandler) (ctx : RequestCtx)
    (w : World) :
  (ctx_Path ctx = [] \/ (exists rest, ctx_Path ctx = slash :: rest)
   \/ stripSlashes h <= 0) ->
  poolReady w ->
  exists h' calls w', handleRequest h ctx w = Returns ((h', calls), w').
Proof.
  intros Hpath Hpool.
  assert (exists path, stripPathSlashes (ctx_Path ctx) (stripSlashes h) = Returns path)
    as [path Hstrip].
  { destruct Hpath as [->|[[rest ->]|Hs]].
    - unfold stripPathSlashes. destruct (Z.to_nat (stripSlashes h)); by eexists.
    - destruct (segments_join rest) as [Hjoin Hfree]. unfold stripPathSlashes.
      rewrite <- Hjoin, stripLeadingSlashes_join by done. by eexists.
    - destruct (stripPathSlashes_no_strip (ctx_Path ctx) _ Hs) as (j & Hrun & _).
      by eexists. }
  assert (forall hh key ff w0,
            readers w0 = readers w -> pool w0 = pool w ->
            poolChoices w0 = poolChoices w ->
            exists h' calls w', insertAndServe hh key ff w0 = Returns ((h', calls), w'))
    as Hinsert.
  { intros hh key ff w0 Hrd Hpl Hch.
    destruct (Reader_returns ff w0) as (r & w' & Hreader).
    { intros r w' Hget. rewrite Hrd.
      destruct (Pool_Get_agree _ _ _ _ Hpl Hch Hget) as [w'' Hget']. eauto. }
    unfold insertAndServe, serve, mbind, M_bind, mret, M_ret. rewrite Hreader.
    by eexists _, _, _. }
  destruct (decide (NUL ∈ path)) as [Hnul|Hnul].
  { destruct (handleRequest_path_with_nil h ctx w path Hstrip Hnul) as [_ ->].
    by eexists _, _, _. }
  destruct (cache h !! String.string_of_list_byte path) as [ff|] eqn:Hlook.
  { rewrite (handleRequest_hit h ctx w path ff Hstrip Hnul Hlook).
    destruct (Reader_returns ff w Hpool) as (r & w' & Hreader).
    unfold serve, mbind, M_bind, mret, M_ret. rewrite Hreader. by eexists _, _, _. }
  destruct (openFSFile_returns (root h +:+ String.string_of_list_byte path) w)
    as (r & w1 & Hopen & _).
  rewrite (handleRequest_miss h ctx w path r w1 Hstrip Hnul Hlook Hopen).
  apply openFSFile_resolves, resolves_extends in Hopen
    as (_ & _ & _ & _ & Hrd & Hpl & Hch).
  destruct r as [err|ff]; [|by apply Hinsert].
  destruct (isDirIndexRequired err); [|by eexists _, _, _].
  destruct (createDirIndex_returns (ctx_URI ctx)
              (root h +:+ String.string_of_list_byte path) w1) as (r2 & w2 & Hindex).
  rewrite Hindex.
  destruct r2 as [err2|ff]; [by eexists _, _, _|].
  apply Hinsert; destruct (createDirIndex_world _ _ _ _ _ Hindex) as [->|[ino ->]];
    done.
Qed.

Lemma handleRequest_returns_witness :
  exists h' calls w',
    @handleRequest Demo.P64 (FSHandler "/srv" 1) (Demo.request "/static/a.txt")
      Demo.world = Returns ((h', calls), w').
Proof.
  apply (@handleRequest_returns Demo.P64); [|intros r w' Hget; discriminate Hget].
  right. left. by eexists.
Defined.

(** ** Cursors: reuse and independence *)

Lemma selfRef_insert w w0 r rd :
  selfRef w -> r_v rd = Some r ->
  selfRef (setReaders (<[r := rd]> (readers w)) w0).
Proof.
  intros Hself Hv r' rd' Hlook. simpl in Hlook.
  destruct (decide (r = r')) as [<-|Hne].
  - destruct (decide (r < length (readers w))%nat) as [Hlt|Hge].
    + rewrite list_lookup_insert_eq in Hlook by done. by injection Hlook as <-.
    + rewrite list_insert_ge in Hlook by lia. by apply Hself.
  - rewrite list_lookup_insert_ne in Hlook by done. by apply Hself.
Qed.

(** X12: a cursor goes round. Every reader that [Reader] makes points to
    itself, and [Reader], [Read] and [Close] keep it so. Hence a cursor
    that is released, whatever its offset and its binding, is in the pool
    once more than before; and when the pool hands it out to the next
    [Reader], it comes back with offset zero, bound to the new descriptor,
    without a panic and without a new object being made. Which of the
    pooled cursors the pool hands out is not the handler's to say. *)
Theorem Close_then_Reader (w : World) :
  selfRef w ->
  (forall ff r w', Reader ff w = Returns (r, w') -> selfRef w')
  /\ (forall r p res w', Read r p w = Returns (res, w') -> selfRef w')
  /\ (forall r e w', Close r w = Returns (e, w') -> selfRef w')
  /\ (forall r rd ff,
        readers w !! r = Some rd ->
        exists w1,
          Close r w = Returns (None, w1)
          /\ pool w1 = r :: pool w
          /\ forall w0,
               Pool_Get w1 = Returns (Some r, w0) ->
               exists w2,
                 Reader ff w1 = Returns (r, w2)
                 /\ readers w2
                    = <[r := {| r_f := ff_f ff; r_dirIndex := ff_dirIndex ff;
                                r_offset := 0; r_v := Some r |}]> (readers w)
                 /\ length (readers w2) = length (readers w)
                 /\ pool w2 = pool w0
                 /\ files w2 = files w).
Proof.
  intros Hself. split; [|split; [|split]].
  - intros ff r w'. destruct (Reader_cases ff w) as (v & w0 & Hget & ->).
    destruct v as [r0|].
    + destruct (readers w !! r0) as [rd|] eqn:Hr0; [|done].
      destruct (0 <? r_offset rd); [done|]. intros [= <- <-].
      apply selfRef_insert; [done|]. simpl. by apply Hself.
    + intros [= <- <-] r' rd' Hlook. simpl in Hlook.
      apply lookup_app_Some in Hlook as [Hlook|[Hge Hlook]]; [by apply Hself|].
      destruct (r' - length (readers w))%nat eqn:Hd; [|done].
      injection Hlook as <-. simpl. f_equal. lia.
  - intros r p res w'. unfold Read, mbind, M_bind, getReader.
    destruct (readers w !! r) as [rd|] eqn:Hr; [|done]. simpl.
    destruct (r_f rd) as [f|].
    + destruct (File_ReadAt f p (r_offset rd) w) as [[[[p' n] err] w0]| |] eqn:Hat;
        [|done..].
      destruct (File_ReadAt_count _ _ _ _ _ _ _ _ Hat) as (-> & _).
      unfold putReader, mret, M_ret. intros [= <- <-].
      apply selfRef_insert; [done|]. simpl. by apply Hself.
    + destruct (r_offset rd =? len (r_dirIndex rd)); [by intros [= <- <-]|].
      destruct (_ || _); [done|]. unfold copy, putReader, mret, M_ret.
      intros [= <- <-]. apply selfRef_insert; [done|]. simpl. by apply Hself.
  - intros r e w'. unfold Close, mbind, M_bind, getReader.
    destruct (readers w !! r) as [rd|] eqn:Hr; [|done]. simpl.
    unfold Pool_Put, mret, M_ret. rewrite (Hself _ _ Hr). intros [= <- <-].
    by apply (selfRef_insert w).
  - intros r rd ff Hr. pose proof (lookup_lt_Some _ _ _ Hr) as Hlt.
    unfold Close. rewrite (bind_Returns _ _ _ _ _ (getReader_Some _ _ _ Hr)).
    unfold mbind, M_bind, putReader, Pool_Put, mret, M_ret. rewrite (Hself _ _ Hr).
    eexists. split; [done|]. split; [done|]. intros w0 Hget.
    destruct (Pool_Get_world _ _ _ Hget) as (_ & _ & Hfl & _ & Hrs).
    simpl in Hfl, Hrs.
    unfold Reader. rewrite (bind_Returns _ _ _ _ _ Hget).
    unfold mbind, M_bind, getReader, putReader, panic, mret, M_ret.
    rewrite Hrs, list_lookup_insert_eq by done. simpl.
    eexists. split; [done|]. simpl. rewrite Hrs, list_insert_insert_eq.
    split; [done|]. by rewrite length_insert.
Qed.

Lemma Close_then_Reader_witness :
  exists w1 w2,
    Close 0 (Demo.cursorOn "hello" 3) = Returns (None, w1)
    /\ Reader (Demo.listing "world") w1 = Returns (0%nat, w2)
    /\ readers w2 = [ {| r_f := None; r_dirIndex := B "world";
                         r_offset := 0; r_v := Some 0%nat |} ]
    /\ pool w2 = [].
Proof.
  destruct (Close_then_Reader (Demo.cursorOn "hello" 3)) as (_ & _ & _ & Hreuse).
  { intros r rd Hlook. destruct r as [|r]; [|done]. by injection Hlook as <-. }
  destruct (Hreuse 0%nat _ (Demo.listing "world") eq_refl)
    as (w1 & Hclose & Hpool & Hnext).
  assert (Pool_Get w1 = Returns (Some 0%nat, setPool [] w1)) as Hget.
  { apply Pool_Get_undisturbed; [|exact Hpool].
    vm_compute in Hclose. by injection Hclose as <-. }
  destruct (Hnext _ Hget) as (w2 & Hreader & Hrd & _ & Hpool2 & _).
  exists w1, w2. repeat split; [exact Hclose|exact Hreader|exact Hrd|exact Hpool2].
Defined.

Lemma File_ReadAt_files f p off wa wb :
  files wa = files wb ->
  match File_ReadAt f p off wa, File_ReadAt f p off wb with
  | Returns (x, wa'), Returns (y, wb') => x = y /\ wa' = wa /\ wb' = wb
  | _, _ => False
  end.
Proof.
  intros Hfiles. unfold File_ReadAt. rewrite Hfiles.
  destruct (off <? 0); [done|]. destruct p as [|b p]; [done|].
  destruct (files wb !! f) as [[ino [|]]|]; [|done..].
  destruct (i_stat ino) as [e|st]; [done|].
  destruct (IsDir st); [done|].
  by destruct (copy _ _).
Qed.

Lemma agree_insert r wa wb rd :
  agree r wa wb -> is_Some (readers wa !! r) ->
  agree r (setReaders (<[r := rd]> (readers wa)) wa)
          (setReaders (<[r := rd]> (readers wb)) wb).
Proof.
  intros [Hrd Hfiles] Hsome. split; [|done]. simpl.
  rewrite !list_lookup_insert_eq; [done|..].
  - apply lookup_lt_is_Some. by rewrite <- Hrd.
  - by apply lookup_lt_is_Some.
Qed.

Lemma Read_agree r p wa wb :
  agree r wa wb ->
  match Read r p wa, Read r p wb with
  | Returns (x, wa'), Returns (y, wb') => x = y /\ agree r wa' wb'
  | Panics m, Panics m' => m = m'
  | OutOfFuel, OutOfFuel => True
  | _, _ => False
  end.
Proof.
  intros Hagree. pose proof Hagree as [Hrd Hfiles].
  unfold Read, mbind, M_bind, getReader. rewrite <- Hrd.
  destruct (readers wa !! r) as [rd|] eqn:Hr; [|done]. simpl.
  destruct (r_f rd) as [f|].
  - pose proof (File_ReadAt_files f p (r_offset rd) wa wb Hfiles) as Hat.
    destruct (File_ReadAt f p (r_offset rd) wa) as [[[[pa na] ea] wa']| |]; [|done..].
    destruct (File_ReadAt f p (r_offset rd) wb) as [[[[pb nb] eb] wb']| |]; [|done..].
    destruct Hat as ([= -> -> ->] & -> & ->).
    unfold putReader, mret, M_ret. split; [done|]. by apply agree_insert.
  - destruct (r_offset rd =? len (r_dirIndex rd)); [done|].
    destruct (_ || _); [done|]. unfold copy, putReader, mret, M_ret.
    split; [done|]. by apply agree_insert.
Qed.

Lemma readAll_agree r bufs wa wb :
  agree r wa wb -> sameResult (readAll r bufs wa) (readAll r bufs wb).
Proof.
  revert wa wb. induction bufs as [|p bufs IH]; intros wa wb Hagree; [done|].
  simpl readAll. unfold mbind, M_bind at 1 3.
  pose proof (Read_agree r p wa wb Hagree) as Hread.
  destruct (Read r p wa) as [[[[pa na] ea] wa']| |];
    destruct (Read r p wb) as [[[[pb nb] eb] wb']| |]; try done.
  destruct Hread as ([= -> -> ->] & Hagree').
  destruct eb as [e|]; [done|].
  pose proof (IH wa' wb' Hagree') as Hrest. unfold sameResult in *.
  unfold mbind, M_bind, mret, M_ret.
  destruct (readAll r bufs wa') as [[[oa ea] wa'']| |];
    destruct (readAll r bufs wb') as [[[ob eb] wb'']| |]; try done.
  by injection Hrest as -> ->.
Qed.

Lemma Read_other r r' p w res w' :
  Read r p w = Returns (res, w') -> r <> r' -> agree r' w' w.
Proof.
  unfold Read, mbind, M_bind, getReader. intros Hrun Hne.
  destruct (readers w !! r) as [rd|] eqn:Hr; [|done]. simpl in Hrun.
  destruct (r_f rd) as [f|].
  - destruct (File_ReadAt f p (r_offset rd) w) as [[[[p' n] err] w0]| |] eqn:Hat;
      [|done..].
    destruct (File_ReadAt_count _ _ _ _ _ _ _ _ Hat) as (-> & _).
    unfold putReader, mret, M_ret in Hrun. injection Hrun as _ <-.
    split; [|done]. simpl. by rewrite list_lookup_insert_ne.
  - destruct (r_offset rd =? len (r_dirIndex rd)); [by injection Hrun as _ <-|].
    destruct (_ || _); [done|]. unfold copy, putReader, mret, M_ret in Hrun.
    injection Hrun as _ <-. split; [|done]. simpl. by rewrite list_lookup_insert_ne.
Qed.

Lemma readAll_other r r' bufs w res w' :
  readAll r bufs w = Returns (res, w') -> r <> r' -> agree r' w' w.
Proof.
  revert w res w'. induction bufs as [|p bufs IH]; intros w res w' Hrun Hne.
  { injection Hrun as _ <-. done. }
  simpl readAll in Hrun. unfold mbind, M_bind at 1 in Hrun.
  destruct (Read r p w) as [[[[p' n] err] w1]| |] eqn:Hread; [|done..].
  pose proof (Read_other _ _ _ _ _ _ Hread Hne) as [Hrd1 Hfiles1].
  destruct err as [e|]; [by injection Hrun as _ <-|].
  unfold mbind, M_bind, mret, M_ret in Hrun.
  destruct (readAll r bufs w1) as [[[out e] w2]| |] eqn:Hrest; [|done..].
  injection Hrun as _ <-.
  destruct (IH _ _ _ Hrest Hne) as [Hrd2 Hfiles2]. split; congruence.
Qed.

(** X13: cursors are independent. Whatever one cursor has read, another
    cursor reads what it would have read anyway: the same bytes, the same
    counts and the same errors, whether the two are bound to the same file
    or content or not. Reading through a cursor changes no other reader
    and no file. *)
Theorem cursors_independent (r1 r2 : nat) (bufs1 bufs2 : list (list byte))
    (w : World) (res1 : list byte * option error) (w1 : World) :
  r1 <> r2 ->
  readAll r1 bufs1 w = Returns (res1, w1) ->
  sameResult (readAll r2 bufs2 w1) (readAll r2 bufs2 w)
  /\ readers w1 !! r2 = readers w !! r2
  /\ files w1 = files w.
Proof.
  intros Hne Hrun. pose proof (readAll_other _ _ _ _ _ _ Hrun Hne) as Hagree.
  split; [by apply readAll_agree|]. exact Hagree.
Qed.

Lemma cursors_independent_witness :
  match readAll 0 [B "..."; B "..."; B "..."] Demo.twoCursors with
  | Returns (_, w1) =>
      sameResult (readAll 1 [B ".."; B "...."] w1)
                 (readAll 1 [B ".."; B "...."] Demo.twoCursors)
  | Panics _ => False
  | OutOfFuel => False
  end.
Proof.
  destruct (readAll 0 [B "..."; B "..."; B "..."] Demo.twoCursors)
    as [[res1 w1]| |] eqn:Hrun; [|vm_compute in Hrun; discriminate Hrun..].
  apply (cursors_independent 0 1 _ _ _ _ _ (ltac:(discriminate)) Hrun).
Defined.

(** ** Reading a file through a cursor *)

Lemma length_fileBytes ino size off n :
  length (fileBytes ino size off n) = Nat.min n (Z.to_nat (size - off)).
Proof. unfold fileBytes. by rewrite length_fmap, length_seq. Qed.

Lemma fileBytes_app ino size off n k :
  0 <= off -> (n <= Z.to_nat (size - off))%nat ->
  fileBytes ino size off n ++ fileBytes ino size (off + Z.of_nat n) k
  = fileBytes ino size off (n + k).
Proof.
  intros Hoff Hn. unfold fileBytes.
  replace (Nat.min n (Z.to_nat (size - off))) with n by lia.
  replace (Nat.min (n + k) (Z.to_nat (size - off)))
    with (n + Nat.min k (Z.to_nat (size - (off + Z.of_nat n))))%nat by lia.
  rewrite seq_app, fmap_app. f_equal. simpl.
  set (m := Nat.min k (Z.to_nat (size - (off + Z.of_nat n)))).
  replace (seq n m) with (Nat.add n <$> seq 0 m)
    by (rewrite fmap_add_seq; f_equal; lia).
  rewrite <- list_fmap_compose.
  apply list_fmap_ext. intros _ i _. simpl. f_equal. lia.
Qed.

Lemma Read_file r rd w p f ino st :
  readers w !! r = Some rd ->
  r_f rd = Some f ->
  files w !! f = Some (ino, true) ->
  i_stat ino = inr st ->
  IsDir st = false ->
  0 <= r_offset rd <= maxInt64 ->
  Size st <= maxInt64 ->
  let n := Nat.min (length p) (Z.to_nat (Size st - r_offset rd)) in
  Read r p w
  = Returns ((fileBytes ino (Size st) (r_offset rd) (length p) ++ drop n p,
              Z.of_nat n,
              if Z.of_nat n <? len p then Some EOF else None),
             setReaders (<[r := setOffset rd (r_offset rd + Z.of_nat n)]> (readers w)) w).
Proof.
  intros Hr Hf Hfile Hstat Hdir Hoff Hsize n.
  destruct (Read_handle r rd w p f Hr Hf) as (p' & n' & err & Hat & Hread).
  rewrite (File_ReadAt_regular f p (r_offset rd) w ino st Hfile Hstat Hdir) in Hat
    by lia.
  cbv zeta in Hat. fold n in Hat. injection Hat as <- <- <-.
  rewrite Hread. rewrite wrapInt64_small; [done|].
  unfold minInt64, n. lia.
Qed.

Lemma readAll_file_from bufs r rd w f ino st :
  readers w !! r = Some rd ->
  r_f rd = Some f ->
  files w !! f = Some (ino, true) ->
  i_stat ino = inr st ->
  IsDir st = false ->
  0 <= r_offset rd <= Size st ->
  Size st <= maxInt64 ->
  let o := r_offset rd in
  exists out e w',
    readAll r bufs w = Returns ((out, e), w')
    /\ (exists k, out = fileBytes ino (Size st) o k)
    /\ (e = None \/ e = Some EOF)
    /\ (e = Some EOF -> out = fileBytes ino (Size st) o (Z.to_nat (Size st - o)))
    /\ (Forall (fun q => q <> []) bufs ->
        Size st - o < Z.of_nat (length bufs) -> e = Some EOF).
Proof.
  revert rd w. induction bufs as [|p bufs IH];
    intros rd w Hr Hf Hfile Hstat Hdir Hoff Hsize o.
  { exists [], None, w. split; [done|]. split; [by exists 0%nat|].
    split; [by left|]. split; [done|]. simpl. lia. }
  simpl readAll.
  pose proof (Read_file r rd w p f ino st Hr Hf Hfile Hstat Hdir) as Hread.
  cbv zeta in Hread. fold o in Hread.
  set (n := Nat.min (length p) (Z.to_nat (Size st - o))) in *.
  rewrite (bind_Returns _ _ _ _ _ (Hread ltac:(lia) Hsize)).
  assert (take (Z.to_nat (Z.of_nat n)) (fileBytes ino (Size st) o (length p) ++ drop n p)
          = fileBytes ino (Size st) o (length p)) as Hdelivered.
  { rewrite Nat2Z.id. apply take_app_length'. by rewrite length_fileBytes. }
  unfold len. destruct (Z.ltb_spec (Z.of_nat n) (Z.of_nat (length p))) as [Hshort|Hfull].
  - eexists _, (Some EOF), _. split; [unfold mret, M_ret; by rewrite Hdelivered|].
    split; [by eexists|]. split; [by right|]. split; [|done].
    intros _. unfold fileBytes. do 2 f_equal. lia.
  - assert (n = length p) as Hn by lia.
    set (rd1 := setOffset rd (o + Z.of_nat n)).
    set (w1 := setReaders (<[r := rd1]> (readers w)) w).
    destruct (IH rd1 w1) as (out & e & w' & Hrun & [k Hk] & He & Hall & Hlast);
      try done.
    { unfold w1. simpl. apply list_lookup_insert_eq. by eapply lookup_lt_Some. }
    { unfold rd1. simpl. fold o. lia. }
    change (r_offset rd1) with (o + Z.of_nat n) in *.
    rewrite (bind_Returns _ _ _ _ _ Hrun).
    eexists _, e, w'. split; [unfold mret, M_ret; by rewrite Hdelivered|].
    assert (forall j, fileBytes ino (Size st) o (length p)
                      ++ fileBytes ino (Size st) (o + Z.of_nat n) j
                      = fileBytes ino (Size st) o (n + j)) as Happ.
    { intros j. rewrite <- Hn. apply fileBytes_app; lia. }
    split; [exists (n + k)%nat; by rewrite Hk, Happ|].
    split; [done|]. split.
    + intros He'. rewrite (Hall He'), Happ. unfold fileBytes. do 2 f_equal. lia.
    + intros Hne Hlen. apply Forall_cons in Hne as [Hp Hne].
      apply Hlast; [done|].
      assert (0 < length p)%nat by (destruct p; [done|simpl; lia]).
      simpl in Hlen. lia.
Qed.

(** X14: a consumer that reads a cached file from the start gets the bytes
    of the file in order: what it has collected is always a prefix of the
    file, and once [io.EOF] comes it is the whole file, as many bytes as
    [Stat] has reported. [io.EOF] does come when the buffers are not empty
    and are more than the file has bytes. *)
Theorem readAll_file (bufs : list (list byte)) (r : nat) (rd : fsFileReader)
    (w : World) (f : nat) (ino : inode) (st : FileInfo) :
  readers w !! r = Some rd ->
  r_f rd = Some f ->
  r_offset rd = 0 ->
  files w !! f = Some (ino, true) ->
  i_stat ino = inr st ->
  IsDir st = false ->
  0 <= Size st <= maxInt64 ->
  exists out e w',
    readAll r bufs w = Returns ((out, e), w')
    /\ (exists k, out = fileBytes ino (Size st) 0 k)
    /\ (e = None \/ e = Some EOF)
    /\ (e = Some EOF ->
        out = fileBytes ino (Size st) 0 (Z.to_nat (Size st)) /\ len out = Size st)
    /\ (Forall (fun q => q <> []) bufs ->
        Size st < Z.of_nat (length bufs) -> e = Some EOF).
Proof.
  intros Hr Hf Hzero Hfile Hstat Hdir Hsize.
  destruct (readAll_file_from bufs r rd w f ino st Hr Hf Hfile Hstat Hdir)
    as (out & e & w' & Hrun & Hk & He & Hall & Hlast); [lia..|].
  rewrite Hzero in *. rewrite Z.sub_0_r in *.
  exists out, e, w'. split; [done|]. split; [done|]. split; [done|].
  split; [|done]. intros He'. split; [by apply Hall|].
  rewrite (Hall He'). unfold len. rewrite length_fileBytes. lia.
Qed.

Lemma readAll_file_witness :
  exists out e w',
    readAll 0 [B ".."; B ".."; B ".."]
      (setReaders [setOffset Demo.cursorOnFile 0] Demo.worldWithFile)
    = Returns ((out, e), w')
    /\ (e = Some EOF -> out = B "hello" /\ len out = 5).
Proof.
  destruct (readAll_file [B ".."; B ".."; B ".."] 0 (setOffset Demo.cursorOnFile 0)
              (setReaders [setOffset Demo.cursorOnFile 0] Demo.worldWithFile)
              0 (Demo.file 5 (B "hello")) {| Size := 5; IsDir := false |})
    as (out & e & w' & Hrun & _ & _ & Hall & _);
    [reflexivity|reflexivity|reflexivity|reflexivity|reflexivity|reflexivity
    |unfold maxInt64; simpl; lia|].
  exists out, e, w'. split; [exact Hrun|]. exact Hall.
Defined.

(** ** The declared length and the body *)

Lemma Reader_at_zero ff w r w' :
  offsetsOk w ->
  Reader ff w = Returns (r, w') ->
  exists rd, readers w' !! r = Some rd
             /\ r_f rd = ff_f ff /\ r_dirIndex rd = ff_dirIndex ff
             /\ r_offset rd = 0.
Proof.
  intros Hok Hreader.
  destruct (Reader_bound _ _ _ _ Hreader) as (rd & Hrd & Hf & Hd & Hle).
  exists rd. repeat split; try done.
  revert Hreader Hrd.
  destruct (Reader_cases ff w) as (v & w0 & Hget & ->).
  destruct v as [r0|].
  - destruct (readers w !! r0) as [rd0|] eqn:Hr0; [|done].
    destruct (Z.ltb_spec 0 (r_offset rd0)); [done|]. intros [= <- <-]. simpl.
    rewrite list_lookup_insert_eq by (by eapply lookup_lt_Some).
    intros [= <-]. simpl. pose proof (Hok _ _ Hr0). lia.
  - intros [= <- <-]. simpl. rewrite lookup_app_r by done.
    rewrite Nat.sub_diag. by intros [= <-].
Qed.

Section Body.
Context `{Platform}.

Lemma resolves_descriptor_stat p w ff w' :
  resolves p w (inr ff) w' ->
  exists f ino st q,
    ff_f ff = Some f /\ files w' !! f = Some (ino, true)
    /\ fs w q = inr ino /\ i_stat ino = inr st /\ IsDir st = false
    /\ ff_contentLength ff = Size st.
Proof.
  intros Hres. remember (inr ff) as r eqn:Hr. revert ff Hr.
  induction Hres as [| |p w ino st r w' Hlen Hfs Hstat Hdir Hres IH
                    |p w ino st Hlen Hfs Hstat Hdir Hfit|];
    intros ff Hr; try done.
  - destruct r as [err|ff']; simpl in Hr; [by destruct (IsNotExist err)|].
    injection Hr as ->. destruct (IH ff eq_refl) as (f & ino' & st' & q & Hq).
    exists f, ino', st', q. simpl in Hq. done.
  - injection Hr as <-. exists (length (files w)), ino, st, p. simpl.
    repeat split; try done. apply lookup_opened.
Qed.

(** X15: the length that a request declares for its body is the length of
    what the body stream delivers. When a request that found nothing in the
    cache is served, a consumer that reads the stream until [io.EOF] has
    collected exactly as many bytes as the request has passed to
    [SetBodyStream], for a file and for a listing alike. *)
Theorem served_body_length (h : fsHandler) (ctx : RequestCtx) (w : World)
    (path : list byte) (h' : fsHandler) (r : nat) (n : Z) (ct : string)
    (w' : World) (bufs : list (list byte)) (out : list byte) (w'' : World) :
  sizesOk w ->
  offsetsOk w ->
  stripPathSlashes (ctx_Path ctx) (stripSlashes h) = Returns path ->
  cache h !! String.string_of_list_byte path = None ->
  handleRequest h ctx w = Returns ((h', [SetBodyStream r n; SetContentType ct]), w') ->
  (forall ff, cache h' !! String.string_of_list_byte path = Some ff ->
              len (ff_dirIndex ff) <= maxInt64) ->
  readAll r bufs w' = Returns ((out, Some EOF), w'') ->
  len out = n.
Proof.
  intros Hsizes Hoffs Hstrip Hmiss Hrun Hlen Hread.
  destruct (handleRequest_cases _ _ _ _ _ _ Hrun) as (path' & Hstrip' & Hcases).
  rewrite Hstrip in Hstrip'. injection Hstrip' as <-. cbv zeta in Hcases.
  set (key := String.string_of_list_byte path) in *.
  assert (forall ff w0,
            readers w0 = readers w ->
            h' = setCache (<[key := ff]> (cache h)) h ->
            serve ff w0 = Returns ([SetBodyStream r n; SetContentType ct], w') ->
            exists rd, readers w' !! r = Some rd
                       /\ r_f rd = ff_f ff /\ r_dirIndex rd = ff_dirIndex ff
                       /\ r_offset rd = 0 /\ files w' = files w0
                       /\ n = ff_contentLength ff
                       /\ len (ff_dirIndex ff) <= maxInt64) as Hserve.
  { intros ff w0 Hrd -> Hserve. apply serve_inv in Hserve as (r' & Hreader & [= <- <- _]).
    destruct (Reader_at_zero ff w0 r w') as (rd & Hr & Hf & Hd & Ho); [|done|].
    { intros r0 rd0. rewrite Hrd. apply Hoffs. }
    destruct (Reader_frame _ _ _ _ Hreader) as (Hfiles & _).
    exists rd. repeat split; try done. apply Hlen. simpl. apply lookup_insert_eq. }
  assert (forall ff rd,
            ff_f ff = None -> readers w' !! r = Some rd ->
            r_f rd = ff_f ff -> r_dirIndex rd = ff_dirIndex ff -> r_offset rd = 0 ->
            len (ff_dirIndex ff) <= maxInt64 ->
            out = ff_dirIndex ff) as Hgenerated.
  { intros ff rd Hnone Hr Hf Hd Ho Hmax. rewrite Hnone in Hf.
    destruct (readAll_generated bufs r rd w' Hr Hf)
      as (out0 & e0 & w0 & Hrun0 & _ & _ & Hall & _).
    { rewrite Ho, Hd. unfold len. lia. }
    { by rewrite Hd. }
    rewrite Hread in Hrun0. injection Hrun0 as <- <- _.
    rewrite (Hall eq_refl), Ho, Hd. done. }
  destruct Hcases as [(_ & _ & _ & Hcalls)
                     |[(_ & ff & Hlook & _)
                      |(Hnul & _ & r0 & w1 & Hopen & Hr0)]]; [done|congruence|].
  pose proof (openFSFile_resolves _ _ _ _ Hopen) as Hres.
  pose proof (resolves_extends _ _ _ _ Hres) as (_ & _ & _ & _ & Hrd1 & _).
  destruct r0 as [err|ff].
  - destruct (isDirIndexRequired err); [|by destruct Hr0 as (_ & _ & ?)].
    destruct Hr0 as (r2 & w2 & Hindex & Hr2). destruct r2 as [err2|ff].
    { by destruct Hr2 as (_ & _ & ?). }
    destruct Hr2 as [Hh' Hserved].
    destruct (Hserve ff w2) as (rd & Hr & Hf & Hd & Ho & _ & -> & Hmax); [|done..|].
    { destruct (createDirIndex_world _ _ _ _ _ Hindex) as [->|[ino ->]]; done. }
    destruct (createDirIndex_descriptor _ _ _ _ _ Hindex) as (Hnone & _ & _ & _ & ->).
    by rewrite (Hgenerated ff rd).
  - destruct Hr0 as [Hh' Hserved].
    destruct (Hserve ff w1 Hrd1 Hh' Hserved)
      as (rd & Hr & Hf & Hd & Ho & Hfiles & -> & Hmax).
    destruct (resolves_descriptor_stat _ _ _ _ Hres)
      as (f & ino & st & q & Hff & Hfile & Hfs & Hstat & Hdir & ->).
    rewrite Hff in Hf. rewrite <- Hfiles in Hfile.
    pose proof (Hsizes _ _ _ Hfs Hstat) as Hsize.
    destruct (readAll_file_from bufs r rd w' f ino st Hr Hf Hfile Hstat Hdir)
      as (out0 & e0 & w0 & Hrun0 & _ & _ & Hall & _); [lia..|].
    rewrite Hread in Hrun0. injection Hrun0 as <- <- _.
    rewrite (Hall eq_refl), Ho. unfold len. rewrite length_fileBytes. lia.
Qed.

End Body.

Lemma Demo_sizesOk : sizesOk Demo.world.
Proof.
  intros p ino st Hfs Hstat. simpl in Hfs. unfold Demo.tree in Hfs.
  repeat (destruct (String.eqb p _);
          [injection Hfs as <-; injection Hstat as <-; simpl;
           unfold maxInt64; lia|]).
  discriminate Hfs.
Qed.

Lemma served_body_length_witness :
  exists h' w' w'' out,
    @handleRequest Demo.P64 (FSHandler "/srv" 0) (Demo.request "/a.txt") Demo.world
      = Returns ((h', [SetBodyStream 0 5; SetContentType "text/plain; charset=utf-8"]), w')
    /\ readAll 0 [B "..."; B "..."] w' = Returns ((out, Some EOF), w'')
    /\ len out = 5.
Proof.
  destruct (@handleRequest Demo.P64 (FSHandler "/srv" 0) (Demo.request "/a.txt")
              Demo.world) as [[[h' calls] w']| |] eqn:Hrun;
    [|vm_compute in Hrun; discriminate Hrun..].
  assert (calls = [SetBodyStream 0 5; SetContentType "text/plain; charset=utf-8"])
    as -> by (vm_compute in Hrun; by injection Hrun as _ <- _).
  destruct (readAll 0 [B "..."; B "..."] w') as [[[out e] w'']| |] eqn:Hread;
    [|vm_compute in Hrun; injection Hrun as <- <-;
      vm_compute in Hread; discriminate Hread..].
  assert (e = Some EOF) as ->.
  { vm_compute in Hrun. injection Hrun as <- <-.
    vm_compute in Hread. by injection Hread as _ <- _. }
  exists h', w', w'', out. split; [reflexivity|]. split; [exact Hread|].
  apply (@served_body_length Demo.P64 (FSHandler "/srv" 0) (Demo.request "/a.txt")
           Demo.world (B "/a.txt") h' 0 5 "text/plain; charset=utf-8" w'
           [B "..."; B "..."] out w'');
    [exact Demo_sizesOk|by intros [|?] ? ?|reflexivity|reflexivity|exact Hrun| |exact Hread].
  intros ff Hff. vm_compute in Hrun. injection Hrun as <- <-.
  vm_compute in Hff. injection Hff as <-. unfold len, maxInt64. simpl. lia.
Defined.

(** ** The handles of the cache *)

Lemma isOpen_true w f : isOpen w f = true <-> exists ino, files w !! f = Some (ino, true).
Proof.
  unfold isOpen. destruct (files w !! f) as [[ino [|]]|]; split; try done.
  - by eexists.
  - by intros [? [= _ ?]].
  - by intros [? ?].
Qed.

Section CacheHandles.
Context `{Platform}.

Lemma resolves_descriptor_fresh p w ff w' f :
  resolves p w (inr ff) w' -> ff_f ff = Some f -> (length (files w) <= f)%nat.
Proof.
  intros Hres. remember (inr ff) as r eqn:Hr. revert ff Hr.
  induction Hres as [| |p w ino st r w' Hlen Hfs Hstat Hdir Hres IH
                    |p w ino st Hlen Hfs Hstat Hdir Hfit|];
    intros ff Hr Hf; try done.
  - destruct r as [err|ff']; simpl in Hr; [by destruct (IsNotExist err)|].
    injection Hr as ->. specialize (IH ff eq_refl Hf). simpl in IH.
    rewrite length_app in IH. lia.
  - injection Hr as <-. simpl in Hf. injection Hf as <-. done.
Qed.

Lemma handleRequest_keeps_files h ctx w h' calls w' :
  handleRequest h ctx w = Returns ((h', calls), w') ->
  forall i x, files w !! i = Some x -> files w' !! i = Some x.
Proof.
  intros Hrun i x Hi.
  destruct (handleRequest_cases _ _ _ _ _ _ Hrun) as (path & Hstrip & Hcases).
  cbv zeta in Hcases.
  assert (forall ff w0, serve ff w0 = Returns (calls, w') -> files w' = files w0)
    as Hserve.
  { intros ff w0 Hs. apply serve_inv in Hs as (r & Hreader & _).
    by destruct (Reader_frame _ _ _ _ Hreader). }
  destruct Hcases as [(_ & _ & -> & _)
                     |[(_ & ff & _ & _ & Hs)
                      |(_ & _ & r & w1 & Hopen & Hr)]]; [done|by rewrite (Hserve _ _ Hs)|].
  apply openFSFile_resolves, resolves_extends in Hopen.
  pose proof (extends_lookup _ _ _ _ Hopen Hi) as Hi1.
  destruct r as [err|ff]; [|destruct Hr as [_ Hs]; by rewrite (Hserve _ _ Hs)].
  destruct (isDirIndexRequired err); [|by destruct Hr as (_ & -> & _)].
  destruct Hr as (r2 & w2 & Hindex & Hr2).
  assert (files w2 !! i = Some x) as Hi2.
  { destruct (createDirIndex_world _ _ _ _ _ Hindex) as [->|[ino ->]]; [done|].
    simpl. by apply lookup_app_l_Some. }
  destruct r2 as [err2|ff]; [by destruct Hr2 as (_ & -> & _)|].
  destruct Hr2 as [_ Hs]. by rewrite (Hserve _ _ Hs).
Qed.

(** X16: what is in the cache can be read. If every handle of the cache is
    open and belongs to one entry only, as in a new handler, this is still
    so after a request and after a sweep: a request stores only the handle
    it has just opened, and a sweep closes only the handles of the entries
    it removes. A request closes no file that was open before it. *)
Theorem cache_handles_open (h : fsHandler) (w : World) :
  (forall root0 s, cacheOk (FSHandler root0 s) w)
  /\ (cacheOk h w ->
      (forall ctx h' calls w',
         handleRequest h ctx w = Returns ((h', calls), w') ->
         cacheOk h' w'
         /\ forall f, isOpen w f = true -> isOpen w' f = true)
      /\ (forall t h' w', cleanCache t h w = Returns (h', w') -> cacheOk h' w')).
Proof.
  split.
  { intros root0 s.
    split; [intros k v f Hk|intros k1 k2 v1 v2 f Hk];
      unfold FSHandler in Hk; simpl in Hk; by rewrite lookup_empty in Hk. }
  intros [Hopen Huniq]. split.
  - intros ctx h' calls w' Hrun.
    pose proof (handleRequest_keeps_files _ _ _ _ _ _ Hrun) as Hkeep.
    assert (forall f, isOpen w f = true -> isOpen w' f = true) as Hstill.
    { intros f Hf. apply isOpen_true in Hf as [ino Hf]. apply isOpen_true.
      exists ino. by apply Hkeep. }
    split; [|done].
    destruct (handleRequest_cache _ _ _ _ _ _ Hrun)
      as [->|(key & ff & Hmiss & -> & Hnew)].
    { split; [|done]. intros k v f Hk Hf. apply Hstill. by eapply Hopen. }
    assert (forall f, ff_f ff = Some f ->
                      isOpen w' f = true /\ isOpen w f = false) as Hfresh.
    { intros f Hf.
      destruct (handleRequest_cases _ _ _ _ _ _ Hrun) as (path & Hstrip & Hcases).
      cbv zeta in Hcases.
      assert (setCache (<[key:=ff]> (cache h)) h <> h) as Hne.
      { intros Heq. apply (f_equal cache) in Heq. simpl in Heq.
        apply (f_equal (fun m => m !! key)) in Heq.
        rewrite lookup_insert_eq in Heq. congruence. }
      assert (forall ff' (w0 : World),
                setCache (<[key:=ff]> (cache h)) h
                = setCache (<[String.string_of_list_byte path:=ff']> (cache h)) h ->
                cache h !! String.string_of_list_byte path = None ->
                ff' = ff) as Hsame.
      { intros ff' _ Heq Hnone. apply (f_equal cache) in Heq. simpl in Heq.
        apply (f_equal (fun m => m !! String.string_of_list_byte path)) in Heq.
        rewrite (lookup_insert_eq (cache h)) in Heq.
        destruct (decide (key = String.string_of_list_byte path)) as [Hk|Hk].
        - rewrite <- Hk, lookup_insert_eq in Heq. by injection Heq as ->.
        - rewrite lookup_insert_ne in Heq by done. congruence. }
      destruct Hcases as [(_ & Heq & _)
                         |[(_ & ff' & _ & Heq & _)
                          |(_ & Hnone & r & w1 & Hopen1 & Hr)]]; [done..|].
      pose proof (openFSFile_resolves _ _ _ _ Hopen1) as Hres.
      destruct r as [err|ff'].
      - destruct (isDirIndexRequired err); [|by destruct Hr as (? & _)].
        destruct Hr as (r2 & w2 & Hindex & Hr2). destruct r2 as [err2|ff'].
        { by destruct Hr2 as (? & _). }
        destruct Hr2 as [Heq _]. rewrite (Hsame ff' w Heq Hnone) in Hindex.
        apply createDirIndex_descriptor in Hindex as (Hnone' & _). congruence.
      - destruct Hr as [Heq Hs]. rewrite (Hsame ff' w Heq Hnone) in Hres.
        pose proof (resolves_descriptor_fresh _ _ _ _ _ Hres Hf) as Hge.
        destruct (resolves_descriptor _ _ _ _ Hres) as (_ & _ & f' & ino & Hf' & Hfile).
        rewrite Hf in Hf'. injection Hf' as <-.
        apply serve_inv in Hs as (r & Hreader & _).
        destruct (Reader_frame _ _ _ _ Hreader) as (Hfiles & _).
        split.
        + apply isOpen_true. exists ino. by rewrite Hfiles.
        + unfold isOpen. by rewrite lookup_ge_None_2. }
    split.
    + intros k v f Hk Hf. simpl in Hk.
      destruct (decide (key = k)) as [<-|Hne].
      * rewrite lookup_insert_eq in Hk. injection Hk as <-. by apply Hfresh.
      * rewrite lookup_insert_ne in Hk by done. apply Hstill. by eapply Hopen.
    + intros k1 k2 v1 v2 f Hk1 Hk2 Hf1 Hf2. simpl in Hk1, Hk2.
      destruct (decide (key = k1)) as [<-|Hne1]; destruct (decide (key = k2)) as [<-|Hne2];
        [done|..].
      * rewrite lookup_insert_eq in Hk1. injection Hk1 as <-.
        rewrite lookup_insert_ne in Hk2 by done.
        destruct (Hfresh f Hf1) as [_ Hclosed].
        rewrite (Hopen _ _ _ Hk2 Hf2) in Hclosed. done.
      * rewrite lookup_insert_eq in Hk2. injection Hk2 as <-.
        rewrite lookup_insert_ne in Hk1 by done.
        destruct (Hfresh f Hf2) as [_ Hclosed].
        rewrite (Hopen _ _ _ Hk1 Hf1) in Hclosed. done.
      * rewrite lookup_insert_ne in Hk1, Hk2 by done. by eapply Huniq.
  - intros t h' w'. rewrite cleanCache_run. intros [= <- <-].
    destruct (foldl_cleanEntry_world t (map_to_list (cache h)) (cache h) w)
      as (_ & _ & _ & _ & _ & Hfiles & _).
    split.
    + intros k v f Hk Hf. simpl in Hk.
      apply map_lookup_filter_Some in Hk as [Hk Hkept]. simpl in Hkept.
      assert (sweeps t (map_to_list (cache h)) f = false) as Hsw.
      { destruct (sweeps t (map_to_list (cache h)) f) eqn:Hsw; [|done].
        apply sweeps_map_to_list in Hsw as (k2 & v2 & Hk2 & Hexp & Hf2).
        rewrite (Huniq _ _ _ _ _ Hk Hk2 Hf Hf2) in Hk.
        rewrite Hk2 in Hk. injection Hk as ->. congruence. }
      rewrite (isOpen_closeIf w _ f false); [|by rewrite Hfiles, Hsw].
      rewrite andb_true_r. by eapply Hopen.
    + intros k1 k2 v1 v2 f Hk1 Hk2. simpl in Hk1, Hk2.
      apply map_lookup_filter_Some in Hk1 as [Hk1 _].
      apply map_lookup_filter_Some in Hk2 as [Hk2 _]. by eapply Huniq.
Qed.

End CacheHandles.

(** ** Instances of the further properties *)

Lemma Demo_cacheOk : cacheOk Demo.handlerWithFile Demo.worldWithFile.
Proof.
  split.
  - intros k v f Hk Hf. simpl in Hk.
    apply lookup_singleton_Some in Hk as [<- <-]. by injection Hf as <-.
  - intros k1 k2 v1 v2 f Hk1 Hk2 _ _. simpl in Hk1, Hk2.
    apply lookup_singleton_Some in Hk1 as [<- _].
    by apply lookup_singleton_Some in Hk2 as [<- _].
Qed.

Lemma cache_handles_open_witness :
  exists h' w',
    cleanCache 5 Demo.handlerWithFile Demo.worldWithFile = Returns (h', w')
    /\ cacheOk h' w'.
Proof.
  destruct (@cache_handles_open Demo.P64 Demo.handlerWithFile Demo.worldWithFile)
    as [_ Hkeeps].
  destruct (Hkeeps Demo_cacheOk) as [_ Hsweep].
  eexists _, _. split; [apply cleanCache_run|]. apply (Hsweep 5). apply cleanCache_run.
Defined.

Lemma stripPathSlashes_panics_iff_witness :
  stripPathSlashes (B "foo/bar") 1 = Panics "BUG: path must start with slash".
Proof.
  destruct (stripPathSlashes_panics_iff (B "foo/bar") 1) as [[_ Hpanics] _].
  apply Hpanics. split; [lia|]. eexists _, _. split; [reflexivity|discriminate].
Defined.

Lemma fileExtension_suffix_witness : fileExtension "/srv/Makefile" = "".
Proof.
  destruct (fileExtension_suffix "/srv/Makefile") as (_ & [_ Hempty] & _).
  apply Hempty. simpl. intuition discriminate.
Defined.

Lemma openFSFile_leaks_no_handle_witness :
  exists r w',
    @openFSFile Demo.P64 "/srv/docs" Demo.world = Returns (r, w')
    /\ (files w' !! 0%nat = Some (Demo.dir ["index.html"], false) ->
        ~ exists ff, r = inr ff /\ ff_f ff = Some 0%nat).
Proof.
  destruct (@openFSFile_leaks_no_handle Demo.P64 "/srv/docs" Demo.world)
    as (r & w' & Hrun & _ & _ & Hnew).
  exists r, w'. split; [exact Hrun|]. intros Hlook Hreturned.
  apply (Hnew 0%nat (Demo.dir ["index.html"]) false) in Hreturned;
    [discriminate Hreturned|simpl; lia|exact Hlook].
Defined.

Lemma cleanCache_sweep_witness :
  exists h' w',
    cleanCache Demo.someday Demo.handlerWithFile Demo.worldWithFile = Returns (h', w')
    /\ cache h' !! "/a.txt" = None
    /\ files w' !! 0%nat = Some (Demo.file 5 (B "hello"), false).
Proof.
  destruct (cleanCache_sweep Demo.someday Demo.handlerWithFile Demo.worldWithFile)
    as (h' & w' & Hrun & _ & _ & Hcache & _ & _ & _ & Hclosed & _).
  exists h', w'. split; [exact Hrun|]. split.
  - rewrite Hcache. reflexivity.
  - apply (Hclosed 0%nat (Demo.file 5 (B "hello")) true); [reflexivity|].
    exists "/a.txt", Demo.cachedFile. repeat split.
Defined.

(** ** A cursor released twice *)

Lemma Close_run r rd w :
  readers w !! r = Some rd ->
  r_v rd = Some r ->
  Close r w
  = Returns (None,
             setPool (r :: pool w)
               (setReaders (<[r := {| r_f := None; r_dirIndex := [];
                                      r_offset := 0; r_v := Some r |}]> (readers w)) w)).
Proof.
  intros Hr Hv. unfold Close.
  rewrite (bind_Returns _ _ _ _ _ (getReader_Some _ _ _ Hr)).
  unfold mbind, M_bind, putReader, Pool_Put, mret, M_ret. by rewrite Hv.
Qed.

(** X17: releasing a cursor twice is what the check in [Reader] catches.
    After two calls of [Close] the pool holds the cursor twice. A consumer
    that is handed the cursor leaves the other copy in the pool; it reads
    from generated content, and when the pool then hands the same cursor
    to another consumer, its offset is positive and [Reader] panics. *)
Theorem double_Close_panics (w : World) (r : nat) (rd : fsFileReader)
    (ff ff' : fsFile) (p : list byte) :
  selfRef w ->
  readers w !! r = Some rd ->
  ff_f ff = None ->
  ff_dirIndex ff <> [] ->
  len (ff_dirIndex ff) <= maxInt64 ->
  p <> [] ->
  exists w2,
    (Close r;; Close r) w = Returns (None, w2)
    /\ pool w2 = r :: r :: pool w
    /\ forall w3,
         Reader ff w2 = Returns (r, w3) ->
         r ∈ pool w3
         /\ exists res w4,
              Read r p w3 = Returns (res, w4)
              /\ pool w4 = pool w3
              /\ forall w5,
                   Pool_Get w4 = Returns (Some r, w5) ->
                   Reader ff' w4
                   = Panics "BUG: fsFileReader with non-nil offset found in the pool".
Proof.
  intros Hself Hr Hf Hd Hmax Hp.
  pose proof (lookup_lt_Some _ _ _ Hr) as Hlt.
  set (zero := {| r_f := None; r_dirIndex := []; r_offset := 0; r_v := Some r |}).
  set (w1 := setPool (r :: pool w) (setReaders (<[r := zero]> (readers w)) w)).
  assert (readers w1 !! r = Some zero) as Hr1
    by (simpl; by apply list_lookup_insert_eq).
  set (w2 := setPool (r :: pool w1) (setReaders (<[r := zero]> (readers w1)) w1)).
  assert (readers w2 !! r = Some zero) as Hr2.
  { simpl. apply list_lookup_insert_eq. by rewrite length_insert. }
  exists w2. split.
  { rewrite (bind_Returns _ _ _ _ _ (Close_run r rd w Hr (Hself _ _ Hr))). fold zero w1.
    by rewrite (Close_run r zero w1 Hr1 eq_refl). }
  split; [done|]. intros w3 Hreader.
  set (bound := {| r_f := ff_f ff; r_dirIndex := ff_dirIndex ff;
                   r_offset := 0; r_v := Some r |}).
  destruct (Reader_cases ff w2) as (v & w0 & Hget & Hcases).
  rewrite Hcases in Hreader. clear Hcases.
  destruct v as [r0|]; cycle 1.
  { injection Hreader as Hnew _. simpl in Hnew. rewrite !length_insert in Hnew. lia. }
  destruct (readers w2 !! r0) as [rd0|] eqn:Hr0; [|done].
  destruct (0 <? r_offset rd0); [done|]. injection Hreader as -> <-.
  rewrite Hr2 in Hr0. injection Hr0 as <-.
  destruct (Pool_Get_Some _ _ _ Hget) as (i & Hi & Hrest).
  split.
  { cbn [pool setReaders]. rewrite Hrest. simpl.
    destruct i as [|i]; simpl; apply elem_of_cons; by left. }
  set (w3 := setReaders _ w0).
  assert (readers w3 !! r = Some bound) as Hr3.
  { simpl. apply list_lookup_insert_eq. by rewrite !length_insert. }
  assert (0 < length (ff_dirIndex ff))%nat as Hlen
    by (destruct (ff_dirIndex ff); [done|simpl; lia]).
  assert (0 < length p)%nat as Hplen by (destruct p; [done|simpl; lia]).
  pose proof (Read_generated r bound w3 p Hr3 Hf) as Hread.
  cbv zeta in Hread. simpl r_offset in Hread. simpl r_dirIndex in Hread.
  rewrite bool_decide_false in Hread by (unfold len; lia).
  specialize (Hread ltac:(unfold len; lia) Hmax).
  eexists _, _. split; [exact Hread|]. split; [done|]. intros w5 Hget5.
  destruct (Pool_Get_world _ _ _ Hget5) as (_ & _ & _ & _ & Hrs).
  unfold Reader. rewrite (bind_Returns _ _ _ _ _ Hget5).
  unfold mbind, M_bind, getReader, putReader, panic, mret, M_ret.
  rewrite Hrs. simpl. rewrite list_lookup_insert_eq by (by rewrite !length_insert).
  simpl.
  match goal with
  | |- context [0 <? ?x] => destruct (Z.ltb_spec 0 x); [done|lia]
  end.
Qed.

Lemma double_Close_panics_witness :
  exists w2 w3 res w4,
    (Close 0;; Close 0) (Demo.cursorOn "hello" 0) = Returns (None, w2)
    /\ pool w2 = [0%nat; 0%nat]
    /\ Reader (Demo.listing "hello") w2 = Returns (0%nat, w3)
    /\ Read 0 (B "..") w3 = Returns (res, w4)
    /\ Reader (Demo.listing "world") w4
       = Panics "BUG: fsFileReader with non-nil offset found in the pool".
Proof.
  destruct (double_Close_panics (Demo.cursorOn "hello" 0) 0
              {| r_f := None; r_dirIndex := B "hello"; r_offset := 0;
                 r_v := Some 0%nat |}
              (Demo.listing "hello") (Demo.listing "world") (B ".."))
    as (w2 & Hclose & Hpool & Hnext); try done.
  { intros r rd Hlook. destruct r as [|r]; [|done]. by injection Hlook as <-. }
  assert (poolChoices w2 = []) as Hch.
  { vm_compute in Hclose. by injection Hclose as <-. }
  destruct (Reader (Demo.listing "hello") w2) as [[r3 w3]| |] eqn:Hreader;
    [|vm_compute in Hclose; injection Hclose as <-; vm_compute in Hreader;
      discriminate..].
  assert (r3 = 0%nat /\ poolChoices w3 = []) as [-> Hch3].
  { vm_compute in Hclose. injection Hclose as <-. vm_compute in Hreader.
    by injection Hreader as <- <-. }
  destruct (Hnext w3 eq_refl) as (Hin & res & w4 & Hread & Hpool4 & Hpanic).
  assert (pool w4 = [0%nat] /\ poolChoices w4 = []) as [Hp4 Hch4].
  { vm_compute in Hclose. injection Hclose as <-. vm_compute in Hreader.
    injection Hreader as <-. vm_compute in Hread. by injection Hread as _ <-. }
  exists w2, w3, res, w4. repeat split; try done.
  exact (Hpanic _ (Pool_Get_undisturbed _ _ _ Hch4 Hp4)).
Defined.
